(** * Tetris (terminal edition): the game-state engine and the heuristic player

    A shallow embedding of [tetris.py] (classes [Tetromino], [TetrisGame])
    and [tetris_ai.py] (class [TetrisAI]), followed by the properties of
    the engine that the specification states.

    Conventions of the embedding.
    - Python [int] is [Z]; Python [float] is the kernel's binary64 [float]
      (same format, same round-to-nearest-even operations).
    - A Python list is a [list]; indexing is {!Py.getitem}, with Python's
      negative indices and [IndexError] written out.
    - A method that mutates its object is a function from the object to an
      outcome and the object as the method leaves it; a raised exception
      keeps the mutations made before it.
    - [random.choice] and [time.time] are inputs of the methods that call
      them. *)

From Stdlib Require Import ZArith List String Ascii Bool Lia Floats.
From stdpp Require Import base list.

Set Warnings "-inexact-float".
Local Open Scope Z_scope.

(** ** Python values and control *)

Module Py.

(** The exceptions the modelled code can raise.  [TypeError] stands for
    any use of an object as an object of another class.  [OutOfFuel] is
    not a Python exception: it marks that a [while] loop of the model used
    up the iteration bound it was run with. *)
Inductive exn :=
  IndexError | KeyError | ValueError | ZeroDivisionError | TypeError | OutOfFuel.

Inductive res (A : Type) : Type :=
| Ok (a : A)
| Raise (e : exn).
Arguments Ok {A} a.
Arguments Raise {A} e.

Definition bind {A B} (c : res A) (k : A -> res B) : res B :=
  match c with
  | Ok a => k a
  | Raise e => Raise e
  end.

(** Stateful code over an object of type [S]. *)
Definition M (S A : Type) : Type := S -> res A * S.

Definition ret {S A} (a : A) : M S A := fun s => (Ok a, s).

Definition bindM {S A B} (c : M S A) (k : A -> M S B) : M S B :=
  fun s =>
    match c s with
    | (Ok a, s') => k a s'
    | (Raise e, s') => (Raise e, s')
    end.

Definition get {S} : M S S := fun s => (Ok s, s).
Definition modify {S} (f : S -> S) : M S unit := fun s => (Ok tt, f s).
Definition lift {S A} (c : res A) : M S A := fun s => (c, s).

(** [l[i]]: a negative index counts from the end. *)
Definition index_of {A} (l : list A) (i : Z) : option nat :=
  let n := Z.of_nat (length l) in
  let j := if i <? 0 then i + n else i in
  if (0 <=? j) && (j <? n) then Some (Z.to_nat j) else None.

Definition getitem {A} (l : list A) (i : Z) : res A :=
  match index_of l i with
  | Some k =>
      match l !! k with
      | Some a => Ok a
      | None => Raise IndexError
      end
  | None => Raise IndexError
  end.

(** [l[i] = v] *)
Definition setitem {A} (l : list A) (i : Z) (v : A) : res (list A) :=
  match index_of l i with
  | Some k => Ok (<[k := v]> l)
  | None => Raise IndexError
  end.

(** [del l[i]] *)
Definition delitem {A} (l : list A) (i : Z) : res (list A) :=
  match index_of l i with
  | Some k => Ok (delete k l)
  | None => Raise IndexError
  end.

(** [len(l)] *)
Definition len {A} (l : list A) : Z := Z.of_nat (length l).

(** [range(n)] and [range(a, b)] *)
Definition range (n : Z) : list Z := map Z.of_nat (seq 0 (Z.to_nat n)).
Definition range2 (a b : Z) : list Z :=
  map (fun k => a + Z.of_nat k) (seq 0 (Z.to_nat (b - a))).

(** [enumerate(l)] *)
Fixpoint enumerate_from {A} (i : Z) (l : list A) : list (Z * A) :=
  match l with
  | [] => []
  | a :: l' => (i, a) :: enumerate_from (i + 1) l'
  end.
Definition enumerate {A} (l : list A) : list (Z * A) := enumerate_from 0 l.

(** A [for] loop whose body may [return]: [None] is "fell through". *)
Fixpoint for_return {A R} (l : list A) (body : A -> res (option R)) : res (option R) :=
  match l with
  | [] => Ok None
  | a :: l' =>
      match body a with
      | Ok None => for_return l' body
      | other => other
      end
  end.

(** A [for] loop that threads a local value. *)
Fixpoint for_acc {A B} (l : list A) (acc : B) (body : B -> A -> res B) : res B :=
  match l with
  | [] => Ok acc
  | a :: l' => bind (body acc a) (fun acc' => for_acc l' acc' body)
  end.

(** A [for] loop over an object that the body mutates. *)
Fixpoint for_each {S A} (l : list A) (body : A -> M S unit) : M S unit :=
  match l with
  | [] => ret tt
  | a :: l' => bindM (body a) (fun _ => for_each l' body)
  end.

(** A [for] loop over an object that threads a local value as well. *)
Fixpoint for_accM {S A B} (l : list A) (acc : B) (body : B -> A -> M S B) : M S B :=
  match l with
  | [] => ret acc
  | a :: l' => bindM (body acc a) (fun acc' => for_accM l' acc' body)
  end.

(** A list comprehension whose element expression has effects; [None]
    is an element the [if] of the comprehension leaves out. *)
Fixpoint comprehension {S A B} (l : list A) (f : A -> M S (option B)) : M S (list B) :=
  match l with
  | [] => ret []
  | a :: l' =>
      bindM (f a) (fun b =>
      bindM (comprehension l' f) (fun bs =>
      ret (match b with Some b => b :: bs | None => bs end)))
  end.

(** [float(n)] and the conversion of an [int] operand of a float
    operation; exact below 2^53 in absolute value, rounded to nearest
    below 2^63 (larger integers do not arise from list lengths). *)
Definition to_float (n : Z) : float :=
  if n <? 0 then PrimFloat.opp (PrimFloat.of_uint63 (Uint63.of_Z (- n)))
  else PrimFloat.of_uint63 (Uint63.of_Z n).

(** [max(a, b)] and [min(a, b)] on floats: the first argument unless the
    second is strictly larger (smaller). *)
Definition fmax (a b : float) : float := if PrimFloat.ltb a b then b else a.
Definition fmin (a b : float) : float := if PrimFloat.ltb b a then b else a.

(** [s1 != s2] on strings. *)
Definition str_ne (a b : string) : bool := negb (String.eqb a b).

(** [d[k]] on a dictionary kept in insertion order. *)
Fixpoint dict_get {V} (d : list (string * V)) (k : string) : res V :=
  match d with
  | [] => Raise KeyError
  | (k', v) :: d' => if String.eqb k k' then Ok v else dict_get d' k
  end.

Definition dict_keys {V} (d : list (string * V)) : list string := map fst d.

End Py.

Import Py.

Declare Scope py_scope.
Delimit Scope py_scope with py.
Notation "x <- c ;; k" := (Py.bind c (fun x => k))
  (at level 100, c at next level, right associativity) : py_scope.
Notation "x <~ c ;; k" := (Py.bindM c (fun x => k))
  (at level 100, c at next level, right associativity) : py_scope.
Notation "c ;;; k" := (Py.bindM c (fun _ => k))
  (at level 100, right associativity) : py_scope.
Local Open Scope py_scope.

(** ** Piece catalog: [Color], [SHAPES], [COLORS] *)

Definition grid := list (list Z).

Definition GREEN : string := String (ascii_of_nat 27) "[92m".

Definition SHAPES : list (string * list grid) :=
  [ ("I"%string, [ [[1; 1; 1; 1]];
                   [[1]; [1]; [1]; [1]] ]);
    ("O"%string, [ [[1; 1]; [1; 1]] ]);
    ("T"%string, [ [[0; 1; 0]; [1; 1; 1]];
                   [[1; 0]; [1; 1]; [1; 0]];
                   [[1; 1; 1]; [0; 1; 0]];
                   [[0; 1]; [1; 1]; [0; 1]] ]);
    ("S"%string, [ [[0; 1; 1]; [1; 1; 0]];
                   [[1; 0]; [1; 1]; [0; 1]] ]);
    ("Z"%string, [ [[1; 1; 0]; [0; 1; 1]];
                   [[0; 1]; [1; 1]; [1; 0]] ]);
    ("J"%string, [ [[1; 0; 0]; [1; 1; 1]];
                   [[1; 1]; [1; 0]; [1; 0]];
                   [[1; 1; 1]; [0; 0; 1]];
                   [[0; 1]; [0; 1]; [1; 1]] ]);
    ("L"%string, [ [[0; 0; 1]; [1; 1; 1]];
                   [[1; 0]; [1; 0]; [1; 1]];
                   [[1; 1; 1]; [1; 0; 0]];
                   [[1; 1]; [0; 1]; [0; 1]] ]) ].

Definition COLORS : list (string * string) :=
  [ ("I"%string, GREEN); ("O"%string, GREEN); ("T"%string, GREEN);
    ("S"%string, GREEN); ("Z"%string, GREEN); ("J"%string, GREEN);
    ("L"%string, GREEN) ].

(** ** class Tetromino *)

Module Tetromino.

Record t := mk {
  type : string;
  shapes : list grid;
  rotation : Z;
  shape : grid;
  color : string;
  x : Z;
  y : Z
}.

Definition set_rotation (v : Z) (p : t) : t :=
  mk (type p) (shapes p) v (shape p) (color p) (x p) (y p).
Definition set_shape (v : grid) (p : t) : t :=
  mk (type p) (shapes p) (rotation p) v (color p) (x p) (y p).
Definition set_x (v : Z) (p : t) : t :=
  mk (type p) (shapes p) (rotation p) (shape p) (color p) v (y p).
Definition set_y (v : Z) (p : t) : t :=
  mk (type p) (shapes p) (rotation p) (shape p) (color p) (x p) v.

(** [Tetromino(shape_type)] *)
Definition init (shape_type : string) : res t :=
  if negb (existsb (String.eqb shape_type) (dict_keys SHAPES)) then Raise ValueError
  else
    shs <- dict_get SHAPES shape_type ;;
    sh <- getitem shs 0 ;;
    col <- dict_get COLORS shape_type ;;
    Ok (mk shape_type shs 0 sh col 0 0).

(** [a % len(l)] *)
Definition mod_len {A} (a : Z) (l : list A) : res Z :=
  if len l =? 0 then Raise ZeroDivisionError else Ok (a mod len l).

Definition rotate_cw : M t unit :=
  p <~ get ;;
  r <~ lift (mod_len (rotation p + 1) (shapes p)) ;;
  modify (set_rotation r) ;;;
  sh <~ lift (getitem (shapes p) r) ;;
  modify (set_shape sh).

Definition rotate_ccw : M t unit :=
  p <~ get ;;
  r <~ lift (mod_len (rotation p - 1) (shapes p)) ;;
  modify (set_rotation r) ;;;
  sh <~ lift (getitem (shapes p) r) ;;
  modify (set_shape sh).

(** The occupied cells of a rotation state anchored at [(py, px)], as
    [(row, column)] pairs in the order of the two nested loops. *)
Definition cells_of (sh : grid) (py px : Z) : list (Z * Z) :=
  flat_map (fun '(r, row) =>
    flat_map (fun '(c, val) => if val =? 0 then [] else [(py + r, px + c)])
             (enumerate row))
    (enumerate sh).

Definition get_cells (p : t) : list (Z * Z) := cells_of (shape p) (y p) (x p).

End Tetromino.

(** ** class TetrisGame *)

Module TetrisGame.

Record t := mk {
  width : Z;
  height : Z;
  board : list (list string);
  score : Z;
  level : Z;
  lines_cleared : Z;
  game_over : bool;
  paused : bool;
  current_piece : Tetromino.t;
  next_piece : Tetromino.t;
  fall_speed : float;
  last_fall_time : float
}.

Definition set_board (v : list (list string)) (g : t) : t :=
  mk (width g) (height g) v (score g) (level g) (lines_cleared g) (game_over g)
     (paused g) (current_piece g) (next_piece g) (fall_speed g) (last_fall_time g).
Definition set_score (v : Z) (g : t) : t :=
  mk (width g) (height g) (board g) v (level g) (lines_cleared g) (game_over g)
     (paused g) (current_piece g) (next_piece g) (fall_speed g) (last_fall_time g).
Definition set_level (v : Z) (g : t) : t :=
  mk (width g) (height g) (board g) (score g) v (lines_cleared g) (game_over g)
     (paused g) (current_piece g) (next_piece g) (fall_speed g) (last_fall_time g).
Definition set_lines_cleared (v : Z) (g : t) : t :=
  mk (width g) (height g) (board g) (score g) (level g) v (game_over g)
     (paused g) (current_piece g) (next_piece g) (fall_speed g) (last_fall_time g).
Definition set_game_over (v : bool) (g : t) : t :=
  mk (width g) (height g) (board g) (score g) (level g) (lines_cleared g) v
     (paused g) (current_piece g) (next_piece g) (fall_speed g) (last_fall_time g).
Definition set_paused (v : bool) (g : t) : t :=
  mk (width g) (height g) (board g) (score g) (level g) (lines_cleared g) (game_over g)
     v (current_piece g) (next_piece g) (fall_speed g) (last_fall_time g).
Definition set_current_piece (v : Tetromino.t) (g : t) : t :=
  mk (width g) (height g) (board g) (score g) (level g) (lines_cleared g) (game_over g)
     (paused g) v (next_piece g) (fall_speed g) (last_fall_time g).
Definition set_next_piece (v : Tetromino.t) (g : t) : t :=
  mk (width g) (height g) (board g) (score g) (level g) (lines_cleared g) (game_over g)
     (paused g) (current_piece g) v (fall_speed g) (last_fall_time g).
Definition set_fall_speed (v : float) (g : t) : t :=
  mk (width g) (height g) (board g) (score g) (level g) (lines_cleared g) (game_over g)
     (paused g) (current_piece g) (next_piece g) v (last_fall_time g).
Definition set_last_fall_time (v : float) (g : t) : t :=
  mk (width g) (height g) (board g) (score g) (level g) (lines_cleared g) (game_over g)
     (paused g) (current_piece g) (next_piece g) (fall_speed g) v.

(** Run a method of the current piece on the game that owns it. *)
Definition on_current_piece {A} (c : M Tetromino.t A) : M t A :=
  fun g => let '(r, p) := c (current_piece g) in (r, set_current_piece p g).

(** [[' ' for _ in range(width)]] *)
Definition empty_row (w : Z) : list string := repeat " "%string (Z.to_nat w).

(** [all(cell != ' ' for cell in row)] *)
Definition row_full (row : list string) : bool :=
  forallb (fun cell => str_ne cell " ") row.

(** [spawn_piece], with the outcome [shape_type] of [random.choice]. *)
Definition spawn_piece (g_width : Z) (shape_type : string) : res Tetromino.t :=
  piece <- Tetromino.init shape_type ;;
  row0 <- getitem (Tetromino.shape piece) 0 ;;
  Ok (Tetromino.set_y (-2) (Tetromino.set_x ((g_width - len row0) / 2) piece)).

(** [TetrisGame(width, height)]: [choice1] and [choice2] are the two
    outcomes of [random.choice], [now] the result of [time.time()]. *)
Definition init (width height : Z) (choice1 choice2 : string) (now : float) : res t :=
  if (width <? 4) || (height <? 4) then Raise ValueError
  else
    cur <- spawn_piece width choice1 ;;
    nxt <- spawn_piece width choice2 ;;
    Ok (mk width height
           (map (fun _ => empty_row width) (range height))
           0 1 0 false false cur nxt 0.8%float now).

(** The test of one occupied cell in [valid_position]: [Some false] is
    [return False], [None] goes on to the next cell. *)
Definition check_cell (g : t) (new_y new_x : Z) : res (option bool) :=
  if (new_x <? 0) || (new_x >=? width g) || (new_y >=? height g) then Ok (Some false)
  else if new_y >=? 0 then
    row <- getitem (board g) new_y ;;
    cell <- getitem row new_x ;;
    if str_ne cell " " then Ok (Some false) else Ok None
  else Ok None.

Definition valid_position (g : t) (piece : Tetromino.t) (offset_x offset_y : Z) : res bool :=
  out <- for_return (enumerate (Tetromino.shape piece)) (fun '(r, row) =>
           for_return (enumerate row) (fun '(c, val) =>
             if val =? 0 then Ok None
             else check_cell g (Tetromino.y piece + r + offset_y)
                               (Tetromino.x piece + c + offset_x))) ;;
  match out with
  | Some b => Ok b
  | None => Ok true
  end.

(** [self.board[y][x] = v] *)
Definition set_cell (y x : Z) (v : string) : M t unit :=
  g <~ get ;;
  row <~ lift (getitem (board g) y) ;;
  row' <~ lift (setitem row x v) ;;
  b' <~ lift (setitem (board g) y row') ;;
  modify (set_board b').

Definition place_piece : M t unit :=
  g0 <~ get ;;
  for_each (enumerate (Tetromino.shape (current_piece g0))) (fun '(r, row) =>
    for_each (enumerate row) (fun '(c, val) =>
      if val =? 0 then ret tt
      else
        g <~ get ;;
        let y := Tetromino.y (current_piece g) + r in
        let x := Tetromino.x (current_piece g) + c in
        if (0 <=? y) && (y <? height g) && (0 <=? x) && (x <? width g)
        then set_cell y x (Tetromino.color (current_piece g))
        else ret tt)).

(** The first loop of [clear_lines]: the indices of the full rows. *)
Definition lines_to_clear (g : t) : res (list Z) :=
  for_acc (range (height g)) [] (fun acc r =>
    row <- getitem (board g) r ;;
    if row_full row then Ok (acc ++ [r]) else Ok acc).

Definition points : list Z := [0; 100; 300; 500; 800].

(** [max(0.1, 0.8 - (level - 1) * 0.05)] *)
Definition speed_of_level (level : Z) : float :=
  fmax 0.1%float (PrimFloat.sub 0.8%float (PrimFloat.mul (to_float (level - 1)) 0.05%float)).

(** The body of the second loop of [clear_lines]:
    [del self.board[r]] and [self.board.insert(0, ...)]. *)
Definition remove_line (r : Z) : M t unit :=
  g <~ get ;;
  b <~ lift (delitem (board g) r) ;;
  modify (set_board b) ;;;
  g' <~ get ;;
  modify (set_board (empty_row (width g') :: board g')).

Definition clear_lines : M t Z :=
  g0 <~ get ;;
  lines <~ lift (lines_to_clear g0) ;;
  for_each lines remove_line ;;;
  let num_lines := len lines in
  (if num_lines >? 0 then
     pts <~ lift (getitem points num_lines) ;;
     modify (fun g => set_score (score g + pts * level g) g) ;;;
     modify (fun g => set_lines_cleared (lines_cleared g + num_lines) g) ;;;
     modify (fun g => set_level (lines_cleared g / 10 + 1) g) ;;;
     modify (fun g => set_fall_speed (speed_of_level (level g)) g)
   else ret tt) ;;;
  ret num_lines.

(** [self.valid_position(self.current_piece, ...)] read inside a method. *)
Definition current_valid (offset_x offset_y : Z) : M t bool :=
  g <~ get ;;
  lift (valid_position g (current_piece g) offset_x offset_y).

Definition move_by (dx dy : Z) : M t unit :=
  on_current_piece (modify (fun p => Tetromino.set_x (Tetromino.x p + dx) p)) ;;;
  on_current_piece (modify (fun p => Tetromino.set_y (Tetromino.y p + dy) p)).

Definition move_left : M t unit :=
  ok <~ current_valid (-1) 0 ;;
  if ok then on_current_piece (modify (fun p => Tetromino.set_x (Tetromino.x p - 1) p))
  else ret tt.

Definition move_right : M t unit :=
  ok <~ current_valid 1 0 ;;
  if ok then on_current_piece (modify (fun p => Tetromino.set_x (Tetromino.x p + 1) p))
  else ret tt.

Definition move_down : M t bool :=
  ok <~ current_valid 0 1 ;;
  if ok then
    on_current_piece (modify (fun p => Tetromino.set_y (Tetromino.y p + 1) p)) ;;;
    ret true
  else ret false.

(** The wall kicks of [rotate], in the order they are tried. *)
Definition wall_kicks : list (Z * Z) := [(-1, 0); (1, 0); (0, -1); (-2, 0); (2, 0)].

(** The [for offset in ...] loop of [rotate]: [true] when it returned. *)
Fixpoint try_kicks (offsets : list (Z * Z)) : M t bool :=
  match offsets with
  | [] => ret false
  | (dx, dy) :: rest =>
      ok <~ current_valid dx dy ;;
      if ok then move_by dx dy ;;; ret true
      else try_kicks rest
  end.

Definition rotate : M t unit :=
  g <~ get ;;
  let old_rotation := Tetromino.rotation (current_piece g) in
  on_current_piece Tetromino.rotate_cw ;;;
  ok <~ current_valid 0 0 ;;
  if negb ok then
    returned <~ try_kicks wall_kicks ;;
    if returned then ret tt
    else
      on_current_piece (modify (Tetromino.set_rotation old_rotation)) ;;;
      g' <~ get ;;
      sh <~ lift (getitem (Tetromino.shapes (current_piece g')) old_rotation) ;;
      on_current_piece (modify (Tetromino.set_shape sh))
  else ret tt.

(** [lock_piece] up to and including the reset of the fall timer;
    [shape_type] is the outcome of [random.choice] in [spawn_piece] and
    [now] the result of [time.time()]. *)
Definition lock_and_spawn (shape_type : string) (now : float) : M t unit :=
  place_piece ;;;
  _ <~ clear_lines ;;
  modify (fun g => set_current_piece (next_piece g) g) ;;;
  g <~ get ;;
  nxt <~ lift (spawn_piece (width g) shape_type) ;;
  modify (set_next_piece nxt) ;;;
  modify (set_last_fall_time now).

Definition lock_piece (shape_type : string) (now : float) : M t unit :=
  lock_and_spawn shape_type now ;;;
  ok <~ current_valid 0 0 ;;
  if negb ok then modify (set_game_over true) else ret tt.

(** [while self.move_down(): pass], run for at most [fuel] iterations. *)
Fixpoint drop_loop (fuel : nat) : M t unit :=
  match fuel with
  | O => lift (Raise OutOfFuel)
  | S fuel' =>
      moved <~ move_down ;;
      if moved then drop_loop fuel' else ret tt
  end.

Definition hard_drop (fuel : nat) (shape_type : string) (now : float) : M t unit :=
  drop_loop fuel ;;;
  lock_piece shape_type now.

(** [update]: [current_time] is its own reading of the clock, [shape_type]
    and [lock_time] are the inputs of the [lock_piece] it may call. *)
Definition update (current_time : float) (shape_type : string) (lock_time : float) : M t unit :=
  g <~ get ;;
  if game_over g || paused g then ret tt
  else if PrimFloat.leb (fall_speed g) (PrimFloat.sub current_time (last_fall_time g)) then
    moved <~ move_down ;;
    (if negb moved then lock_piece shape_type lock_time else ret tt) ;;;
    modify (set_last_fall_time current_time)
  else ret tt.

End TetrisGame.


(** ** Module-level functions of [tetris.py] *)


(** ** class TetrisAI: the board evaluator and [execute_move] *)

Module TetrisAI.

(** A column height or [float('inf')], the neighbour that [_count_wells]
    gives an edge column. *)
Inductive height_or_inf := Fin (h : Z) | Inf.

(** [a < b], [a - b] for an integer [b], [min(a, b)], [a * b], [a + b]
    and [float(a)] on such values; the integer cases are exact. *)
Definition hi_ltb (a b : height_or_inf) : bool :=
  match a, b with
  | Fin x, Fin y => x <? y
  | Fin _, Inf => true
  | Inf, _ => false
  end.
Definition hi_sub (a : height_or_inf) (b : Z) : height_or_inf :=
  match a with
  | Fin x => Fin (x - b)
  | Inf => Inf
  end.
Definition hi_min (a b : height_or_inf) : height_or_inf := if hi_ltb b a then b else a.
Definition hi_mul (a b : height_or_inf) : height_or_inf :=
  match a, b with
  | Fin x, Fin y => Fin (x * y)
  | _, _ => Inf
  end.
Definition hi_add (a b : height_or_inf) : height_or_inf :=
  match a, b with
  | Fin x, Fin y => Fin (x + y)
  | _, _ => Inf
  end.
Definition hi_float (a : height_or_inf) : float :=
  match a with
  | Fin x => to_float x
  | Inf => PrimFloat.infinity
  end.

(** [board[row][col]] *)
Definition cell_at (board : list (list string)) (row col : Z) : res string :=
  r <- getitem board row ;;
  getitem r col.

(** The inner loop of [_get_column_heights] for the column [col]. *)
Definition column_height (board : list (list string)) (col : Z) : res Z :=
  out <- for_return (range (len board)) (fun row =>
           cell <- cell_at board row col ;;
           if str_ne cell " " then Ok (Some (len board - row)) else Ok None) ;;
  match out with
  | Some h => Ok h
  | None => Ok 0
  end.

Definition _get_column_heights (board : list (list string)) : res (list Z) :=
  row0 <- getitem board 0 ;;
  for_acc (range (len row0)) [] (fun heights col =>
    h <- column_height board col ;;
    Ok (heights ++ [h])).

(** [max(heights)] of a non-empty list. *)
Definition list_max (h : Z) (rest : list Z) : Z := fold_left Z.max rest h.

Definition _get_max_height (board : list (list string)) : res float :=
  heights <- _get_column_heights board ;;
  match heights with
  | [] => Ok 0%float
  | h :: rest => Ok (to_float (list_max h rest))
  end.

Definition _aggregate_height (board : list (list string)) : res float :=
  heights <- _get_column_heights board ;;
  Ok (to_float (fold_left Z.add heights 0)).

Definition _count_holes (board : list (list string)) : res float :=
  row0 <- getitem board 0 ;;
  holes <- for_acc (range (len row0)) 0 (fun holes col =>
    st <- for_acc (range (len board)) (holes, false) (fun '(holes, found_block) row =>
      cell <- cell_at board row col ;;
      if str_ne cell " " then Ok (holes, true)
      else if found_block && String.eqb cell " " then Ok (holes + 1, found_block)
      else Ok (holes, found_block)) ;;
    Ok (fst st)) ;;
  Ok (to_float holes).

Definition _calculate_bumpiness (board : list (list string)) : res float :=
  heights <- _get_column_heights board ;;
  bumpiness <- for_acc (range (len heights - 1)) 0 (fun bumpiness i =>
    a <- getitem heights i ;;
    b <- getitem heights (i + 1) ;;
    Ok (bumpiness + Z.abs (a - b))) ;;
  Ok (to_float bumpiness).

Definition _count_complete_lines (board : list (list string)) : res float :=
  Ok (to_float (fold_left (fun complete_lines row =>
                   if forallb (fun cell => str_ne cell " ") row
                   then complete_lines + 1 else complete_lines) board 0)).

Definition _count_wells (board : list (list string)) : res float :=
  heights <- _get_column_heights board ;;
  wells <- for_acc (range (len heights)) (Fin 0) (fun wells i =>
    left_height <- (if i >? 0 then h <- getitem heights (i - 1) ;; Ok (Fin h) else Ok Inf) ;;
    right_height <- (if i <? len heights - 1
                     then h <- getitem heights (i + 1) ;; Ok (Fin h) else Ok Inf) ;;
    current_height <- getitem heights i ;;
    if hi_ltb (Fin current_height) left_height && hi_ltb (Fin current_height) right_height
    then
      let well_depth := hi_min (hi_sub left_height current_height)
                               (hi_sub right_height current_height) in
      Ok (hi_add wells (hi_mul well_depth well_depth))
    else Ok wells) ;;
  Ok (hi_float wells).

Definition _count_row_transitions (board : list (list string)) : res float :=
  transitions <- for_acc board 0 (fun transitions row =>
    for_acc (range (len row - 1)) transitions (fun transitions i =>
      a <- getitem row i ;;
      b <- getitem row (i + 1) ;;
      if negb (Bool.eqb (String.eqb a " ") (String.eqb b " "))
      then Ok (transitions + 1) else Ok transitions)) ;;
  Ok (to_float transitions).

Definition _count_column_transitions (board : list (list string)) : res float :=
  row0 <- getitem board 0 ;;
  transitions <- for_acc (range (len row0)) 0 (fun transitions col =>
    for_acc (range (len board - 1)) transitions (fun transitions row =>
      a <- cell_at board row col ;;
      b <- cell_at board (row + 1) col ;;
      if negb (Bool.eqb (String.eqb a " ") (String.eqb b " "))
      then Ok (transitions + 1) else Ok transitions)) ;;
  Ok (to_float transitions).

Definition _count_pits (board : list (list string)) : res float :=
  heights <- _get_column_heights board ;;
  row0 <- getitem board 0 ;;
  pits <- for_acc (range (len row0)) 0 (fun pits col =>
    hc <- getitem heights col ;;
    let top_row := if hc >? 0 then len board - hc else len board in
    for_acc (range2 top_row (len board)) pits (fun pits row =>
      cell <- cell_at board row col ;;
      if String.eqb cell " " then
        left_blocked <- (if col =? 0 then Ok true
                         else c <- cell_at board row (col - 1) ;; Ok (str_ne c " ")) ;;
        right_blocked <- (r0 <- getitem board 0 ;;
                          if col =? len r0 - 1 then Ok true
                          else c <- cell_at board row (col + 1) ;; Ok (str_ne c " ")) ;;
        if left_blocked && right_blocked then
          blocks_above <- for_acc (range row) 0 (fun blocks_above r =>
            c <- cell_at board r col ;;
            if str_ne c " " then Ok (blocks_above + 1) else Ok blocks_above) ;;
          if blocks_above >? 0 then Ok (pits + (1 + blocks_above)) else Ok pits
        else Ok pits
      else Ok pits)) ;;
  Ok (to_float pits).

(** The [is_clean] loop of [_evaluate_well_quality]. *)
Definition is_clean (board : list (list string)) (well_height col : Z) : res bool :=
  out <- for_return (range2 (len board - well_height) (len board)) (fun row =>
           cell <- cell_at board row col ;;
           if str_ne cell " " then Ok (Some false) else Ok None) ;;
  match out with
  | Some b => Ok b
  | None => Ok true
  end.

(** The score [_evaluate_well_quality] gives a well whose neighbour is
    [height_diff >= 3] taller, before the bonus. *)
Definition depth_score (height_diff : Z) : float :=
  if (3 <=? height_diff) && (height_diff <=? 4) then 10.0%float
  else if height_diff >? 4
       then PrimFloat.sub 5.0%float (PrimFloat.mul (to_float (height_diff - 4)) 0.5%float)
       else PrimFloat.mul (to_float height_diff) 2.0%float.

(** The body of the loop of [_evaluate_well_quality] for the edge column
    [col]: the score of that column when it counts, [None] otherwise. *)
Definition edge_well_score (board : list (list string)) (heights : list Z)
           (board_width col : Z) : res (option float) :=
  well_height <- getitem heights col ;;
  let neighbor_col := if col =? 0 then 1 else board_width - 2 in
  neighbor_height <- getitem heights neighbor_col ;;
  let height_diff := neighbor_height - well_height in
  if height_diff >=? 3 then
    let well_score := depth_score height_diff in
    clean <- is_clean board well_height col ;;
    Ok (Some (if clean then PrimFloat.mul well_score 1.5%float else well_score))
  else Ok None.

Definition _evaluate_well_quality (board : list (list string)) : res float :=
  heights <- _get_column_heights board ;;
  row0 <- getitem board 0 ;;
  let board_width := len row0 in
  for_acc [0; board_width - 1] 0.0%float (fun best_well_score col =>
    s <- edge_well_score board heights board_width col ;;
    match s with
    | Some well_score => Ok (fmax best_well_score well_score)
    | None => Ok best_well_score
    end).

Definition _evaluate_tetris_readiness (board : list (list string))
           (piece_type : option string) : res float :=
  if negb (match piece_type with Some ty => String.eqb ty "I" | None => false end)
  then Ok 0.0%float
  else
    heights <- _get_column_heights board ;;
    row0 <- getitem board 0 ;;
    let board_width := len row0 in
    let board_height := len board in
    for_acc (range board_width) 0.0%float (fun max_tetris_score col =>
      col_height <- getitem heights col ;;
      let start_row := board_height - col_height - 4 in
      if start_row <? 0 then Ok max_tetris_score
      else
        potential_clears <- for_acc (range 4) 0 (fun potential_clears row_offset =>
          let row := start_row + row_offset in
          if (row <? 0) || (row >=? board_height) then Ok potential_clears
          else
            filled <- for_acc (range board_width) 0 (fun filled c =>
              if negb (c =? col) then
                cell <- cell_at board row c ;;
                if str_ne cell " " then Ok (filled + 1) else Ok filled
              else Ok filled) ;;
            if filled =? board_width - 1 then
              cell <- cell_at board row col ;;
              if String.eqb cell " " then Ok (potential_clears + 1) else Ok potential_clears
            else Ok potential_clears) ;;
        if potential_clears =? 4 then Ok 50.0%float
        else if potential_clears =? 3 then Ok (fmax max_tetris_score 15.0%float)
        else if potential_clears =? 2 then Ok (fmax max_tetris_score 5.0%float)
        else Ok max_tetris_score).

(** The local variables of [evaluate_board] before the final score. *)
Record locals := mk_locals {
  height_score : float;
  holes_score : float;
  bumpiness_score : float;
  lines_score : float;
  max_height_score : float;
  wells_score : float;
  row_transitions_score : float;
  col_transitions_score : float;
  pit_score : float;
  is_dangerous : bool;
  well_quality_score : float;
  tetris_ready_score : float
}.

Definition evaluate_locals (board : list (list string)) (piece_type : option string)
  : res locals :=
  height_score <- _aggregate_height board ;;
  holes_score <- _count_holes board ;;
  bumpiness_score <- _calculate_bumpiness board ;;
  lines_score <- _count_complete_lines board ;;
  max_height_score <- _get_max_height board ;;
  wells_score <- _count_wells board ;;
  row_transitions_score <- _count_row_transitions board ;;
  col_transitions_score <- _count_column_transitions board ;;
  pit_score <- _count_pits board ;;
  let board_height := len board in
  max_height <- _get_max_height board ;;
  let is_dangerous := PrimFloat.ltb (PrimFloat.mul (to_float board_height) 0.6%float)
                                    max_height in
  wt <- (if negb is_dangerous then
           well_quality_score <- _evaluate_well_quality board ;;
           tetris_ready_score <- _evaluate_tetris_readiness board piece_type ;;
           Ok (well_quality_score, tetris_ready_score)
         else Ok (0%float, 0%float)) ;;
  Ok (mk_locals height_score holes_score bumpiness_score lines_score max_height_score
                wells_score row_transitions_score col_transitions_score pit_score
                is_dangerous (fst wt) (snd wt)).

(** The two weighted sums of [evaluate_board], added left to right. *)
Definition panic_score (l : locals) : float :=
  (-2.0 * height_score l + 1.5 * lines_score l + -10.0 * holes_score l
   + -1.0 * bumpiness_score l + -5.0 * max_height_score l + -2.0 * wells_score l
   + -0.5 * row_transitions_score l + -0.3 * col_transitions_score l
   + -15.0 * pit_score l)%float.

Definition normal_score (l : locals) : float :=
  (-0.8 * height_score l + 1.2 * lines_score l + -5.0 * holes_score l
   + -0.3 * bumpiness_score l + -1.5 * max_height_score l + -0.5 * wells_score l
   + -0.15 * row_transitions_score l + -0.1 * col_transitions_score l
   + -8.0 * pit_score l + 0.3 * well_quality_score l + 0.8 * tetris_ready_score l)%float.

Definition evaluate_board (board : list (list string)) (piece_type : option string)
  : res float :=
  l <- evaluate_locals board piece_type ;;
  if is_dangerous l then Ok (panic_score l) else Ok (normal_score l).

(** The test of one occupied cell in [_is_valid_on_board]. *)
Definition check_cell_on (board : list (list string)) (new_y new_x : Z)
  : res (option bool) :=
  if new_x <? 0 then Ok (Some false)
  else
    row0 <- getitem board 0 ;;
    if (new_x >=? len row0) || (new_y >=? len board) then Ok (Some false)
    else if new_y >=? 0 then
      cell <- cell_at board new_y new_x ;;
      if str_ne cell " " then Ok (Some false) else Ok None
    else Ok None.

Definition _is_valid_on_board (piece : Tetromino.t) (board : list (list string))
           (offset_x offset_y : Z) : res bool :=
  out <- for_return (enumerate (Tetromino.shape piece)) (fun '(r, row) =>
           for_return (enumerate row) (fun '(c, val) =>
             if val =? 0 then Ok None
             else check_cell_on board (Tetromino.y piece + r + offset_y)
                                      (Tetromino.x piece + c + offset_x))) ;;
  match out with
  | Some b => Ok b
  | None => Ok true
  end.

(** The three [while] loops of [execute_move], each run for at most
    [fuel] iterations. *)
Fixpoint rotate_loop (fuel : nat) (rotation : Z) : M TetrisGame.t unit :=
  match fuel with
  | O => lift (Raise OutOfFuel)
  | S fuel' =>
      g <~ get ;;
      if negb (Tetromino.rotation (TetrisGame.current_piece g) =? rotation)
      then TetrisGame.rotate ;;; rotate_loop fuel' rotation
      else ret tt
  end.

Fixpoint slide_loop (fuel : nat) (dx : Z) (target_x : Z) : M TetrisGame.t unit :=
  match fuel with
  | O => lift (Raise OutOfFuel)
  | S fuel' =>
      g <~ get ;;
      let px := Tetromino.x (TetrisGame.current_piece g) in
      if (if dx >? 0 then px <? target_x else px >? target_x) then
        ok <~ TetrisGame.current_valid dx 0 ;;
        if ok then
          TetrisGame.on_current_piece
            (modify (fun p => Tetromino.set_x (Tetromino.x p + dx) p)) ;;;
          slide_loop fuel' dx target_x
        else ret tt
      else ret tt
  end.

Definition execute_move (fuel : nat) (move : option (Z * Z)) : M TetrisGame.t unit :=
  match move with
  | None => ret tt
  | Some (rotation, target_x) =>
      rotate_loop fuel rotation ;;;
      slide_loop fuel 1 target_x ;;;
      slide_loop fuel (-1) target_x ;;;
      modify (TetrisGame.set_fall_speed 0.005%float) ;;;
      modify (TetrisGame.set_last_fall_time 0%float)
  end.

End TetrisAI.

(** ** class TetrisAI: the move search, over the objects it allocates

    The search builds test pieces and test boards and writes into them.
    Whether it leaves the game alone depends on which list objects the
    test boards share with the board of the game, so here the lists and
    pieces are objects in a store, named by their addresses. *)

Module Search.

(** A row of a board (a list of strings), a board (a list of rows, held
    by reference) or a piece. *)
Inductive obj :=
| ORow (cells : list string)
| OBoard (rows : list nat)
| OPiece (p : Tetromino.t).

(** The [TetrisGame] object: its board and pieces are references. *)
Record game_obj := mk_game {
  width : Z;
  height : Z;
  board : nat;
  score : Z;
  level : Z;
  lines_cleared : Z;
  game_over : bool;
  paused : bool;
  current_piece : nat;
  next_piece : nat;
  fall_speed : float;
  last_fall_time : float
}.

(** The store, a new object taking the next address, and [self.game]. *)
Record state := mk_state {
  heap : list obj;
  game : game_obj
}.

Definition alloc (o : obj) : M state nat :=
  fun s => (Ok (length (heap s)), mk_state (heap s ++ [o]) (game s)).

Definition read (l : nat) : M state obj :=
  fun s =>
    match heap s !! l with
    | Some o => (Ok o, s)
    | None => (Raise TypeError, s)
    end.

Definition write (l : nat) (o : obj) : M state unit :=
  modify (fun s => mk_state (<[l := o]> (heap s)) (game s)).

Definition read_row (l : nat) : M state (list string) :=
  o <~ read l ;;
  match o with
  | ORow cells => ret cells
  | _ => lift (Raise TypeError)
  end.

Definition read_rows (l : nat) : M state (list nat) :=
  o <~ read l ;;
  match o with
  | OBoard rows => ret rows
  | _ => lift (Raise TypeError)
  end.

Definition read_piece (l : nat) : M state Tetromino.t :=
  o <~ read l ;;
  match o with
  | OPiece p => ret p
  | _ => lift (Raise TypeError)
  end.

(** [piece.field = v] *)
Definition update_piece (l : nat) (f : Tetromino.t -> Tetromino.t) : M state unit :=
  p <~ read_piece l ;;
  write l (OPiece (f p)).

(** The rows of a board, read through the references. *)
Definition load_board (bl : nat) : M state (list (list string)) :=
  rows <~ read_rows bl ;;
  comprehension rows (fun r => cells <~ read_row r ;; ret (Some cells)).

(** The game as the methods of [TetrisGame] see it. *)
Definition snapshot : M state TetrisGame.t :=
  s <~ get ;;
  let g := game s in
  b <~ load_board (board g) ;;
  cur <~ read_piece (current_piece g) ;;
  nxt <~ read_piece (next_piece g) ;;
  ret (TetrisGame.mk (width g) (height g) b (score g) (level g) (lines_cleared g)
                     (game_over g) (paused g) cur nxt (fall_speed g) (last_fall_time g)).

(** [self.game.valid_position(piece, offset_x, offset_y)] *)
Definition valid_position (pl : nat) (offset_x offset_y : Z) : M state bool :=
  g <~ snapshot ;;
  p <~ read_piece pl ;;
  lift (TetrisGame.valid_position g p offset_x offset_y).

(** [self._is_valid_on_board(piece, board, offset_x, offset_y)] *)
Definition _is_valid_on_board (pl bl : nat) (offset_x offset_y : Z) : M state bool :=
  p <~ read_piece pl ;;
  b <~ load_board bl ;;
  lift (TetrisAI._is_valid_on_board p b offset_x offset_y).

(** [self.evaluate_board(board, piece_type)] *)
Definition evaluate_board (bl : nat) (piece_type : string) : M state float :=
  b <~ load_board bl ;;
  lift (TetrisAI.evaluate_board b (Some piece_type)).

(** [[row[:] for row in board]] *)
Definition copy_board (bl : nat) : M state nat :=
  rows <~ read_rows bl ;;
  new_rows <~ comprehension rows (fun r =>
    cells <~ read_row r ;;
    l <~ alloc (ORow cells) ;;
    ret (Some l)) ;;
  alloc (OBoard new_rows).

(** [len(board)] and [len(board[0])] *)
Definition board_len (bl : nat) : M state Z :=
  rows <~ read_rows bl ;;
  ret (len rows).

Definition board_width (bl : nat) : M state Z :=
  rows <~ read_rows bl ;;
  r0 <~ lift (getitem rows 0) ;;
  cells <~ read_row r0 ;;
  ret (len cells).

(** [board[y][x] = v] *)
Definition set_cell (bl : nat) (y x : Z) (v : string) : M state unit :=
  rows <~ read_rows bl ;;
  r <~ lift (getitem rows y) ;;
  cells <~ read_row r ;;
  cells' <~ lift (setitem cells x v) ;;
  write r (ORow cells').

(** The loops that write the test piece into a test board. *)
Definition place_on (pl bl : nat) : M state unit :=
  p0 <~ read_piece pl ;;
  for_each (enumerate (Tetromino.shape p0)) (fun '(r, row) =>
    for_each (enumerate row) (fun '(c, val) =>
      if val =? 0 then ret tt
      else
        p <~ read_piece pl ;;
        let y := Tetromino.y p + r in
        p' <~ read_piece pl ;;
        let x_pos := Tetromino.x p' + c in
        n <~ (if 0 <=? y then board_len bl else ret 0) ;;
        if (0 <=? y) && (y <? n) then
          w <~ (if 0 <=? x_pos then board_width bl else ret 0) ;;
          if (0 <=? x_pos) && (x_pos <? w) then
            p'' <~ read_piece pl ;;
            set_cell bl y x_pos (Tetromino.color p'')
          else ret tt
        else ret tt)).

Definition _clear_lines_from_board (bl : nat) : M state nat :=
  rows <~ read_rows bl ;;
  new_rows <~ comprehension rows (fun r =>
    cells <~ read_row r ;;
    if negb (forallb (fun cell => str_ne cell " ") cells) then
      cells' <~ read_row r ;;
      l <~ alloc (ORow cells') ;;
      ret (Some l)
    else ret None) ;;
  new_board <~ alloc (OBoard new_rows) ;;
  n <~ board_len bl ;;
  let lines_cleared := n - len new_rows in
  for_each (range lines_cleared) (fun _ =>
    w <~ board_width bl ;;
    e <~ alloc (ORow (TetrisGame.empty_row w)) ;;
    rs <~ read_rows new_board ;;
    write new_board (OBoard (e :: rs))) ;;;
  ret new_board.

(** [test_piece = Tetromino(type)] and the three assignments after it. *)
Definition new_test_piece (shape_type : string) (rotation : Z) : M state nat :=
  p <~ lift (Tetromino.init shape_type) ;;
  pl <~ alloc (OPiece p) ;;
  update_piece pl (Tetromino.set_rotation rotation) ;;;
  p' <~ read_piece pl ;;
  sh <~ lift (getitem (Tetromino.shapes p') rotation) ;;
  update_piece pl (Tetromino.set_shape sh) ;;;
  update_piece pl (Tetromino.set_y 0) ;;;
  ret pl.

(** [while valid(test_piece, offset_y=1): test_piece.y += 1], for at most
    [fuel] iterations. *)
Fixpoint drop (fuel : nat) (valid : M state bool) (pl : nat) : M state unit :=
  match fuel with
  | O => lift (Raise OutOfFuel)
  | S fuel' =>
      ok <~ valid ;;
      if ok then
        update_piece pl (fun p => Tetromino.set_y (Tetromino.y p + 1) p) ;;;
        drop fuel' valid pl
      else ret tt
  end.

(** The body of the [x2] loop: one placement of the next piece on
    [test_board1]. *)
Definition try_next (fuel : nat) (next_piece test_piece2 test_board1 : nat)
           (best_next_score : float) (x2 : Z) : M state float :=
  update_piece test_piece2 (Tetromino.set_x x2) ;;;
  ok <~ _is_valid_on_board test_piece2 test_board1 0 0 ;;
  if negb ok then ret best_next_score
  else
    update_piece test_piece2 (Tetromino.set_y 0) ;;;
    drop fuel (_is_valid_on_board test_piece2 test_board1 0 1) test_piece2 ;;;
    ok' <~ _is_valid_on_board test_piece2 test_board1 0 0 ;;
    if negb ok' then ret best_next_score
    else
      test_board2 <~ copy_board test_board1 ;;
      place_on test_piece2 test_board2 ;;;
      test_board2' <~ _clear_lines_from_board test_board2 ;;
      np <~ read_piece next_piece ;;
      next_score <~ evaluate_board test_board2' (Tetromino.type np) ;;
      ret (fmax best_next_score next_score).

(** The two loops over the placements of the next piece. *)
Definition best_next (fuel : nat) (next_piece test_board1 : nat) : M state float :=
  np <~ read_piece next_piece ;;
  let num_rotations2 := len (Tetromino.shapes np) in
  for_accM (range num_rotations2) PrimFloat.neg_infinity (fun best_next_score rotation2 =>
    np' <~ read_piece next_piece ;;
    test_piece2 <~ new_test_piece (Tetromino.type np') rotation2 ;;
    w <~ board_width test_board1 ;;
    for_accM (range2 (-2) (w + 2)) best_next_score
             (try_next fuel next_piece test_piece2 test_board1)).

(** The part of the body of the [x] loop that the two searches share:
    [None] when the placement is skipped, the test board with the piece
    placed and the lines cleared otherwise. *)
Definition try_place (fuel : nat) (test_piece : nat) (x : Z) : M state (option nat) :=
  update_piece test_piece (Tetromino.set_x x) ;;;
  ok <~ valid_position test_piece 0 0 ;;
  if negb ok then ret None
  else
    update_piece test_piece (Tetromino.set_y 0) ;;;
    drop fuel (valid_position test_piece 0 1) test_piece ;;;
    ok' <~ valid_position test_piece 0 0 ;;
    if negb ok' then ret None
    else
      s <~ get ;;
      test_board1 <~ copy_board (board (game s)) ;;
      place_on test_piece test_board1 ;;;
      test_board1' <~ _clear_lines_from_board test_board1 ;;
      ret (Some test_board1').

(** The body of the [x] loop of the two-piece search. *)
Definition try_current (fuel : nat) (current_piece next_piece test_piece : nat)
           (rotation : Z) (best : float * option (Z * Z)) (x : Z)
  : M state (float * option (Z * Z)) :=
  placed <~ try_place fuel test_piece x ;;
  match placed with
  | None => ret best
  | Some test_board1 =>
      cp <~ read_piece current_piece ;;
      current_score <~ evaluate_board test_board1 (Tetromino.type cp) ;;
      best_next_score <~ best_next fuel next_piece test_board1 ;;
      let combined_score :=
        if PrimFloat.eqb best_next_score PrimFloat.neg_infinity then current_score
        else (0.6 * current_score + 0.4 * best_next_score)%float in
      if PrimFloat.ltb (fst best) combined_score
      then ret (combined_score, Some (rotation, x))
      else ret best
  end.

Definition _get_best_move_with_2piece_lookahead (fuel : nat) : M state (option (Z * Z)) :=
  s <~ get ;;
  let current_piece := current_piece (game s) in
  let next_piece := next_piece (game s) in
  cp <~ read_piece current_piece ;;
  let num_rotations := len (Tetromino.shapes cp) in
  best <~ for_accM (range num_rotations) (PrimFloat.neg_infinity, None)
    (fun best rotation =>
       cp' <~ read_piece current_piece ;;
       test_piece <~ new_test_piece (Tetromino.type cp') rotation ;;
       s' <~ get ;;
       for_accM (range2 (-2) (width (game s') + 2)) best
                (try_current fuel current_piece next_piece test_piece rotation)) ;;
  ret (snd best).

(** The body of the [x] loop of the search without lookahead. *)
Definition try_simple (fuel : nat) (piece test_piece : nat) (rotation : Z)
           (best : float * option (Z * Z)) (x : Z) : M state (float * option (Z * Z)) :=
  placed <~ try_place fuel test_piece x ;;
  match placed with
  | None => ret best
  | Some test_board =>
      p <~ read_piece piece ;;
      score <~ evaluate_board test_board (Tetromino.type p) ;;
      if PrimFloat.ltb (fst best) score
      then ret (score, Some (rotation, x))
      else ret best
  end.

Definition _get_best_move_simple (fuel : nat) (piece : nat) : M state (option (Z * Z)) :=
  p <~ read_piece piece ;;
  let num_rotations := len (Tetromino.shapes p) in
  best <~ for_accM (range num_rotations) (PrimFloat.neg_infinity, None)
    (fun best rotation =>
       p' <~ read_piece piece ;;
       test_piece <~ new_test_piece (Tetromino.type p') rotation ;;
       s' <~ get ;;
       for_accM (range2 (-2) (width (game s') + 2)) best
                (try_simple fuel piece test_piece rotation)) ;;
  ret (snd best).

Definition get_best_move (fuel : nat) (use_lookahead : bool) : M state (option (Z * Z)) :=
  s <~ get ;;
  let current_piece := current_piece (game s) in
  if use_lookahead then _get_best_move_with_2piece_lookahead fuel
  else _get_best_move_simple fuel current_piece.

End Search.

(** ** Notions used in the statements *)

(** The grid of a game has [height] rows of [width] cells. *)
Definition board_ok (g : TetrisGame.t) : Prop :=
  len (TetrisGame.board g) = TetrisGame.height g /\
  Forall (fun row => len row = TetrisGame.width g) (TetrisGame.board g).

(** The rows of a grid in which every cell is occupied, and the others,
    each in the order of the grid. *)
Definition full_rows (b : list (list string)) : list (list string) :=
  List.filter TetrisGame.row_full b.
Definition kept_rows (b : list (list string)) : list (list string) :=
  List.filter (fun row => negb (TetrisGame.row_full row)) b.

(** The indices, counted from [i], of the full rows of a grid. *)
Fixpoint full_indices (i : Z) (b : list (list string)) : list Z :=
  match b with
  | [] => []
  | row :: b' =>
      if TetrisGame.row_full row then i :: full_indices (i + 1) b'
      else full_indices (i + 1) b'
  end.

(** The grid after the full rows are removed and as many empty rows are
    put on top. *)
Definition cleared_board (w : Z) (b : list (list string)) : list (list string) :=
  repeat (TetrisGame.empty_row w) (length (full_rows b)) ++ kept_rows b.

(** The scoring table. *)
Definition line_points (n : Z) : Z :=
  if n =? 1 then 100 else if n =? 2 then 300 else if n =? 3 then 500
  else if n =? 4 then 800 else 0.

(** The game after [clear_lines] removed [n > 0] rows. *)
Definition scored (n : Z) (g : TetrisGame.t) : TetrisGame.t :=
  let total := TetrisGame.lines_cleared g + n in
  TetrisGame.set_fall_speed (TetrisGame.speed_of_level (total / 10 + 1))
    (TetrisGame.set_level (total / 10 + 1)
      (TetrisGame.set_lines_cleared total
        (TetrisGame.set_score
           (TetrisGame.score g + line_points n * TetrisGame.level g) g))).

(** ** Concrete pieces, grids and games for the examples *)

(** The piece of kind [shape_type] in rotation state [r], anchored at
    column [px] and row [py]; the [O] piece when the kind or the state
    does not exist. *)
Definition piece_at (shape_type : string) (r : Z) (px py : Z) : Tetromino.t :=
  match dict_get SHAPES shape_type with
  | Ok shs =>
      match getitem shs r with
      | Ok sh => Tetromino.mk shape_type shs r sh GREEN px py
      | Raise _ => Tetromino.mk "O" [[[1; 1]; [1; 1]]] 0 [[1; 1]; [1; 1]] GREEN px py
      end
  | Raise _ => Tetromino.mk "O" [[[1; 1]; [1; 1]]] 0 [[1; 1]; [1; 1]] GREEN px py
  end.

(** A row written as a string: a blank is an empty cell, any other
    character a cell occupied by a piece. *)
Fixpoint row_of_string (s : string) : list string :=
  match s with
  | EmptyString => []
  | String a s' =>
      (if Ascii.eqb a " "%char then " "%string else GREEN) :: row_of_string s'
  end.

Definition grid_of_strings (rows : list string) : list (list string) :=
  map row_of_string rows.

(** A game in progress on a given grid: level 1, nothing scored. *)
Definition game_on (rows : list string) (cur nxt : Tetromino.t) : TetrisGame.t :=
  let b := grid_of_strings rows in
  TetrisGame.mk (match b with row :: _ => len row | [] => 0 end) (len b) b
                0 1 0 false false cur nxt 0.8%float 0%float.

(** The cells a piece would occupy when moved by an offset. *)
Definition cells_at (p : Tetromino.t) (offset_x offset_y : Z) : list (Z * Z) :=
  map (fun '(r, c) => (r + offset_y, c + offset_x)) (Tetromino.get_cells p).

(** The cell in row [cy], column [cx] of a grid exists and is not empty. *)
Definition occupied (b : list (list string)) (cy cx : Z) : bool :=
  match b !! Z.to_nat cy with
  | Some row =>
      match row !! Z.to_nat cx with
      | Some cell => str_ne cell " "
      | None => false
      end
  | None => false
  end.

(** A cell that makes a position illegal: outside the side walls, below
    the floor, or on an occupied cell of a row of the grid. *)
Definition blocked (g : TetrisGame.t) (cell : Z * Z) : bool :=
  let '(cy, cx) := cell in
  (cx <? 0) || (cx >=? TetrisGame.width g) || (cy >=? TetrisGame.height g)
  || ((0 <=? cy) && occupied (TetrisGame.board g) cy cx).



(** A grid of four columns and six rows with two full rows, one row
    between them. *)
Definition two_full_rows : TetrisGame.t :=
  game_on ["    "; " X  "; "XXXX"; "X XX"; "XXXX"; "XX X"]%string
          (piece_at "O" 0 1 (-2)) (piece_at "I" 0 0 (-2)).

(** The grid with the cell [(cy, cx)] set to [v], when the cell lies on a
    grid of [h] rows of [w] cells. *)
Definition paint (w h : Z) (v : string) (b : list (list string)) (cell : Z * Z)
  : list (list string) :=
  let '(cy, cx) := cell in
  if (0 <=? cy) && (cy <? h) && (0 <=? cx) && (cx <? w) then
    match b !! Z.to_nat cy with
    | Some row => <[Z.to_nat cy := <[Z.to_nat cx := v]> row]> b
    | None => b
    end
  else b.

(** The grid with the current piece written into it. *)
Definition placed_board (g : TetrisGame.t) : list (list string) :=
  fold_left (paint (TetrisGame.width g) (TetrisGame.height g)
                   (Tetromino.color (TetrisGame.current_piece g)))
            (Tetromino.get_cells (TetrisGame.current_piece g))
            (TetrisGame.board g).

(** A position is legal when no cell of the moved piece is blocked. *)
Definition legal (g : TetrisGame.t) (p : Tetromino.t) (offset_x offset_y : Z) : bool :=
  negb (existsb (blocked g) (cells_at p offset_x offset_y)).

(** The rotation index of a piece is an index of its rotation states and
    its shape is the state at that index. *)
Definition piece_ok (p : Tetromino.t) : Prop :=
  0 <= Tetromino.rotation p < len (Tetromino.shapes p) /\
  Tetromino.shapes p !! Z.to_nat (Tetromino.rotation p) = Some (Tetromino.shape p).

(** A piece of the catalog. *)
Definition catalog_piece (p : Tetromino.t) : Prop :=
  dict_get SHAPES (Tetromino.type p) = Ok (Tetromino.shapes p) /\ piece_ok p.

(** The piece turned to its next rotation state, cyclically. *)
Definition rotated (p : Tetromino.t) : Tetromino.t :=
  let r := (Tetromino.rotation p + 1) mod len (Tetromino.shapes p) in
  Tetromino.set_shape (nth (Z.to_nat r) (Tetromino.shapes p) (Tetromino.shape p))
                      (Tetromino.set_rotation r p).

(** The piece moved by [(dx, dy)]. *)
Definition shifted (dx dy : Z) (p : Tetromino.t) : Tetromino.t :=
  Tetromino.set_y (Tetromino.y p + dy) (Tetromino.set_x (Tetromino.x p + dx) p).

(** The game after [clear_lines] returned. *)
Definition cleared_game (g : TetrisGame.t) : TetrisGame.t :=
  let n := len (full_rows (TetrisGame.board g)) in
  let g1 := TetrisGame.set_board
              (cleared_board (TetrisGame.width g) (TetrisGame.board g)) g in
  if n =? 0 then g1 else scored n g1.

(** The operations the main loop applies to a game. *)
Inductive command :=
| MoveLeft
| MoveRight
| MoveDown
| Rotate
| HardDrop (fuel : nat) (shape_type : string) (now : float)
| LockPiece (shape_type : string) (now : float)
| Update (current_time : float) (shape_type : string) (lock_time : float)
| SetPaused (v : bool)
| SetFallSpeed (v : float)
| SetLastFallTime (v : float)
| ExecuteMove (fuel : nat) (move : option (Z * Z)).

(** [random.choice] draws a key of [SHAPES]. *)
Definition command_ok (c : command) : Prop :=
  match c with
  | HardDrop _ shape_type _ | LockPiece shape_type _ | Update _ shape_type _ =>
      In shape_type (dict_keys SHAPES)
  | _ => True
  end.

Definition run (c : command) : M TetrisGame.t unit :=
  match c with
  | MoveLeft => TetrisGame.move_left
  | MoveRight => TetrisGame.move_right
  | MoveDown => _ <~ TetrisGame.move_down ;; ret tt
  | Rotate => TetrisGame.rotate
  | HardDrop fuel shape_type now => TetrisGame.hard_drop fuel shape_type now
  | LockPiece shape_type now => TetrisGame.lock_piece shape_type now
  | Update current_time shape_type lock_time =>
      TetrisGame.update current_time shape_type lock_time
  | SetPaused v => modify (TetrisGame.set_paused v)
  | SetFallSpeed v => modify (TetrisGame.set_fall_speed v)
  | SetLastFallTime v => modify (TetrisGame.set_last_fall_time v)
  | ExecuteMove fuel move => TetrisAI.execute_move fuel move
  end.

(** The games a session can be in: a new game, then any sequence of
    operations, each leaving the game as it is when the operation ends,
    normally or not. *)
Inductive reachable : TetrisGame.t -> Prop :=
| reachable_init (w h : Z) (choice1 choice2 : string) (now : float) (g : TetrisGame.t) :
    In choice1 (dict_keys SHAPES) -> In choice2 (dict_keys SHAPES) ->
    TetrisGame.init w h choice1 choice2 now = Ok g -> reachable g
| reachable_step (g : TetrisGame.t) (c : command) :
    reachable g -> command_ok c -> reachable (snd (run c g)).

(** What holds of every reachable game: the grid has the right
    dimensions, at least four columns and four rows and no full row, and
    both pieces are pieces of the catalog. *)
Definition game_inv (g : TetrisGame.t) : Prop :=
  board_ok g /\
  (4 <= TetrisGame.width g /\ 4 <= TetrisGame.height g) /\
  Forall (fun row => TetrisGame.row_full row = false) (TetrisGame.board g) /\
  catalog_piece (TetrisGame.current_piece g) /\
  catalog_piece (TetrisGame.next_piece g).

(** One cell of the current piece, as the body of the inner loop of
    [place_piece] writes it. *)
Definition paint_step (g : TetrisGame.t) (cell : Z * Z) : TetrisGame.t :=
  TetrisGame.set_board
    (paint (TetrisGame.width g) (TetrisGame.height g)
           (Tetromino.color (TetrisGame.current_piece g))
           (TetrisGame.board g) cell) g.

(** The game when [lock_piece] reaches its final test: the piece is
    written, the full rows are cleared and scored, the next piece is
    promoted, [nxt] is the new next piece and the fall timer is reset. *)
Definition locked_game (nxt : Tetromino.t) (now : float) (g : TetrisGame.t)
  : TetrisGame.t :=
  let gc := cleared_game (TetrisGame.set_board (placed_board g) g) in
  TetrisGame.set_last_fall_time now
    (TetrisGame.set_next_piece nxt
       (TetrisGame.set_current_piece (TetrisGame.next_piece g) gc)).

(** A method keeps the invariant of reachable games, however it ends. *)
Definition preserves {A} (c : M TetrisGame.t A) : Prop :=
  forall g, game_inv g -> game_inv (snd (c g)).

(** The game after a sequence of operations. *)
Definition run_all (cs : list command) (g : TetrisGame.t) : TetrisGame.t :=
  fold_left (fun g c => snd (run c g)) cs g.

(** A new game on the empty grid of ten columns and twenty rows whose
    first piece is the [I] piece, created at time 0. *)
Definition new_game_I : TetrisGame.t :=
  Eval vm_compute in
  match TetrisGame.init 10 20 "I" "O" 0%float with
  | Ok g => g
  | Raise _ => game_on [] (piece_at "I" 0 0 0) (piece_at "O" 0 0 0)
  end.

(** That game after the [I] piece moved down twenty-one times: the piece
    lies flat in the bottom row. *)
Definition stuck_game : TetrisGame.t :=
  Eval vm_compute in run_all (repeat MoveDown 21) new_game_I.

(** The [T] piece, pointing down in columns 0 to 2 of the rows 3 and 4 of
    a grid of four columns, over a bottom row occupied in columns 0 and 1:
    the next rotation state does not fit in place, nor one column to the
    left, and fits one column to the right. *)
Definition kick_game : TetrisGame.t :=
  game_on ["    "; "    "; "    "; "    "; "    "; "XX  "]%string
          (piece_at "T" 2 0 3) (piece_at "O" 0 1 (-2)).

(** A grid of four columns whose four lower rows lack only the cell of
    column 1, with the upright [I] piece standing in that column. *)
Definition four_rows_game : TetrisGame.t :=
  game_on ["    "; "    "; "X XX"; "X XX"; "X XX"; "X XX"]%string
          (piece_at "I" 1 1 2) (piece_at "O" 0 1 (-2)).

(** ** Notions used in the statements about the evaluator *)

(** Every row of the grid has [w] cells. *)
Definition rect (w : Z) (b : list (list string)) : Prop :=
  Forall (fun row => len row = w) b.

(** The cell of a row in column [c] exists and is occupied. *)
Definition cell_filled (row : list string) (c : nat) : bool :=
  match row !! c with
  | Some cell => str_ne cell " "
  | None => false
  end.

(** The height of column [c]: the number of rows from the highest
    occupied cell of the column down to the floor, 0 for an empty column. *)
Fixpoint column_height_of (b : list (list string)) (c : nat) : Z :=
  match b with
  | [] => 0
  | row :: b' => if cell_filled row c then len b else column_height_of b' c
  end.

Definition column_heights_of (w : Z) (b : list (list string)) : list Z :=
  map (column_height_of b) (seq 0 (Z.to_nat w)).

Definition max_column_height (w : Z) (b : list (list string)) : Z :=
  fold_left Z.max (column_heights_of w b) 0.

(** A computation that raises nothing. *)
Definition returns {A} (c : res A) : Prop := exists a, c = Ok a.

(** A grid of four columns and eight rows: column 0 holds one block, on
    the floor, column 1 is four blocks tall and has no hole either, and
    the columns 2 and 3 are empty. *)
Definition well_board : list (list string) :=
  grid_of_strings ["    "; "    "; "    "; "    "; " X  "; " X  "; " X  "; "XX  "]%string.

(** The comparison of [evaluate_board], [max_height > board_height * 0.6]
    in binary64, agrees with the comparison of [5 * max_height] and
    [3 * board_height] in the integers for all heights up to [N] rows. *)
Definition danger_table (N : Z) : bool :=
  forallb (fun h =>
    forallb (fun m =>
      Bool.eqb (PrimFloat.ltb (PrimFloat.mul (to_float h) 0.6%float) (to_float m))
               (3 * h <? 5 * m))
      (range (h + 1)))
    (range (N + 1)).

(** ** The move search: stores, and the search as the specification words it *)

(** The objects of a game in a store: the rows of its board at the
    addresses 0, 1, ..., then the board, the current and the next piece. *)
Definition store_of (g : TetrisGame.t) : Search.state :=
  let rows := map Search.ORow (TetrisGame.board g) in
  let n := length rows in
  Search.mk_state
    (rows ++ [Search.OBoard (seq 0 n);
              Search.OPiece (TetrisGame.current_piece g);
              Search.OPiece (TetrisGame.next_piece g)])
    (Search.mk_game (TetrisGame.width g) (TetrisGame.height g) n
       (TetrisGame.score g) (TetrisGame.level g) (TetrisGame.lines_cleared g)
       (TetrisGame.game_over g) (TetrisGame.paused g) (S n) (S (S n))
       (TetrisGame.fall_speed g) (TetrisGame.last_fall_time g)).

(** The game a store holds, when its references lead to objects of the
    right classes. *)
Definition game_of (s : Search.state) : option TetrisGame.t :=
  match fst (Search.snapshot s) with
  | Ok g => Some g
  | Raise _ => None
  end.

(** The search of section 4.4 of the specification, on values: a fresh
    piece per candidate, tested at row 0, dropped, committed to a scratch
    copy of the board, lines cleared, scored. *)
Fixpoint spec_rest (fuel : nat) (g : TetrisGame.t) (p : Tetromino.t) : Tetromino.t :=
  match fuel with
  | O => p
  | S fuel' => if legal g p 0 1 then spec_rest fuel' g (shifted 0 1 p) else p
  end.

(** The scratch board after the piece [p] is committed at its resting
    row and the full rows are cleared; [None] for a skipped candidate. *)
Definition spec_commit (g : TetrisGame.t) (shape_type : string) (r x : Z)
  : option (list (list string)) :=
  let p := piece_at shape_type r x 0 in
  if legal g p 0 0 then
    let q := spec_rest (Z.to_nat (TetrisGame.height g)) g p in
    if legal g q 0 0 then
      Some (cleared_board (TetrisGame.width g)
              (placed_board (TetrisGame.set_current_piece q g)))
    else None
  else None.

Definition spec_score (b : list (list string)) (shape_type : string) : float :=
  match TetrisAI.evaluate_board b (Some shape_type) with
  | Ok v => v
  | Raise _ => PrimFloat.neg_infinity
  end.

(** All (rotation, column) candidates of a piece kind, in the order of the
    double loop. *)
Definition spec_candidates (g : TetrisGame.t) (shape_type : string) : list (Z * Z) :=
  flat_map (fun r => map (fun x => (r, x)) (range2 (-2) (TetrisGame.width g + 2)))
           (range (match dict_get SHAPES shape_type with
                   | Ok shs => len shs
                   | Raise _ => 0
                   end)).

(** The best score of the next piece on the scratch board [b1]; minus
    infinity when it has no legal placement. *)
Definition spec_best_next (g : TetrisGame.t) (b1 : list (list string)) : float :=
  let g1 := TetrisGame.set_board b1 g in
  let next_type := Tetromino.type (TetrisGame.next_piece g) in
  fold_left (fun best '(r, x) =>
      match spec_commit g1 next_type r x with
      | Some b2 => fmax best (spec_score b2 next_type)
      | None => best
      end)
    (spec_candidates g1 next_type) PrimFloat.neg_infinity.

Definition spec_combined (g : TetrisGame.t) (b1 : list (list string)) : float :=
  let ply1 := spec_score b1 (Tetromino.type (TetrisGame.current_piece g)) in
  let ply2 := spec_best_next g b1 in
  if PrimFloat.eqb ply2 PrimFloat.neg_infinity then ply1
  else (0.6 * ply1 + 0.4 * ply2)%float.

Definition spec_best_move (g : TetrisGame.t) : option (Z * Z) :=
  let cur_type := Tetromino.type (TetrisGame.current_piece g) in
  snd (fold_left (fun best '(r, x) =>
      match spec_commit g cur_type r x with
      | Some b1 =>
          let combined := spec_combined g b1 in
          if PrimFloat.ltb (fst best) combined then (combined, Some (r, x)) else best
      | None => best
      end)
    (spec_candidates g cur_type) (PrimFloat.neg_infinity, None)).

(** A grid of four columns and twelve rows with column heights 0, 2, 3
    and 3, the [O] piece falling and the [O] piece next. *)
Definition uneven_game : TetrisGame.t :=
  game_on ["    "; "    "; "    "; "    "; "    "; "    "; "    "; "    "; "    ";
           "  XX"; " XXX"; " XXX"]%string
          (piece_at "O" 0 1 (-2)) (piece_at "O" 0 1 (-2)).

(** ** Assertions on stores *)

Definition is_piece (s : Search.state) (l : nat) (p : Tetromino.t) : Prop :=
  Search.heap s !! l = Some (Search.OPiece p).

Definition is_row (s : Search.state) (r : nat) (cells : list string) : Prop :=
  Search.heap s !! r = Some (Search.ORow cells).

(** The address [bl] holds a board whose rows, read through their
    references, are the grid [b]. *)
Definition is_board (s : Search.state) (bl : nat) (b : list (list string)) : Prop :=
  exists rows,
    Search.heap s !! bl = Some (Search.OBoard rows) /\ Forall2 (is_row s) rows b.

(** A board all of whose rows are distinct objects at addresses from [n]
    on. *)
Definition scratch (n : nat) (s : Search.state) (bl : nat) (b : list (list string))
  : Prop :=
  exists rows,
    Search.heap s !! bl = Some (Search.OBoard rows) /\ Forall2 (is_row s) rows b /\
    Forall (fun r => (n <= r)%nat) rows /\ NoDup rows.

(** [s'] has the game object and every object of [s] unchanged, and
    possibly more objects. *)
Definition ext (s s' : Search.state) : Prop :=
  Search.game s' = Search.game s /\ Search.heap s `prefix_of` Search.heap s'.

(** The store [s] holds the game [g]. *)
Definition represents (s : Search.state) (g : TetrisGame.t) : Prop :=
  is_board s (Search.board (Search.game s)) (TetrisGame.board g) /\
  is_piece s (Search.current_piece (Search.game s)) (TetrisGame.current_piece g) /\
  is_piece s (Search.next_piece (Search.game s)) (TetrisGame.next_piece g) /\
  g = TetrisGame.mk (Search.width (Search.game s)) (Search.height (Search.game s))
        (TetrisGame.board g) (Search.score (Search.game s))
        (Search.level (Search.game s)) (Search.lines_cleared (Search.game s))
        (Search.game_over (Search.game s)) (Search.paused (Search.game s))
        (TetrisGame.current_piece g) (TetrisGame.next_piece g)
        (Search.fall_speed (Search.game s)) (Search.last_fall_time (Search.game s)).

(** A grid as a game, for the legality of a piece on a test board. *)
Definition on_board (w : Z) (b : list (list string)) : TetrisGame.t :=
  TetrisGame.mk w (len b) b 0 1 0 false false
                (piece_at "O" 0 0 0) (piece_at "O" 0 0 0) 0%float 0%float.

(** A rotation state has an occupied cell. *)
Definition has_cell (sh : grid) : bool :=
  existsb (fun '(_, row) => existsb (fun '(_, val) => negb (val =? 0)) (enumerate row))
          (enumerate sh).

(** [s'] differs from [s] at most in objects at addresses from [n] on,
    and has no more objects. *)
Definition pres (n : nat) (s s' : Search.state) : Prop :=
  Search.game s' = Search.game s /\
  length (Search.heap s') = length (Search.heap s) /\
  forall l, (l < n)%nat -> Search.heap s' !! l = Search.heap s !! l.

(** ** Notions used in the statements about the move search *)

(** The piece [q] put at column [px] and row [py]. *)
Definition moved_to (px py : Z) (q : Tetromino.t) : Tetromino.t :=
  Tetromino.set_y py (Tetromino.set_x px q).

(** A move names a rotation state of the current piece and a column of
    the candidate range at which the piece, in that state, has a row
    where it is legal and from which it cannot move down. *)
Definition resting_move (g : TetrisGame.t) (mv : option (Z * Z)) : Prop :=
  match mv with
  | None => True
  | Some (r, x) =>
      0 <= r < len (Tetromino.shapes (TetrisGame.current_piece g)) /\
      -2 <= x < TetrisGame.width g + 2 /\
      exists q,
        catalog_piece q /\
        Tetromino.type q = Tetromino.type (TetrisGame.current_piece g) /\
        Tetromino.rotation q = r /\ Tetromino.x q = x /\
        legal g q 0 0 = true /\ legal g q 0 1 = false
  end.

(** ** Notions used in the statements about pieces and sessions *)

(** The piece turned by [d] rotation states, cyclically. *)
Definition turned (d : Z) (p : Tetromino.t) : Tetromino.t :=
  let r := (Tetromino.rotation p + d) mod len (Tetromino.shapes p) in
  Tetromino.set_shape (nth (Z.to_nat r) (Tetromino.shapes p) (Tetromino.shape p))
                      (Tetromino.set_rotation r p).

(** [k] calls of a method in a row. *)
Fixpoint calls {S} (k : nat) (c : M S unit) : M S unit :=
  match k with
  | O => ret tt
  | S k' => c ;;; calls k' c
  end.

(** A piece as [spawn_piece] returns it on a grid of [w] columns. *)
Definition at_spawn (w : Z) (p : Tetromino.t) : Prop :=
  exists shape_type,
    In shape_type (dict_keys SHAPES) /\ TetrisGame.spawn_piece w shape_type = Ok p.

(** What holds of every game of a session besides [game_inv]: the current
    piece is where it may be, the next piece is as it was spawned, the
    game-over flag is not set, and the level follows the line count. *)
Definition session_inv (g : TetrisGame.t) : Prop :=
  game_inv g /\
  legal g (TetrisGame.current_piece g) 0 0 = true /\
  at_spawn (TetrisGame.width g) (TetrisGame.next_piece g) /\
  TetrisGame.game_over g = false /\
  TetrisGame.level g = TetrisGame.lines_cleared g / 10 + 1 /\
  0 <= TetrisGame.lines_cleared g /\
  0 <= TetrisGame.score g.

(** The cell of a grid in row [r] and column [c], if there is one. *)
Definition cell (b : list (list string)) (r c : Z) : option string :=
  if (0 <=? r) && (0 <=? c) then
    match b !! Z.to_nat r with
    | Some row => row !! Z.to_nat c
    | None => None
    end
  else None.

(** Every rotation state of the catalog has four occupied cells, all
    different, within its first four rows and columns. *)
Definition four_cells (sh : grid) : Prop :=
  length (Tetromino.cells_of sh 0 0) = 4%nat /\
  NoDup (Tetromino.cells_of sh 0 0) /\
  Forall (fun '(r, c) => 0 <= r < 4 /\ 0 <= c < 4) (Tetromino.cells_of sh 0 0).


(** A rotation state as a piece is spawned in: at most two rows, in the
    first columns up to the length of its first row, four at most. *)
Definition spawn_shape (sh : grid) : Prop :=
  match sh with
  | row0 :: _ =>
      len row0 <= 4 /\
      Forall (fun '(r, c) => 0 <= r < 2 /\ 0 <= c < len row0) (Tetromino.cells_of sh 0 0)
  | [] => False
  end.

(** A method keeps a property of the game, however it ends. *)
Definition keeps (I : TetrisGame.t -> Prop) {A} (c : M TetrisGame.t A) : Prop :=
  forall g, I g -> I (snd (c g)).


(** The cell [(r, c)] is one of the cells of a list. *)
Definition hits (cells : list (Z * Z)) (r c : Z) : bool :=
  existsb (fun '(cy, cx) => (r =? cy) && (c =? cx)) cells.

(** The piece [q] is of the kind of [p]: same type, rotation states and
    colour. *)
Definition same_kind (p q : Tetromino.t) : Prop :=
  Tetromino.type q = Tetromino.type p /\
  Tetromino.shapes q = Tetromino.shapes p /\
  Tetromino.color q = Tetromino.color p.

(** The game [g'] differs from [g] at most in the rotation state and
    the position of the current piece, in the fall speed and in the fall
    timer. *)
Definition piece_only (g g' : TetrisGame.t) : Prop :=
  TetrisGame.width g' = TetrisGame.width g /\
  TetrisGame.height g' = TetrisGame.height g /\
  TetrisGame.board g' = TetrisGame.board g /\
  TetrisGame.score g' = TetrisGame.score g /\
  TetrisGame.level g' = TetrisGame.level g /\
  TetrisGame.lines_cleared g' = TetrisGame.lines_cleared g /\
  TetrisGame.game_over g' = TetrisGame.game_over g /\
  TetrisGame.paused g' = TetrisGame.paused g /\
  TetrisGame.next_piece g' = TetrisGame.next_piece g /\
  same_kind (TetrisGame.current_piece g) (TetrisGame.current_piece g').

(** The operations that steer the current piece. *)
Definition piece_command (c : command) : Prop :=
  match c with
  | MoveLeft | MoveRight | MoveDown | Rotate | ExecuteMove _ _ => True
  | _ => False
  end.

(** The number of occupied cells of column [c], and the holes of the
    column: the empty cells below its highest occupied cell. *)
Fixpoint filled_in_column (b : list (list string)) (c : nat) : Z :=
  match b with
  | [] => 0
  | row :: b' => (if cell_filled row c then 1 else 0) + filled_in_column b' c
  end.

Definition column_holes_of (b : list (list string)) (c : nat) : Z :=
  column_height_of b c - filled_in_column b c.

(** The values [_evaluate_tetris_readiness] can return. *)
Definition readiness_value (v : float) : Prop :=
  v = 0%float \/ v = 5%float \/ v = 15%float \/ v = 50%float.
(** * Properties *)

(** ** Python lists *)

Lemma index_of_nat {A} (l : list A) (k : nat) :
  (k < length l)%nat -> index_of l (Z.of_nat k) = Some k.
Proof.
  intros Hk. unfold index_of.
  destruct (Z.ltb_spec (Z.of_nat k) 0) as [Hn|_]; [lia|].
  destruct (Z.leb_spec 0 (Z.of_nat k)) as [_|Hn]; [|lia].
  destruct (Z.ltb_spec (Z.of_nat k) (Z.of_nat (length l))) as [_|Hn]; [|lia].
  simpl. f_equal. lia.
Qed.

Lemma index_of_nonneg {A} (l : list A) (i : Z) :
  0 <= i < len l -> index_of l i = Some (Z.to_nat i).
Proof.
  intros Hi. unfold len in Hi.
  rewrite <- (Z2Nat.id i) at 1 by lia.
  apply index_of_nat. lia.
Qed.

Lemma index_of_past {A} (l : list A) (i : Z) :
  len l <= i -> index_of l i = None.
Proof.
  intros Hi. unfold len in Hi. unfold index_of.
  destruct (Z.ltb_spec i 0) as [Hn|_]; [lia|].
  destruct (Z.ltb_spec i (Z.of_nat (length l))) as [Hn|_]; [lia|].
  now rewrite andb_false_r.
Qed.

Lemma getitem_nat {A} (l : list A) (k : nat) (a : A) :
  l !! k = Some a -> getitem l (Z.of_nat k) = Ok a.
Proof.
  intros Hl. unfold getitem.
  rewrite index_of_nat by (eapply lookup_lt_Some; eauto).
  now rewrite Hl.
Qed.

Lemma getitem_nonneg {A} (l : list A) (i : Z) (a : A) :
  0 <= i -> l !! Z.to_nat i = Some a -> getitem l i = Ok a.
Proof.
  intros Hi Hl. rewrite <- (Z2Nat.id i) by lia. now apply getitem_nat.
Qed.

Lemma getitem_in_range {A} (l : list A) (i : Z) :
  0 <= i < len l -> exists a, l !! Z.to_nat i = Some a /\ getitem l i = Ok a.
Proof.
  intros Hi. unfold len in Hi.
  destruct (lookup_lt_is_Some_2 l (Z.to_nat i)) as [a Ha]; [lia|].
  exists a. split; [assumption|]. apply getitem_nonneg; [lia|assumption].
Qed.

Lemma getitem_past {A} (l : list A) (i : Z) :
  len l <= i -> getitem l i = Raise IndexError.
Proof. intros Hi. unfold getitem. now rewrite index_of_past. Qed.

Lemma delitem_middle {A} (pre suf : list A) (a : A) :
  delitem (pre ++ a :: suf) (len pre) = Ok (pre ++ suf).
Proof.
  unfold delitem, len. rewrite index_of_nat by (rewrite length_app; simpl; lia).
  f_equal. induction pre as [|b pre IH]; simpl; [reflexivity|].
  f_equal. exact IH.
Qed.

Lemma len_app {A} (l1 l2 : list A) : len (l1 ++ l2) = len l1 + len l2.
Proof. unfold len. rewrite length_app. lia. Qed.

Lemma len_cons {A} (a : A) (l : list A) : len (a :: l) = len l + 1.
Proof. unfold len. simpl. lia. Qed.

Lemma len_nonneg {A} (l : list A) : 0 <= len l.
Proof. unfold len. lia. Qed.

Lemma range_seq (n : nat) : range (Z.of_nat n) = map Z.of_nat (seq 0 n).
Proof. unfold range. now rewrite Nat2Z.id. Qed.

Lemma negb_existsb_negb {A} (f : A -> bool) (l : list A) :
  negb (existsb (fun a => negb (f a)) l) = forallb f l.
Proof.
  induction l as [|a l IH]; [reflexivity|].
  cbn [existsb forallb]. now rewrite negb_orb, negb_involutive, IH.
Qed.

(** ** [clear_lines] *)

Section ClearLines.
Import TetrisGame.

Lemma set_board_same (g : t) : set_board (board g) g = g.
Proof. now destruct g. Qed.

Lemma lines_loop (pre suf : list (list string)) (acc : list Z) (g : t) :
  board g = pre ++ suf ->
  for_acc (map Z.of_nat (seq (length pre) (length suf))) acc
    (fun acc r =>
       row <- getitem (board g) r ;;
       if row_full row then Ok (acc ++ [r]) else Ok acc)
  = Ok (acc ++ full_indices (len pre) suf).
Proof.
  revert pre acc. induction suf as [|row suf IH]; intros pre acc Hb.
  - simpl. now rewrite app_nil_r.
  - cbn [length seq map for_acc full_indices].
    rewrite Hb at 1.
    rewrite (getitem_nat _ _ row) by now apply list_lookup_middle.
    assert (Hb' : board g = (pre ++ [row]) ++ suf) by now rewrite <- app_assoc.
    specialize (IH (pre ++ [row])).
    rewrite length_app in IH. simpl in IH.
    replace (length pre + 1)%nat with (S (length pre)) in IH by lia.
    rewrite len_app in IH. change (len [row]) with 1 in IH.
    cbn [bind]. destruct (row_full row); cbn [bind]; rewrite IH by assumption.
    + now rewrite <- app_assoc.
    + reflexivity.
Qed.

Lemma lines_to_clear_ok (g : t) :
  len (board g) = height g ->
  lines_to_clear g = Ok (full_indices 0 (board g)).
Proof.
  intros Hh. unfold lines_to_clear. rewrite <- Hh. unfold len. rewrite range_seq.
  apply (lines_loop [] (board g) [] g). reflexivity.
Qed.

Lemma repeat_snoc_app {A} (a : A) (k : nat) (l : list A) :
  repeat a k ++ a :: l = repeat a (S k) ++ l.
Proof. induction k as [|k IH]; simpl; [reflexivity|]. now rewrite IH. Qed.

Lemma remove_line_middle (top suf : list (list string)) (row : list string) (g : t) :
  board g = top ++ row :: suf ->
  remove_line (len top) g = (Ok tt, set_board (empty_row (width g) :: top ++ suf) g).
Proof.
  intros Hb. unfold remove_line. cbv [bindM get lift modify].
  rewrite Hb, delitem_middle. destruct g; reflexivity.
Qed.

(** The second loop of [clear_lines]: each [del] meets the row it was
    recorded for, because the rows above it moved down by one for every
    row inserted at the top. *)
Lemma delete_loop (suf top : list (list string)) (g : t) :
  board g = top ++ suf ->
  for_each (full_indices (len top) suf) remove_line g
  = (Ok tt,
     set_board (repeat (empty_row (width g)) (length (full_rows suf))
                  ++ top ++ kept_rows suf) g).
Proof.
  revert top g. induction suf as [|row suf IH]; intros top g Hb.
  - simpl. rewrite app_nil_r in *. rewrite <- Hb. now rewrite set_board_same.
  - cbn [full_indices full_rows kept_rows List.filter].
    destruct (row_full row) eqn:Hfull; cbn [negb].
    + cbn [for_each]. unfold bindM.
      rewrite (remove_line_middle top suf row g Hb).
      specialize (IH (empty_row (width g) :: top)
                     (set_board (empty_row (width g) :: top ++ suf) g)).
      rewrite len_cons in IH.
      unfold full_rows, kept_rows in *.
      rewrite IH by reflexivity.
      cbn [length]. rewrite <- repeat_snoc_app.
      destruct g; reflexivity.
    + specialize (IH (top ++ [row]) g).
      rewrite len_app in IH. change (len [row]) with 1 in IH.
      unfold full_rows, kept_rows in *.
      rewrite IH by now rewrite <- app_assoc.
      now rewrite <- !app_assoc.
Qed.

End ClearLines.

Section ClearLinesResult.
Import TetrisGame.

Lemma len_full_indices (i : Z) (b : list (list string)) :
  len (full_indices i b) = len (full_rows b).
Proof.
  revert i. induction b as [|row b IH]; intros i; simpl; [reflexivity|].
  unfold full_rows. simpl. destruct (row_full row); simpl.
  - rewrite !len_cons. f_equal. apply IH.
  - apply IH.
Qed.

Lemma points_table (n : Z) : 1 <= n <= 4 -> getitem points n = Ok (line_points n).
Proof.
  intros Hn.
  assert (Hc : n = 1 \/ n = 2 \/ n = 3 \/ n = 4) by lia.
  destruct Hc as [->|[->|[->| ->]]]; reflexivity.
Qed.

(** What [clear_lines] does on a grid of [height] rows, whatever the
    number of full rows. *)
Lemma clear_lines_run (g : t) :
  len (board g) = height g ->
  clear_lines g =
    let n := len (full_rows (board g)) in
    let g1 := set_board (cleared_board (width g) (board g)) g in
    if n =? 0 then (Ok 0, g1)
    else if n <=? 4 then (Ok n, scored n g1)
    else (Raise IndexError, g1).
Proof.
  intros Hh. unfold clear_lines.
  unfold bindM at 1. cbn [get]. unfold bindM at 1. unfold lift at 1.
  rewrite (lines_to_clear_ok g Hh).
  unfold bindM at 1.
  pose proof (delete_loop (board g) [] g eq_refl) as Hd.
  change (len (@nil (list string))) with 0 in Hd. rewrite Hd. clear Hd.
  rewrite len_full_indices. cbn [app]. fold (cleared_board (width g) (board g)).
  cbv zeta.
  set (n := len (full_rows (board g))).
  set (g1 := set_board (cleared_board (width g) (board g)) g).
  assert (Hn0 : 0 <= n) by apply len_nonneg.
  destruct (Z.eqb_spec n 0) as [Hz|Hz].
  - rewrite Hz. reflexivity.
  - destruct (Z.gtb_spec n 0) as [_|Hle]; [|lia].
    destruct (Z.leb_spec n 4) as [H4|H4].
    + unfold bindM at 1. unfold bindM at 1. unfold lift at 1.
      rewrite points_table by lia. reflexivity.
    + unfold bindM at 1. unfold bindM at 1. unfold lift at 1.
      rewrite getitem_past by (change (len points) with 5; lia). reflexivity.
Qed.

Lemma len_repeat {A} (a : A) (k : nat) : len (repeat a k) = Z.of_nat k.
Proof. unfold len. now rewrite repeat_length. Qed.

Lemma filter_split_length {A} (f : A -> bool) (l : list A) :
  (length (List.filter f l) + length (List.filter (fun a => negb (f a)) l) = length l)%nat.
Proof.
  induction l as [|a l IH]; simpl; [reflexivity|].
  destruct (f a); simpl; lia.
Qed.

Lemma cleared_board_length (w : Z) (b : list (list string)) :
  length (cleared_board w b) = length b.
Proof.
  unfold cleared_board. rewrite length_app, repeat_length.
  apply filter_split_length.
Qed.

Lemma empty_row_len (w : Z) : 0 <= w -> len (empty_row w) = w.
Proof. intros Hw. unfold empty_row. rewrite len_repeat. lia. Qed.

Lemma cleared_board_rows (w : Z) (b : list (list string)) :
  Forall (fun row => len row = w) b ->
  Forall (fun row => len row = w) (cleared_board w b).
Proof.
  intros Hb. unfold cleared_board. apply Forall_app. split.
  - destruct (full_rows b) as [|row rest] eqn:Hf; [constructor|].
    assert (Hin : In row (full_rows b)) by (rewrite Hf; now left).
    apply filter_In in Hin. destruct Hin as [Hin _].
    rewrite List.Forall_forall in Hb. specialize (Hb row Hin).
    assert (0 <= w) by (rewrite <- Hb; apply len_nonneg).
    apply List.Forall_forall. intros r Hr. apply repeat_spec in Hr. subst r.
    now apply empty_row_len.
  - rewrite List.Forall_forall in *. intros r Hr. apply filter_In in Hr.
    apply Hb, Hr.
Qed.

Lemma cleared_board_ok (g : t) :
  board_ok g -> board_ok (set_board (cleared_board (width g) (board g)) g).
Proof.
  intros [Hh Hw]. split; cbn.
  - unfold len in *. now rewrite cleared_board_length.
  - now apply cleared_board_rows.
Qed.

End ClearLinesResult.

(** ** [valid_position] *)

Section ValidPosition.
Import TetrisGame.

Lemma for_return_flat {A B} (l : list A) (body : A -> res (option bool))
      (cells : A -> list B) (f : B -> bool) :
  (forall a, In a l -> body a = Ok (if existsb f (cells a) then Some false else None)) ->
  for_return l body = Ok (if existsb f (flat_map cells l) then Some false else None).
Proof.
  induction l as [|a l IH]; intros Hbody; [reflexivity|].
  cbn [for_return flat_map]. rewrite existsb_app.
  rewrite (Hbody a) by now left.
  destruct (existsb f (cells a)); [reflexivity|].
  apply IH. intros a' Ha'. apply Hbody. now right.
Qed.

Lemma check_cell_blocked (g : t) (cy cx : Z) :
  board_ok g ->
  check_cell g cy cx = Ok (if blocked g (cy, cx) then Some false else None).
Proof.
  intros [Hh Hw]. unfold check_cell, blocked.
  destruct ((cx <? 0) || (cx >=? width g) || (cy >=? height g)) eqn:Hout;
    [reflexivity|].
  apply orb_false_iff in Hout. destruct Hout as [Hout Hy].
  apply orb_false_iff in Hout. destruct Hout as [Hx0 Hx1].
  cbn [orb]. destruct (Z.geb_spec cy 0) as [Hy0|Hy0].
  - destruct (Z.leb_spec 0 cy) as [_|?]; [|lia]. cbn [andb].
    destruct (getitem_in_range (board g) cy) as [row [Hrow Hget]]; [lia|].
    rewrite Hget. cbn [bind]. unfold occupied. rewrite Hrow.
    assert (Hlen : len row = width g).
    { rewrite List.Forall_forall in Hw. apply Hw.
      apply list_elem_of_In. eapply list_elem_of_lookup_2. exact Hrow. }
    destruct (getitem_in_range row cx) as [cell [Hcell Hgetc]]; [lia|].
    rewrite Hgetc, Hcell. cbn [bind]. now destruct (str_ne cell " ").
  - destruct (Z.leb_spec 0 cy) as [?|_]; [lia|]. reflexivity.
Qed.

Lemma map_flat_map_comm {A B C} (f : B -> C) (k : A -> list B) (l : list A) :
  map f (flat_map k l) = flat_map (fun a => map f (k a)) l.
Proof.
  induction l as [|a l IH]; simpl; [reflexivity|].
  now rewrite map_app, IH.
Qed.

Lemma cells_at_unfold (p : Tetromino.t) (ox oy : Z) :
  cells_at p ox oy =
  flat_map (fun '(r, row) =>
    flat_map (fun '(c, val) =>
        if val =? 0 then []
        else [(Tetromino.y p + r + oy, Tetromino.x p + c + ox)])
      (enumerate row))
    (enumerate (Tetromino.shape p)).
Proof.
  unfold cells_at, Tetromino.get_cells, Tetromino.cells_of.
  rewrite map_flat_map_comm. apply flat_map_ext. intros [r row].
  rewrite map_flat_map_comm. apply flat_map_ext. intros [c val].
  now destruct (val =? 0).
Qed.

(** [valid_position] is the search for a cell that [check_cell] refuses,
    over the cells of the moved piece. *)
Lemma valid_position_by (g : t) (p : Tetromino.t) (ox oy : Z) (f : Z * Z -> bool) :
  (forall cy cx, In (cy, cx) (cells_at p ox oy) ->
                 check_cell g cy cx = Ok (if f (cy, cx) then Some false else None)) ->
  valid_position g p ox oy = Ok (negb (existsb f (cells_at p ox oy))).
Proof.
  intros Hcell. unfold valid_position.
  rewrite cells_at_unfold in Hcell |- *.
  rewrite (for_return_flat _ _
    (fun '(r, row) =>
       flat_map (fun '(c, val) =>
           if val =? 0 then []
           else [(Tetromino.y p + r + oy, Tetromino.x p + c + ox)])
         (enumerate row))
    f).
  - cbn [bind]. now destruct (existsb _ _).
  - intros [r row] Hr. apply for_return_flat. intros [c val] Hc.
    destruct (val =? 0) eqn:Hval; [reflexivity|].
    rewrite Hcell.
    + cbn [existsb]. now rewrite orb_false_r.
    + apply in_flat_map. exists (r, row). split; [assumption|].
      apply in_flat_map. exists (c, val). split; [assumption|].
      rewrite Hval. now left.
Qed.

(** On a grid of the right dimensions [valid_position] raises nothing
    and says whether no cell of the moved piece is blocked. *)
Lemma valid_position_blocked (g : t) (p : Tetromino.t) (ox oy : Z) :
  board_ok g ->
  valid_position g p ox oy = Ok (negb (existsb (blocked g) (cells_at p ox oy))).
Proof.
  intros Hok. apply valid_position_by. intros cy cx _.
  now apply check_cell_blocked.
Qed.

End ValidPosition.

(** ** [place_piece] *)

Section PlacePiece.
Import TetrisGame.

Lemma for_each_flat {S A B} (Inv : S -> Prop) (step : S -> B -> S)
      (l : list A) (body : A -> M S unit) (cells : A -> list B) :
  (forall s b, Inv s -> Inv (step s b)) ->
  (forall a s, In a l -> Inv s -> body a s = (Ok tt, fold_left step (cells a) s)) ->
  forall s, Inv s ->
    for_each l body s = (Ok tt, fold_left step (flat_map cells l) s).
Proof.
  intros Hstep. 
  assert (Hfold : forall cs s, Inv s -> Inv (fold_left step cs s)).
  { induction cs as [|c cs IHc]; intros s Hs; [assumption|]. simpl. auto. }
  induction l as [|a l IH]; intros Hbody s Hs; [reflexivity|].
  cbn [for_each flat_map]. unfold bindM.
  rewrite (Hbody a s) by (auto; now left).
  rewrite fold_left_app. apply IH.
  - intros a' s' Ha' Hs'. apply Hbody; [now right|assumption].
  - now apply Hfold.
Qed.

Lemma paint_ok (w h : Z) (v : string) (b : list (list string)) (cell : Z * Z) :
  len b = h -> Forall (fun row => len row = w) b ->
  len (paint w h v b cell) = h /\ Forall (fun row => len row = w) (paint w h v b cell).
Proof.
  intros Hh Hw. destruct cell as [cy cx]. unfold paint.
  destruct ((0 <=? cy) && (cy <? h) && (0 <=? cx) && (cx <? w)); [|now split].
  destruct (b !! Z.to_nat cy) as [row|] eqn:Hrow; [|now split].
  split.
  - unfold len in *. now rewrite length_insert.
  - apply Forall_insert; [assumption|].
    unfold len. rewrite length_insert.
    rewrite List.Forall_forall in Hw. apply Hw.
    apply list_elem_of_In. eapply list_elem_of_lookup_2. exact Hrow.
Qed.

Lemma paint_step_ok (g : t) (cell : Z * Z) : board_ok g -> board_ok (paint_step g cell).
Proof.
  intros [Hh Hw]. unfold board_ok, paint_step. cbn.
  now apply paint_ok.
Qed.

Lemma set_cell_paint (g : t) (cy cx : Z) :
  board_ok g ->
  ((0 <=? cy) && (cy <? height g) && (0 <=? cx) && (cx <? width g)) = true ->
  set_cell cy cx (Tetromino.color (current_piece g)) g = (Ok tt, paint_step g (cy, cx)).
Proof.
  intros [Hh Hw] Hin. unfold paint_step, paint. rewrite Hin.
  apply andb_true_iff in Hin. destruct Hin as [Hin Hx1].
  apply andb_true_iff in Hin. destruct Hin as [Hin Hx0].
  apply andb_true_iff in Hin. destruct Hin as [Hy0 Hy1].
  apply Z.leb_le in Hy0, Hx0. apply Z.ltb_lt in Hy1, Hx1.
  destruct (getitem_in_range (board g) cy) as [row [Hrow Hget]]; [lia|].
  assert (Hlen : len row = width g).
  { rewrite List.Forall_forall in Hw. apply Hw.
    apply list_elem_of_In. eapply list_elem_of_lookup_2. exact Hrow. }
  unfold set_cell. cbv [bindM get lift modify].
  rewrite Hget. unfold setitem.
  rewrite (index_of_nonneg row cx) by lia.
  rewrite (index_of_nonneg (board g) cy) by lia.
  now rewrite Hrow.
Qed.

Lemma fold_paint_step (cells : list (Z * Z)) (g : t) :
  fold_left paint_step cells g =
  set_board (fold_left (paint (width g) (height g) (Tetromino.color (current_piece g)))
                       cells (board g)) g.
Proof.
  revert g. induction cells as [|c cells IH]; intros g.
  - simpl. now rewrite set_board_same.
  - cbn [fold_left]. rewrite IH. unfold paint_step. destruct g; reflexivity.
Qed.

(** On a grid of the right dimensions [place_piece] raises nothing and
    writes the cells of the current piece that lie on the grid. *)
Lemma place_piece_run (g : t) :
  board_ok g -> place_piece g = (Ok tt, set_board (placed_board g) g).
Proof.
  intros Hok. unfold place_piece, placed_board. unfold bindM at 1. cbn [get].
  rewrite <- fold_paint_step.
  set (p := current_piece g).
  unfold Tetromino.get_cells, Tetromino.cells_of.
  apply (for_each_flat (fun s => board_ok s /\ current_piece s = p)).
  - intros s b [Hs Hp]. split; [now apply paint_step_ok|]. exact Hp.
  - intros [r row] s _ Hs.
    apply (for_each_flat (fun s => board_ok s /\ current_piece s = p)); [| |exact Hs].
    + intros s' b [Hs' Hp]. split; [now apply paint_step_ok|]. exact Hp.
    + intros [c val] s' _ [Hs' Hp].
      destruct (val =? 0); [reflexivity|].
      unfold bindM at 1. cbn [get]. rewrite Hp.
      cbn [fold_left].
      destruct ((0 <=? Tetromino.y p + r) && (Tetromino.y p + r <? height s') &&
                (0 <=? Tetromino.x p + c) && (Tetromino.x p + c <? width s')) eqn:Hin.
      * rewrite <- Hp. rewrite set_cell_paint by (rewrite ?Hp; assumption).
        now rewrite Hp.
      * unfold paint_step, paint. rewrite Hin. now rewrite set_board_same.
  - split; [assumption|reflexivity].
Qed.

Lemma placed_board_ok (g : t) : board_ok g -> board_ok (set_board (placed_board g) g).
Proof.
  intros Hok. unfold placed_board. rewrite <- fold_paint_step.
  generalize (Tetromino.get_cells (current_piece g)). intros cells.
  revert g Hok. induction cells as [|c cells IH]; intros g Hok; [assumption|].
  cbn [fold_left]. apply IH. now apply paint_step_ok.
Qed.

End PlacePiece.

(** ** Moves and [rotate] *)

Section Moves.
Import TetrisGame.

Lemma set_current_piece_same (g : t) : set_current_piece (current_piece g) g = g.
Proof. now destruct g. Qed.

Lemma set_x_shifted (p : Tetromino.t) (d : Z) :
  Tetromino.set_x (Tetromino.x p + d) p = shifted d 0 p.
Proof.
  destruct p. unfold shifted, Tetromino.set_x, Tetromino.set_y. cbn. f_equal. lia.
Qed.

Lemma set_y_shifted (p : Tetromino.t) (d : Z) :
  Tetromino.set_y (Tetromino.y p + d) p = shifted 0 d p.
Proof.
  destruct p. unfold shifted, Tetromino.set_x, Tetromino.set_y. cbn. f_equal. lia.
Qed.

Lemma current_valid_run (g : t) (dx dy : Z) :
  board_ok g -> current_valid dx dy g = (Ok (legal g (current_piece g) dx dy), g).
Proof.
  intros Hok. unfold current_valid. cbv [bindM get lift].
  now rewrite valid_position_blocked.
Qed.

Lemma move_left_run (g : t) :
  board_ok g ->
  move_left g = (Ok tt, if legal g (current_piece g) (-1) 0
                        then set_current_piece (shifted (-1) 0 (current_piece g)) g
                        else g).
Proof.
  intros Hok. unfold move_left. unfold bindM. rewrite current_valid_run by assumption.
  destruct (legal g (current_piece g) (-1) 0); [|reflexivity].
  cbv [on_current_piece modify]. now rewrite <- set_x_shifted.
Qed.

Lemma move_right_run (g : t) :
  board_ok g ->
  move_right g = (Ok tt, if legal g (current_piece g) 1 0
                         then set_current_piece (shifted 1 0 (current_piece g)) g
                         else g).
Proof.
  intros Hok. unfold move_right. unfold bindM. rewrite current_valid_run by assumption.
  destruct (legal g (current_piece g) 1 0); [|reflexivity].
  cbv [on_current_piece modify]. now rewrite <- set_x_shifted.
Qed.

Lemma move_down_run (g : t) :
  board_ok g ->
  move_down g = if legal g (current_piece g) 0 1
                then (Ok true, set_current_piece (shifted 0 1 (current_piece g)) g)
                else (Ok false, g).
Proof.
  intros Hok. unfold move_down. unfold bindM at 1.
  rewrite current_valid_run by assumption.
  destruct (legal g (current_piece g) 0 1); [|reflexivity].
  cbv [bindM on_current_piece modify ret]. now rewrite <- set_y_shifted.
Qed.

Lemma move_by_run (g : t) (dx dy : Z) :
  move_by dx dy g = (Ok tt, set_current_piece (shifted dx dy (current_piece g)) g).
Proof.
  unfold move_by. cbv [bindM on_current_piece modify shifted]. cbn.
  repeat f_equal. 
Qed.

Lemma try_kicks_run (offsets : list (Z * Z)) (g : t) :
  board_ok g ->
  try_kicks offsets g =
    match List.find (fun '(dx, dy) => legal g (current_piece g) dx dy) offsets with
    | Some (dx, dy) => (Ok true, set_current_piece (shifted dx dy (current_piece g)) g)
    | None => (Ok false, g)
    end.
Proof.
  intros Hok. induction offsets as [|[dx dy] rest IH]; [reflexivity|].
  cbn [try_kicks List.find]. unfold bindM at 1.
  rewrite current_valid_run by assumption.
  destruct (legal g (current_piece g) dx dy).
  - unfold bindM. now rewrite move_by_run.
  - exact IH.
Qed.

Lemma rotate_cw_run (p : Tetromino.t) :
  piece_ok p ->
  Tetromino.rotate_cw p = (Ok tt, rotated p) /\ piece_ok (rotated p) /\
  Tetromino.shapes (rotated p) = Tetromino.shapes p /\
  Tetromino.type (rotated p) = Tetromino.type p.
Proof.
  intros [Hr Hs]. unfold Tetromino.rotate_cw, rotated, Tetromino.mod_len.
  cbv [bindM get lift modify].
  destruct (Z.eqb_spec (len (Tetromino.shapes p)) 0) as [H0|H0]; [lia|].
  set (r := (Tetromino.rotation p + 1) mod len (Tetromino.shapes p)).
  assert (Hr' : 0 <= r < len (Tetromino.shapes p)) by (apply Z.mod_pos_bound; lia).
  destruct (getitem_in_range (Tetromino.shapes p) r Hr') as [sh [Hsh Hget]].
  cbn [Tetromino.shapes Tetromino.set_rotation]. rewrite Hget.
  rewrite (nth_lookup_Some _ _ _ _ Hsh).
  repeat split; cbn; try lia; assumption.
Qed.

Lemma legal_set_current_piece (g : t) (q p : Tetromino.t) (dx dy : Z) :
  legal (set_current_piece q g) p dx dy = legal g p dx dy.
Proof. reflexivity. Qed.

(** What [rotate] does on a grid of the right dimensions. *)
Lemma rotate_run (g : t) :
  board_ok g -> piece_ok (current_piece g) ->
  rotate g =
    (Ok tt,
     let q := rotated (current_piece g) in
     if legal g q 0 0 then set_current_piece q g
     else match List.find (fun '(dx, dy) => legal g q dx dy) wall_kicks with
          | Some (dx, dy) => set_current_piece (shifted dx dy q) g
          | None => g
          end).
Proof.
  intros Hok Hp. destruct (rotate_cw_run _ Hp) as [Hcw [Hq [Hshapes _]]].
  unfold rotate. unfold bindM at 1. cbn [get]. unfold bindM at 1.
  unfold on_current_piece at 1. rewrite Hcw.
  set (q := rotated (current_piece g)) in *.
  set (g1 := set_current_piece q g).
  assert (Hok1 : board_ok g1) by exact Hok.
  unfold bindM at 1. rewrite current_valid_run by assumption.
  change (current_piece g1) with q. change (legal g1 q 0 0) with (legal g q 0 0).
  cbv zeta. destruct (legal g q 0 0); [reflexivity|].
  cbn [negb]. unfold bindM at 1. rewrite try_kicks_run by assumption.
  change (current_piece g1) with q.
  change (fun '(dx, dy) => legal g1 q dx dy) with (fun '(dx, dy) => legal g q dx dy).
  destruct (List.find _ wall_kicks) as [[dx dy]|] eqn:Hfind.
  - unfold g1. destruct g; reflexivity.
  - cbv [bindM on_current_piece modify get lift]. cbn.
    destruct Hp as [Hr Hs].
    rewrite (getitem_nonneg _ _ _ (proj1 Hr) Hs). cbn.
    f_equal. destruct g as [w h b sc lv lc go pa cur nx fs lt]. cbn in *.
    destruct cur; reflexivity.
Qed.

End Moves.

(** ** The rows [place_piece] can touch *)

Section PlacedRows.
Import TetrisGame.

Lemma enumerate_from_bounds {A} (l : list A) (i r : Z) (a : A) :
  In (r, a) (enumerate_from i l) -> i <= r < i + len l /\ In a l.
Proof.
  revert i. induction l as [|b l IH]; intros i Hin; [contradiction|].
  cbn [enumerate_from] in Hin. rewrite len_cons. pose proof (len_nonneg l).
  destruct Hin as [Heq|Hin].
  - inversion Heq; subst. split; [lia|now left].
  - apply IH in Hin. destruct Hin as [Hr Ha]. split; [lia|now right].
Qed.

Lemma cells_of_rows (sh : grid) (py px cy cx : Z) :
  In (cy, cx) (Tetromino.cells_of sh py px) -> py <= cy < py + len sh.
Proof.
  unfold Tetromino.cells_of. intros Hin.
  apply in_flat_map in Hin. destruct Hin as [[r row] [Hr Hin]].
  apply in_flat_map in Hin. destruct Hin as [[c val] [Hc Hin]].
  destruct (val =? 0); [contradiction|].
  destruct Hin as [Heq|[]]. inversion Heq; subst.
  apply enumerate_from_bounds in Hr. lia.
Qed.

Lemma paint_other_row (w h : Z) (v : string) (b : list (list string))
      (cy cx : Z) (i : nat) :
  Z.of_nat i <> cy -> paint w h v b (cy, cx) !! i = b !! i.
Proof.
  intros Hne. unfold paint.
  destruct ((0 <=? cy) && (cy <? h) && (0 <=? cx) && (cx <? w)) eqn:Hin; [|reflexivity].
  destruct (b !! Z.to_nat cy) as [row|]; [|reflexivity].
  apply list_lookup_insert_ne. 
  apply andb_true_iff in Hin. destruct Hin as [Hin _].
  apply andb_true_iff in Hin. destruct Hin as [Hin _].
  apply andb_true_iff in Hin. destruct Hin as [Hy0 _].
  apply Z.leb_le in Hy0. lia.
Qed.

Lemma fold_paint_other_rows (w h : Z) (v : string) (cells : list (Z * Z))
      (b : list (list string)) (i : nat) :
  (forall cy cx, In (cy, cx) cells -> Z.of_nat i <> cy) ->
  fold_left (paint w h v) cells b !! i = b !! i.
Proof.
  revert b. induction cells as [|[cy cx] cells IH]; intros b Hne; [reflexivity|].
  cbn [fold_left]. rewrite IH.
  - apply paint_other_row. apply (Hne cy cx). now left.
  - intros cy' cx' Hin. apply (Hne cy' cx'). now right.
Qed.

Lemma fold_paint_length (w h : Z) (v : string) (cells : list (Z * Z))
      (b : list (list string)) :
  length (fold_left (paint w h v) cells b) = length b.
Proof.
  revert b. induction cells as [|[cy cx] cells IH]; intros b; [reflexivity|].
  cbn [fold_left]. rewrite IH. unfold paint.
  destruct ((0 <=? cy) && (cy <? h) && (0 <=? cx) && (cx <? w)); [|reflexivity].
  destruct (b !! Z.to_nat cy); [|reflexivity]. apply length_insert.
Qed.

Lemma placed_board_other_rows (g : t) (i : nat) :
  let p := current_piece g in
  ~ (Tetromino.y p <= Z.of_nat i < Tetromino.y p + len (Tetromino.shape p)) ->
  placed_board g !! i = board g !! i.
Proof.
  intros p Hout. unfold placed_board. apply fold_paint_other_rows.
  intros cy cx Hin Heq. apply cells_of_rows in Hin. fold p in Hin. lia.
Qed.

Lemma filter_length_bound {A} (f : A -> bool) (l : list A) :
  (length (List.filter f l) <= length l)%nat.
Proof. induction l as [|a l IH]; simpl; [lia|]. destruct (f a); simpl; lia. Qed.

Lemma filter_all_false {A} (f : A -> bool) (l : list A) :
  Forall (fun a => f a = false) l -> List.filter f l = [].
Proof.
  induction 1 as [|a l Ha _ IH]; [reflexivity|]. simpl. now rewrite Ha.
Qed.

(** A grid that differs from a grid without full rows in at most [k]
    consecutive rows has at most [k] full rows. *)
Lemma full_rows_bound (b b1 : list (list string)) (lo k : Z) :
  length b1 = length b -> 0 <= k ->
  (forall i : nat, ~ (lo <= Z.of_nat i < lo + k) -> b1 !! i = b !! i) ->
  Forall (fun row => row_full row = false) b ->
  len (full_rows b1) <= k.
Proof.
  intros Hlen Hk Hsame Hnone.
  set (a := Z.to_nat lo). set (e := Z.to_nat (lo + k)).
  assert (Hae : (a <= e)%nat) by (unfold a, e; lia).
  assert (Hsplit : b1 = take a b1 ++ take (e - a) (drop a b1) ++ drop e b1).
  { rewrite <- (take_drop a b1) at 1. f_equal.
    rewrite <- (take_drop (e - a) (drop a b1)) at 1. f_equal.
    rewrite drop_drop. f_equal. lia. }
  assert (Htake : take a b1 = take a b).
  { apply list_eq. intros i. destruct (Nat.lt_ge_cases i a) as [Hi|Hi].
    - rewrite !lookup_take_lt by assumption. apply Hsame. unfold a in Hi. lia.
    - rewrite !lookup_take_ge by assumption. reflexivity. }
  assert (Hdrop : drop e b1 = drop e b).
  { apply list_eq. intros i. rewrite !lookup_drop. apply Hsame. unfold e. lia. }
  rewrite Hsplit. unfold full_rows, len. rewrite !List.filter_app, !length_app.
  rewrite Htake, Hdrop.
  rewrite (filter_all_false row_full (take a b)) by now apply Forall_take.
  rewrite (filter_all_false row_full (drop e b)) by now apply Forall_drop.
  pose proof (filter_length_bound row_full (take (e - a) (drop a b1))) as Hmid.
  rewrite length_take in Hmid. cbn [length]. unfold a, e in *. lia.
Qed.

Lemma dict_get_In {V} (d : list (string * V)) (k : string) (v : V) :
  dict_get d k = Ok v -> In (k, v) d.
Proof.
  induction d as [|[k' v'] d IH]; intros Hget; [discriminate|].
  cbn [dict_get] in Hget. destruct (String.eqb_spec k k') as [->|Hne].
  - inversion Hget; subst. now left.
  - right. now apply IH.
Qed.

Lemma SHAPES_rows :
  Forall (fun entry => Forall (fun sh : grid => len sh <= 4) (snd entry)) SHAPES.
Proof. repeat constructor; vm_compute; discriminate. Qed.

Lemma catalog_shape_rows (p : Tetromino.t) :
  catalog_piece p -> len (Tetromino.shape p) <= 4.
Proof.
  intros [Hget [_ Hsh]]. apply dict_get_In in Hget.
  pose proof SHAPES_rows as Hall. rewrite List.Forall_forall in Hall.
  specialize (Hall _ Hget). cbn [snd] in Hall.
  rewrite List.Forall_forall in Hall. apply Hall.
  apply list_elem_of_In. eapply list_elem_of_lookup_2. exact Hsh.
Qed.

(** After the current piece of a reachable state is written into the
    grid there are at most four full rows. *)
Lemma placed_full_rows (g : t) :
  game_inv g -> len (full_rows (placed_board g)) <= 4.
Proof.
  intros [Hok [_ [Hnone [Hcur _]]]].
  pose proof (catalog_shape_rows _ Hcur) as H4.
  pose proof (len_nonneg (Tetromino.shape (current_piece g))) as H0.
  transitivity (len (Tetromino.shape (current_piece g))); [|assumption].
  apply (full_rows_bound (board g) (placed_board g)
           (Tetromino.y (current_piece g))); try assumption.
  - unfold placed_board. apply fold_paint_length.
  - intros i Hi. now apply placed_board_other_rows.
Qed.

End PlacedRows.

(** ** [lock_piece] *)

Section LockPiece.
Import TetrisGame.

Lemma clear_lines_ok (g : t) :
  len (board g) = height g -> len (full_rows (board g)) <= 4 ->
  clear_lines g = (Ok (len (full_rows (board g))), cleared_game g).
Proof.
  intros Hh Hn. rewrite (clear_lines_run g Hh). unfold cleared_game. cbv zeta.
  destruct (Z.eqb_spec (len (full_rows (board g))) 0) as [Hz|Hz].
  - now rewrite Hz.
  - destruct (Z.leb_spec (len (full_rows (board g))) 4); [reflexivity|lia].
Qed.

Lemma cleared_game_frame (g : t) :
  width (cleared_game g) = width g /\ height (cleared_game g) = height g /\
  board (cleared_game g) = cleared_board (width g) (board g) /\
  current_piece (cleared_game g) = current_piece g /\
  next_piece (cleared_game g) = next_piece g /\
  game_over (cleared_game g) = game_over g /\ paused (cleared_game g) = paused g.
Proof.
  unfold cleared_game. cbv zeta.
  destruct (len (full_rows (board g)) =? 0); repeat split.
Qed.

Lemma cleared_game_ok (g : t) : board_ok g -> board_ok (cleared_game g).
Proof.
  intros Hok. pose proof (cleared_board_ok g Hok) as [Hh Hw].
  destruct (cleared_game_frame g) as [Ew [Eh [Eb _]]].
  unfold board_ok. rewrite Ew, Eh, Eb. split; assumption.
Qed.

Lemma spawn_piece_run (w : Z) (shape_type : string) :
  In shape_type (dict_keys SHAPES) ->
  exists p, spawn_piece w shape_type = Ok p /\ catalog_piece p /\ Tetromino.y p = -2.
Proof.
  intros Hin. cbn in Hin.
  repeat (destruct Hin as [<-|Hin];
          [eexists; split; [reflexivity|];
           split; [|reflexivity];
           split; [reflexivity|]; split; [unfold len; cbn; lia|reflexivity] |]).
  contradiction.
Qed.

Lemma lock_and_spawn_run (g : t) (shape_type : string) (now : float) :
  board_ok g -> len (full_rows (placed_board g)) <= 4 ->
  In shape_type (dict_keys SHAPES) ->
  exists nxt,
    spawn_piece (width g) shape_type = Ok nxt /\ catalog_piece nxt /\
    lock_and_spawn shape_type now g = (Ok tt, locked_game nxt now g).
Proof.
  intros Hok Hn Hin.
  destruct (spawn_piece_run (width g) shape_type Hin) as [nxt [Hsp [Hcat _]]].
  exists nxt. split; [assumption|]. split; [assumption|].
  unfold lock_and_spawn. unfold bindM at 1. rewrite place_piece_run by assumption.
  pose proof (placed_board_ok g Hok) as [Hh1 _].
  unfold bindM at 1. rewrite clear_lines_ok by assumption.
  destruct (cleared_game_frame (set_board (placed_board g) g))
    as [Ew [_ [_ [_ [Enext _]]]]].
  cbv [bindM modify get lift]. cbn [width set_current_piece].
  rewrite Ew. cbn [width set_board]. rewrite Hsp.
  unfold locked_game. cbv zeta. rewrite Enext. reflexivity.
Qed.

(** What [lock_piece] does when at most four rows are completed. *)
Lemma lock_piece_run (g : t) (shape_type : string) (now : float) :
  board_ok g -> len (full_rows (placed_board g)) <= 4 ->
  In shape_type (dict_keys SHAPES) ->
  exists nxt,
    spawn_piece (width g) shape_type = Ok nxt /\ catalog_piece nxt /\
    lock_and_spawn shape_type now g = (Ok tt, locked_game nxt now g) /\
    board_ok (locked_game nxt now g) /\
    lock_piece shape_type now g =
      (Ok tt,
       if legal (locked_game nxt now g) (next_piece g) 0 0
       then locked_game nxt now g
       else set_game_over true (locked_game nxt now g)).
Proof.
  intros Hok Hn Hin.
  destruct (lock_and_spawn_run g shape_type now Hok Hn Hin) as [nxt [Hsp [Hcat Hrun]]].
  exists nxt. split; [assumption|]. split; [assumption|]. split; [assumption|].
  assert (Hok1 : board_ok (locked_game nxt now g)).
  { unfold locked_game. cbv zeta.
    apply (cleared_game_ok (set_board (placed_board g) g)).
    now apply placed_board_ok. }
  split; [assumption|].
  unfold lock_piece. unfold bindM at 1. rewrite Hrun.
  unfold bindM at 1. rewrite current_valid_run by assumption.
  change (current_piece (locked_game nxt now g)) with (next_piece g).
  now destruct (legal (locked_game nxt now g) (next_piece g) 0 0).
Qed.

End LockPiece.

(** ** The invariant of reachable games *)

Section Invariant.
Import TetrisGame.

Lemma preserves_ret {A} (a : A) : preserves (ret a).
Proof. intros g Hg. exact Hg. Qed.

Lemma preserves_lift {A} (c : res A) : preserves (lift c).
Proof. intros g Hg. exact Hg. Qed.

Lemma preserves_get : preserves (@get t).
Proof. intros g Hg. exact Hg. Qed.

Lemma preserves_modify (f : t -> t) :
  (forall g, game_inv g -> game_inv (f g)) -> preserves (modify f).
Proof. intros Hf g Hg. now apply Hf. Qed.

Lemma preserves_bind {A B} (c : M t A) (k : A -> M t B) :
  preserves c -> (forall a, preserves (k a)) -> preserves (bindM c k).
Proof.
  intros Hc Hk g Hg. unfold bindM. specialize (Hc g Hg).
  destruct (c g) as [[a|e] g']; cbn [snd] in *; [now apply Hk|assumption].
Qed.

Lemma inv_set_current_piece (g : t) (p : Tetromino.t) :
  game_inv g -> catalog_piece p -> game_inv (set_current_piece p g).
Proof.
  intros [Hok [Hw [Hnone [_ Hnext]]]] Hp.
  split; [exact Hok|]. split; [exact Hw|]. split; [exact Hnone|].
  split; [exact Hp|exact Hnext].
Qed.

Lemma catalog_shifted (p : Tetromino.t) (dx dy : Z) :
  catalog_piece p -> catalog_piece (shifted dx dy p).
Proof. intros Hp. exact Hp. Qed.

Lemma catalog_rotated (p : Tetromino.t) :
  catalog_piece p -> catalog_piece (rotated p).
Proof.
  intros [Hget Hp]. destruct (rotate_cw_run p Hp) as [_ [Hq [Hs Ht]]].
  split; [|assumption]. now rewrite Hs, Ht.
Qed.

Lemma preserves_current_valid (dx dy : Z) : preserves (current_valid dx dy).
Proof.
  unfold current_valid. apply preserves_bind; [apply preserves_get|].
  intros g. apply preserves_lift.
Qed.

Lemma preserves_move_left : preserves move_left.
Proof.
  intros g Hg. rewrite move_left_run by apply Hg. cbn [snd].
  destruct (legal _ _ _ _); [|assumption].
  apply inv_set_current_piece; [assumption|]. apply catalog_shifted, Hg.
Qed.

Lemma preserves_move_right : preserves move_right.
Proof.
  intros g Hg. rewrite move_right_run by apply Hg. cbn [snd].
  destruct (legal _ _ _ _); [|assumption].
  apply inv_set_current_piece; [assumption|]. apply catalog_shifted, Hg.
Qed.

Lemma preserves_move_down : preserves move_down.
Proof.
  intros g Hg. rewrite move_down_run by apply Hg.
  destruct (legal _ _ _ _); cbn [snd]; [|assumption].
  apply inv_set_current_piece; [assumption|]. apply catalog_shifted, Hg.
Qed.

Lemma preserves_rotate : preserves rotate.
Proof.
  intros g Hg. pose proof Hg as [Hok [_ [_ [Hcur _]]]].
  rewrite rotate_run by (assumption || apply Hcur). cbn [snd]. cbv zeta.
  destruct (legal _ _ 0 0).
  - apply inv_set_current_piece; [assumption|]. now apply catalog_rotated.
  - destruct (List.find _ _) as [[dx dy]|]; [|assumption].
    apply inv_set_current_piece; [assumption|].
    apply catalog_shifted. now apply catalog_rotated.
Qed.

Lemma empty_row_not_full (w : Z) : 1 <= w -> row_full (empty_row w) = false.
Proof.
  intros Hw. unfold empty_row.
  destruct (Z.to_nat w) as [|n] eqn:Hn; [lia|]. reflexivity.
Qed.

Lemma cleared_board_no_full (w : Z) (b : list (list string)) :
  1 <= w -> Forall (fun row => row_full row = false) (cleared_board w b).
Proof.
  intros Hw. unfold cleared_board. apply Forall_app. split.
  - apply List.Forall_forall. intros r Hr. apply repeat_spec in Hr. subst r.
    now apply empty_row_not_full.
  - apply List.Forall_forall. intros r Hr. apply filter_In in Hr.
    destruct Hr as [_ Hr]. now apply negb_true_iff in Hr.
Qed.

Lemma locked_game_inv (g : t) (nxt : Tetromino.t) (now : float) :
  game_inv g -> catalog_piece nxt -> game_inv (locked_game nxt now g).
Proof.
  intros [Hok [Hw [Hnone [Hcur Hnext]]]] Hnxt.
  set (gp := set_board (placed_board g) g).
  destruct (cleared_game_frame gp) as [Ew [Eh [Eb _]]].
  pose proof (cleared_game_ok gp (placed_board_ok g Hok)) as Hokc.
  unfold game_inv, locked_game. cbv zeta. fold gp.
  split; [exact Hokc|]. cbn. rewrite Ew, Eh, Eb. cbn.
  split; [assumption|]. split; [apply cleared_board_no_full; lia|].
  split; assumption.
Qed.

Lemma inv_set_game_over (g : t) (v : bool) : game_inv g -> game_inv (set_game_over v g).
Proof. intros Hg. exact Hg. Qed.

Lemma preserves_lock_piece (shape_type : string) (now : float) :
  In shape_type (dict_keys SHAPES) -> preserves (lock_piece shape_type now).
Proof.
  intros Hin g Hg. pose proof Hg as [Hok _].
  destruct (lock_piece_run g shape_type now Hok (placed_full_rows g Hg) Hin)
    as [nxt [_ [Hcat [_ [_ Hrun]]]]].
  rewrite Hrun. cbn [snd].
  destruct (legal _ _ _ _); [|apply inv_set_game_over]; now apply locked_game_inv.
Qed.

Lemma preserves_drop_loop (fuel : nat) : preserves (drop_loop fuel).
Proof.
  induction fuel as [|fuel IH]; cbn [drop_loop]; [apply preserves_lift|].
  apply preserves_bind; [apply preserves_move_down|].
  intros [|]; [assumption|apply preserves_ret].
Qed.

Lemma preserves_hard_drop (fuel : nat) (shape_type : string) (now : float) :
  In shape_type (dict_keys SHAPES) -> preserves (hard_drop fuel shape_type now).
Proof.
  intros Hin. unfold hard_drop. apply preserves_bind; [apply preserves_drop_loop|].
  intros _. now apply preserves_lock_piece.
Qed.

Lemma preserves_update (current_time : float) (shape_type : string) (lock_time : float) :
  In shape_type (dict_keys SHAPES) -> preserves (update current_time shape_type lock_time).
Proof.
  intros Hin. unfold update. apply preserves_bind; [apply preserves_get|].
  intros g. destruct (game_over g || paused g); [apply preserves_ret|].
  destruct (PrimFloat.leb _ _); [|apply preserves_ret].
  apply preserves_bind; [apply preserves_move_down|].
  intros moved. apply preserves_bind.
  - destruct moved; cbn [negb]; [apply preserves_ret|now apply preserves_lock_piece].
  - intros _. apply preserves_modify. intros g' Hg'. exact Hg'.
Qed.

Lemma preserves_rotate_loop (fuel : nat) (rotation : Z) :
  preserves (TetrisAI.rotate_loop fuel rotation).
Proof.
  induction fuel as [|fuel IH]; cbn [TetrisAI.rotate_loop]; [apply preserves_lift|].
  apply preserves_bind; [apply preserves_get|].
  intros g. destruct (negb _); [|apply preserves_ret].
  apply preserves_bind; [apply preserves_rotate|]. intros _. exact IH.
Qed.

Lemma preserves_slide_loop (fuel : nat) (dx target_x : Z) :
  preserves (TetrisAI.slide_loop fuel dx target_x).
Proof.
  induction fuel as [|fuel IH]; cbn [TetrisAI.slide_loop]; [apply preserves_lift|].
  apply preserves_bind; [apply preserves_get|].
  intros g. cbv zeta. destruct (if dx >? 0 then _ else _); [|apply preserves_ret].
  apply preserves_bind; [apply preserves_current_valid|].
  intros [|]; [|apply preserves_ret].
  apply preserves_bind; [|intros _; exact IH].
  intros g' Hg'. cbv [on_current_piece modify]. cbn [snd].
  rewrite set_x_shifted. apply inv_set_current_piece; [assumption|].
  apply catalog_shifted, Hg'.
Qed.

Lemma preserves_execute_move (fuel : nat) (move : option (Z * Z)) :
  preserves (TetrisAI.execute_move fuel move).
Proof.
  destruct move as [[rotation target_x]|]; cbn [TetrisAI.execute_move];
    [|apply preserves_ret].
  apply preserves_bind; [apply preserves_rotate_loop|]. intros _.
  apply preserves_bind; [apply preserves_slide_loop|]. intros _.
  apply preserves_bind; [apply preserves_slide_loop|]. intros _.
  apply preserves_bind; [apply preserves_modify; intros g Hg; exact Hg|]. intros _.
  apply preserves_modify. intros g Hg. exact Hg.
Qed.

Lemma preserves_run (c : command) : command_ok c -> preserves (run c).
Proof.
  destruct c; cbn [command_ok run]; intros Hc.
  - apply preserves_move_left.
  - apply preserves_move_right.
  - apply preserves_bind; [apply preserves_move_down|]. intros _. apply preserves_ret.
  - apply preserves_rotate.
  - now apply preserves_hard_drop.
  - now apply preserves_lock_piece.
  - now apply preserves_update.
  - apply preserves_modify. intros g Hg. exact Hg.
  - apply preserves_modify. intros g Hg. exact Hg.
  - apply preserves_modify. intros g Hg. exact Hg.
  - apply preserves_execute_move.
Qed.

Lemma init_inv (w h : Z) (choice1 choice2 : string) (now : float) (g : t) :
  In choice1 (dict_keys SHAPES) -> In choice2 (dict_keys SHAPES) ->
  init w h choice1 choice2 now = Ok g -> game_inv g.
Proof.
  intros H1 H2. unfold init.
  destruct (Z.ltb_spec w 4) as [?|Hw]; [discriminate|].
  destruct (Z.ltb_spec h 4) as [?|Hh]; [discriminate|]. cbn [orb].
  destruct (spawn_piece_run w choice1 H1) as [cur [Hc [Hcat1 _]]].
  destruct (spawn_piece_run w choice2 H2) as [nxt [Hn [Hcat2 _]]].
  rewrite Hc, Hn. cbn [bind]. intros Hg. inversion Hg; subst g. clear Hg.
  unfold game_inv, board_ok. cbn.
  split; [split|].
  - unfold len, range. rewrite !length_map, length_seq. lia.
  - apply List.Forall_forall. intros row Hrow. apply in_map_iff in Hrow.
    destruct Hrow as [r [<- _]]. apply empty_row_len. lia.
  - split; [lia|]. split; [|split; assumption].
    apply List.Forall_forall. intros row Hrow. apply in_map_iff in Hrow.
    destruct Hrow as [r [<- _]]. apply empty_row_not_full. lia.
Qed.

(** Every reachable game satisfies the invariant. *)
Lemma reachable_inv (g : t) : reachable g -> game_inv g.
Proof.
  induction 1 as [w h c1 c2 now g H1 H2 Hg|g c _ IH Hc].
  - exact (init_inv w h c1 c2 now g H1 H2 Hg).
  - now apply preserves_run.
Qed.

End Invariant.

(** ** The example games are reachable *)

Lemma reachable_run_all (cs : list command) (g : TetrisGame.t) :
  reachable g -> Forall command_ok cs -> reachable (run_all cs g).
Proof.
  revert g. induction cs as [|c cs IH]; intros g Hg Hcs; [assumption|].
  inversion Hcs; subst. cbn [run_all fold_left]. apply IH; [|assumption].
  now apply reachable_step.
Qed.

Lemma new_game_I_reachable : reachable new_game_I.
Proof.
  apply (reachable_init 10 20 "I" "O" 0%float); [cbn; tauto|cbn; tauto|].
  vm_compute. reflexivity.
Qed.

Lemma stuck_game_reachable : reachable stuck_game.
Proof.
  assert (Heq : stuck_game = run_all (repeat MoveDown 21) new_game_I)
    by (vm_compute; reflexivity).
  rewrite Heq. apply reachable_run_all; [apply new_game_I_reachable|].
  repeat constructor.
Qed.

Lemma stuck_game_ok : board_ok stuck_game.
Proof. apply (reachable_inv _ stuck_game_reachable). Qed.

(** ** The column heights *)

Section Heights.
Import TetrisAI.

Lemma in_range (n r : Z) : In r (range n) -> 0 <= r < n.
Proof.
  unfold range. intros Hin. apply in_map_iff in Hin.
  destruct Hin as [k [<- Hk]]. apply in_seq in Hk. lia.
Qed.

Lemma in_range2 (a b r : Z) : In r (range2 a b) -> a <= r < b.
Proof.
  unfold range2. intros Hin. apply in_map_iff in Hin.
  destruct Hin as [k [<- Hk]]. apply in_seq in Hk. lia.
Qed.

Lemma rect_lookup (w : Z) (b : list (list string)) (i : nat) (row : list string) :
  rect w b -> b !! i = Some row -> len row = w.
Proof.
  intros Hr Hrow. unfold rect in Hr. rewrite List.Forall_forall in Hr. apply Hr.
  apply list_elem_of_In. eapply list_elem_of_lookup_2. exact Hrow.
Qed.

Lemma cell_at_nat (b : list (list string)) (i c : nat) (row : list string) (cell : string) :
  b !! i = Some row -> row !! c = Some cell ->
  cell_at b (Z.of_nat i) (Z.of_nat c) = Ok cell.
Proof.
  intros Hrow Hcell. unfold cell_at. rewrite (getitem_nat _ _ _ Hrow). cbn [bind].
  now apply getitem_nat.
Qed.

(** On a grid of [w] columns the cells within the grid can be read. *)
Lemma cell_at_rect (w : Z) (b : list (list string)) (r c : Z) :
  rect w b -> 0 <= r < len b -> 0 <= c < w ->
  exists row cell,
    b !! Z.to_nat r = Some row /\ row !! Z.to_nat c = Some cell /\
    cell_at b r c = Ok cell.
Proof.
  intros Hrect Hr Hc.
  destruct (getitem_in_range b r Hr) as [row [Hrow Hget]].
  pose proof (rect_lookup _ _ _ _ Hrect Hrow) as Hlen.
  destruct (getitem_in_range row c) as [cell [Hcell Hgetc]]; [lia|].
  exists row, cell. split; [assumption|]. split; [assumption|].
  unfold cell_at. rewrite Hget. exact Hgetc.
Qed.

Lemma column_height_of_bounds (b : list (list string)) (c : nat) :
  0 <= column_height_of b c <= len b.
Proof.
  induction b as [|row b IH]; cbn [column_height_of]; [unfold len; simpl; lia|].
  rewrite len_cons. pose proof (len_nonneg b).
  destruct (cell_filled row c); lia.
Qed.

Lemma column_loop (w : Z) (pre suf : list (list string)) (c : nat) :
  rect w (pre ++ suf) -> (Z.of_nat c < w) ->
  for_return (map Z.of_nat (seq (length pre) (length suf)))
    (fun row =>
       cell <- cell_at (pre ++ suf) row (Z.of_nat c) ;;
       if str_ne cell " " then Ok (Some (len (pre ++ suf) - row)) else Ok None)
  = Ok (if column_height_of suf c =? 0 then None else Some (column_height_of suf c)).
Proof.
  revert pre. induction suf as [|row suf IH]; intros pre Hrect Hc; [reflexivity|].
  cbn [length seq map for_return column_height_of].
  assert (Hrow : (pre ++ row :: suf) !! length pre = Some row)
    by now apply list_lookup_middle.
  pose proof (rect_lookup _ _ _ _ Hrect Hrow) as Hlen.
  destruct (lookup_lt_is_Some_2 row c) as [cell Hcell]; [unfold len in Hlen; lia|].
  rewrite (cell_at_nat _ _ _ _ _ Hrow Hcell). cbn [bind].
  unfold cell_filled. rewrite Hcell.
  destruct (str_ne cell " ").
  - rewrite len_app. fold (len pre).
    replace (len pre + len (row :: suf) - len pre) with (len (row :: suf)) by lia.
    rewrite len_cons. pose proof (len_nonneg suf).
    destruct (Z.eqb_spec (len suf + 1) 0); [lia|reflexivity].
  - specialize (IH (pre ++ [row])). rewrite <- app_assoc in IH. cbn [app] in IH.
    rewrite length_app in IH. cbn [length] in IH.
    replace (length pre + 1)%nat with (S (length pre)) in IH by lia.
    now apply IH.
Qed.

Lemma column_height_ok (w : Z) (b : list (list string)) (col : Z) :
  rect w b -> 0 <= col < w ->
  column_height b col = Ok (column_height_of b (Z.to_nat col)).
Proof.
  intros Hrect Hcol. unfold column_height.
  unfold len at 1. rewrite range_seq.
  pose proof (column_loop w [] b (Z.to_nat col) Hrect) as Hloop.
  rewrite Z2Nat.id in Hloop by lia. cbn [app length] in Hloop.
  rewrite Hloop by lia. cbn [bind].
  destruct (Z.eqb_spec (column_height_of b (Z.to_nat col)) 0) as [->|_]; reflexivity.
Qed.

Lemma for_acc_collect {A B} (l : list A) (f : A -> res B) (k : A -> B) (acc : list B) :
  (forall a, In a l -> f a = Ok (k a)) ->
  for_acc l acc (fun acc a => h <- f a ;; Ok (acc ++ [h])) = Ok (acc ++ map k l).
Proof.
  revert acc. induction l as [|a l IH]; intros acc Hf.
  - simpl. now rewrite app_nil_r.
  - cbn [for_acc map]. rewrite (Hf a) by now left. cbn [bind].
    rewrite IH by (intros a' Ha'; apply Hf; now right).
    now rewrite <- app_assoc.
Qed.

(** On a grid of [w] columns with at least one row
    [_get_column_heights] returns the heights of the columns. *)
Lemma get_column_heights_ok (w : Z) (b : list (list string)) :
  rect w b -> 1 <= len b ->
  _get_column_heights b = Ok (column_heights_of w b).
Proof.
  intros Hrect Hb. unfold _get_column_heights.
  destruct (getitem_in_range b 0) as [row0 [Hrow0 Hget]]; [lia|].
  rewrite Hget. cbn [bind].
  rewrite (rect_lookup _ _ _ _ Hrect Hrow0).
  rewrite (for_acc_collect _ _ (fun col => column_height_of b (Z.to_nat col))).
  - cbn [app]. unfold column_heights_of, range. rewrite map_map. f_equal.
    apply map_ext. intros k. now rewrite Nat2Z.id.
  - intros col Hcol. apply in_range in Hcol. now apply (column_height_ok w).
Qed.

Lemma column_heights_length (w : Z) (b : list (list string)) :
  0 <= w -> len (column_heights_of w b) = w.
Proof.
  intros Hw. unfold column_heights_of, len. rewrite length_map, length_seq. lia.
Qed.

Lemma column_heights_lookup (w : Z) (b : list (list string)) (col : Z) :
  0 <= col < w ->
  getitem (column_heights_of w b) col = Ok (column_height_of b (Z.to_nat col)).
Proof.
  intros Hcol. apply getitem_nonneg; [lia|].
  unfold column_heights_of. rewrite list_lookup_fmap.
  rewrite lookup_seq_lt by lia. reflexivity.
Qed.

(** The first cell the [is_clean] loop reads is the highest occupied cell
    of the column, so the loop answers [True] only for an empty column. *)
Lemma is_clean_empty_column (w : Z) (b : list (list string)) (col : Z) :
  rect w b -> 0 <= col < w ->
  is_clean b (column_height_of b (Z.to_nat col)) col
  = Ok (column_height_of b (Z.to_nat col) =? 0).
Proof.
  intros Hrect Hcol. unfold is_clean.
  pose proof (column_height_of_bounds b (Z.to_nat col)) as Hb.
  set (h := column_height_of b (Z.to_nat col)) in *.
  destruct (Z.eqb_spec h 0) as [Hz|Hz].
  - rewrite Hz. unfold range2. replace (len b - (len b - 0)) with 0 by lia.
    reflexivity.
  - unfold range2. replace (len b - (len b - h)) with h by lia.
    destruct (Z.to_nat h) as [|n] eqn:Hn; [lia|].
    cbn [seq map for_return]. rewrite Z.add_0_r.
    assert (Hcell : exists cell, cell_at b (len b - h) col = Ok cell /\ str_ne cell " " = true).
    { clear Hn n. subst h. clear Hb. induction b as [|row b IH]; [now elim Hz|].
      cbn [column_height_of] in *.
      assert (Hrow : len row = w) by (inversion Hrect; assumption).
      assert (Hrect' : rect w b) by (inversion Hrect; assumption).
      destruct (cell_filled row (Z.to_nat col)) eqn:Hf.
      - replace (len (row :: b) - len (row :: b)) with 0 by lia.
        unfold cell_filled in Hf.
        destruct (row !! Z.to_nat col) as [cell|] eqn:Hc; [|discriminate].
        exists cell. split; [|assumption]. unfold cell_at. cbn.
        apply getitem_nonneg; [lia|assumption].
      - destruct (IH Hrect' Hz) as [cell [Hc Hne]]. exists cell. split; [|assumption].
        pose proof (column_height_of_bounds b (Z.to_nat col)) as Hb.
        unfold cell_at in *. rewrite len_cons.
        destruct (getitem_in_range b (len b - column_height_of b (Z.to_nat col)))
          as [r [Hr Hg]]; [lia|].
        rewrite Hg in Hc. cbn [bind] in Hc.
        rewrite (getitem_nonneg (row :: b) _ r); [exact Hc|lia|].
        replace (Z.to_nat (len b + 1 - column_height_of b (Z.to_nat col)))
          with (S (Z.to_nat (len b - column_height_of b (Z.to_nat col)))) by lia.
        exact Hr. }
    destruct Hcell as [cell [Hc Hne]]. rewrite Hc. cbn [bind]. now rewrite Hne.
Qed.

End Heights.

(** ** The evaluator raises nothing on a grid *)

Section Returns.
Import TetrisAI.

Lemma returns_ok {A} (a : A) : returns (Ok a).
Proof. now exists a. Qed.

Lemma returns_bind {A B} (c : res A) (k : A -> res B) :
  returns c -> (forall a, c = Ok a -> returns (k a)) -> returns (bind c k).
Proof. intros [a Ha] Hk. rewrite Ha. cbn [bind]. now apply Hk. Qed.

Lemma returns_for_acc {A B} (l : list A) (acc : B) (body : B -> A -> res B) :
  (forall acc a, In a l -> returns (body acc a)) -> returns (for_acc l acc body).
Proof.
  revert acc. induction l as [|a l IH]; intros acc Hbody; [apply returns_ok|].
  cbn [for_acc]. apply returns_bind; [apply Hbody; now left|].
  intros acc' _. apply IH. intros acc'' a' Ha'. apply Hbody. now right.
Qed.

Lemma returns_for_return {A R} (l : list A) (body : A -> res (option R)) :
  (forall a, In a l -> returns (body a)) -> returns (for_return l body).
Proof.
  induction l as [|a l IH]; intros Hbody; [apply returns_ok|].
  cbn [for_return]. destruct (Hbody a (or_introl eq_refl)) as [[r|] Hr]; rewrite Hr.
  - apply returns_ok.
  - apply IH. intros a' Ha'. apply Hbody. now right.
Qed.

Lemma returns_getitem {A} (l : list A) (i : Z) :
  0 <= i < len l -> returns (getitem l i).
Proof.
  intros Hi. destruct (getitem_in_range l i Hi) as [a [_ Ha]]. now exists a.
Qed.

Lemma returns_cell_at (w : Z) (b : list (list string)) (r c : Z) :
  rect w b -> 0 <= r < len b -> 0 <= c < w -> returns (cell_at b r c).
Proof.
  intros Hrect Hr Hc.
  destruct (cell_at_rect w b r c Hrect Hr Hc) as [row [cell [_ [_ Hcell]]]].
  now exists cell.
Qed.

End Returns.

Ltac returns_step :=
  match goal with
  | |- returns (Ok _) => apply returns_ok
  | |- returns (Py.bind _ _) => apply returns_bind; [|intros ? ?]
  | |- returns (Py.for_acc _ _ _) => apply returns_for_acc; intros ? ? ?
  | |- returns (Py.for_return _ _) => apply returns_for_return; intros ? ?
  | |- context [let '(_, _) := ?p in _] => is_var p; destruct p
  | |- returns (if ?c then _ else _) => destruct c eqn:?
  | |- returns (match ?x with _ => _ end) => destruct x eqn:?
  | H : In _ (Py.range _) |- _ => apply in_range in H
  | H : In _ (Py.range2 _ _) |- _ => apply in_range2 in H
  end.

Section ReturnsHeuristics.
Import TetrisAI.

Variable w : Z.
Variable b : list (list string).
Hypothesis Hrect : rect w b.
Hypothesis Hrows : 1 <= len b.

Lemma first_row_width : exists row0, getitem b 0 = Ok row0 /\ len row0 = w.
Proof.
  destruct (getitem_in_range b 0) as [row0 [Hrow0 Hget]]; [lia|].
  exists row0. split; [assumption|]. eapply rect_lookup; eassumption.
Qed.

Lemma width_nonneg : 0 <= w.
Proof. destruct first_row_width as [row0 [_ <-]]. apply len_nonneg. Qed.

Lemma returns_aggregate_height : returns (_aggregate_height b).
Proof.
  unfold _aggregate_height. rewrite (get_column_heights_ok w b Hrect Hrows).
  apply returns_ok.
Qed.

Lemma returns_max_height : returns (_get_max_height b).
Proof.
  unfold _get_max_height. rewrite (get_column_heights_ok w b Hrect Hrows).
  cbn [bind]. destruct (column_heights_of w b); apply returns_ok.
Qed.

Lemma returns_count_holes : returns (_count_holes b).
Proof.
  unfold _count_holes. destruct first_row_width as [row0 [-> Hw]]. cbn [bind].
  rewrite Hw. repeat returns_step.
  apply (returns_cell_at w); [assumption|lia|lia].
Qed.

Lemma returns_bumpiness : returns (_calculate_bumpiness b).
Proof.
  unfold _calculate_bumpiness. rewrite (get_column_heights_ok w b Hrect Hrows).
  cbn [bind]. repeat returns_step; apply returns_getitem; lia.
Qed.

Lemma returns_complete_lines : returns (_count_complete_lines b).
Proof. apply returns_ok. Qed.

Lemma returns_count_wells : returns (_count_wells b).
Proof.
  unfold _count_wells. rewrite (get_column_heights_ok w b Hrect Hrows).
  cbn [bind]. repeat returns_step; apply returns_getitem; lia.
Qed.

Lemma returns_row_transitions : returns (_count_row_transitions b).
Proof.
  unfold _count_row_transitions. repeat returns_step; apply returns_getitem; lia.
Qed.

Lemma returns_column_transitions : returns (_count_column_transitions b).
Proof.
  unfold _count_column_transitions. destruct first_row_width as [row0 [-> Hw]].
  cbn [bind]. rewrite Hw.
  repeat returns_step; apply (returns_cell_at w); assumption || lia.
Qed.

Lemma returns_count_pits : returns (_count_pits b).
Proof.
  unfold _count_pits. rewrite (get_column_heights_ok w b Hrect Hrows).
  destruct first_row_width as [row0 [Hget Hw]]. rewrite Hget. cbn [bind]. rewrite Hw.
  apply returns_bind; [|intros; apply returns_ok].
  apply returns_for_acc. intros pits col Hcol. apply in_range in Hcol.
  rewrite (column_heights_lookup w b col Hcol). cbn [bind].
  pose proof (column_height_of_bounds b (Z.to_nat col)) as Hh.
  apply returns_for_acc. intros pits' row Hrow. apply in_range2 in Hrow.
  assert (Hrow' : 0 <= row < len b)
    by (destruct (column_height_of b (Z.to_nat col) >? 0); lia).
  repeat returns_step; try (apply (returns_cell_at w); assumption || lia).
Qed.

Lemma returns_well_quality : 2 <= w -> returns (_evaluate_well_quality b).
Proof.
  intros Hw2. unfold _evaluate_well_quality.
  rewrite (get_column_heights_ok w b Hrect Hrows).
  destruct first_row_width as [row0 [Hget Hw]]. rewrite Hget. cbn [bind]. rewrite Hw.
  apply returns_for_acc. intros best col Hcol.
  assert (Hc : 0 <= col < w) by (destruct Hcol as [<-|[<-|[]]]; lia).
  apply returns_bind; [|intros [s|] _; apply returns_ok].
  unfold edge_well_score. rewrite (column_heights_lookup w b col Hc). cbn [bind].
  rewrite (column_heights_lookup w b (if col =? 0 then 1 else w - 2))
    by (destruct (col =? 0); lia).
  cbn [bind]. destruct (_ >=? 3); [|apply returns_ok].
  rewrite (is_clean_empty_column w b col Hrect Hc). apply returns_ok.
Qed.

Lemma returns_tetris_readiness (piece_type : option string) :
  returns (_evaluate_tetris_readiness b piece_type).
Proof.
  unfold _evaluate_tetris_readiness. destruct (negb _); [apply returns_ok|].
  rewrite (get_column_heights_ok w b Hrect Hrows).
  destruct first_row_width as [row0 [Hget Hw]]. rewrite Hget. cbn [bind]. rewrite Hw.
  apply returns_for_acc. intros best col Hcol. apply in_range in Hcol.
  rewrite (column_heights_lookup w b col Hcol). cbn [bind].
  repeat returns_step; try (apply (returns_cell_at w); assumption || lia).
Qed.

(** On a grid of at least two columns and one row the evaluator raises
    nothing. *)
Lemma returns_evaluate_locals (piece_type : option string) :
  2 <= w -> returns (evaluate_locals b piece_type).
Proof.
  intros Hw2. unfold evaluate_locals.
  apply returns_bind; [apply returns_aggregate_height|intros ? _].
  apply returns_bind; [apply returns_count_holes|intros ? _].
  apply returns_bind; [apply returns_bumpiness|intros ? _].
  apply returns_bind; [apply returns_complete_lines|intros ? _].
  apply returns_bind; [apply returns_max_height|intros ? _].
  apply returns_bind; [apply returns_count_wells|intros ? _].
  apply returns_bind; [apply returns_row_transitions|intros ? _].
  apply returns_bind; [apply returns_column_transitions|intros ? _].
  apply returns_bind; [apply returns_count_pits|intros ? _].
  apply returns_bind; [apply returns_max_height|intros ? _].
  cbv zeta. apply returns_bind; [|intros; apply returns_ok].
  destruct (negb _); [|apply returns_ok].
  apply returns_bind; [now apply returns_well_quality|intros ? _].
  apply returns_bind; [apply returns_tetris_readiness|intros ? _].
  apply returns_ok.
Qed.

End ReturnsHeuristics.

(** ** The danger flag *)

Section Danger.
Import TetrisAI.

Lemma range_in (n r : Z) : 0 <= r < n -> In r (range n).
Proof.
  intros Hr. unfold range. apply in_map_iff. exists (Z.to_nat r).
  split; [lia|]. apply in_seq. lia.
Qed.

Lemma danger_table_512 : danger_table 512 = true.
Proof. vm_compute. reflexivity. Qed.

Lemma danger_table_sound (N h m : Z) :
  danger_table N = true -> 0 <= m <= h -> h <= N ->
  PrimFloat.ltb (PrimFloat.mul (to_float h) 0.6%float) (to_float m) = (3 * h <? 5 * m).
Proof.
  intros Ht Hm Hh. unfold danger_table in Ht.
  rewrite forallb_forall in Ht.
  assert (Hin : In h (range (N + 1))) by (apply range_in; lia).
  specialize (Ht h Hin). rewrite forallb_forall in Ht.
  assert (Hin' : In m (range (h + 1))) by (apply range_in; lia).
  specialize (Ht m Hin'). apply eqb_prop in Ht. exact Ht.
Qed.

(** Rounding does not move the threshold of the danger flag. *)
Lemma danger_exact (h m : Z) :
  0 <= m <= h -> h <= 512 ->
  PrimFloat.ltb (PrimFloat.mul (to_float h) 0.6%float) (to_float m) = (3 * h <? 5 * m).
Proof. exact (danger_table_sound 512 h m danger_table_512). Qed.

Lemma fold_max_bounds (l : list Z) (a hi : Z) :
  0 <= a <= hi -> Forall (fun x => 0 <= x <= hi) l -> 0 <= fold_left Z.max l a <= hi.
Proof.
  revert a. induction l as [|x l IH]; intros a Ha Hl; [assumption|].
  inversion Hl; subst. cbn [fold_left]. apply IH; [lia|assumption].
Qed.

Lemma column_heights_bounds (w : Z) (b : list (list string)) :
  Forall (fun x => 0 <= x <= len b) (column_heights_of w b).
Proof.
  unfold column_heights_of. apply List.Forall_forall. intros x Hx.
  apply in_map_iff in Hx. destruct Hx as [c [<- _]]. apply column_height_of_bounds.
Qed.

Lemma max_column_height_bounds (w : Z) (b : list (list string)) :
  0 <= max_column_height w b <= len b.
Proof.
  unfold max_column_height. apply fold_max_bounds.
  - pose proof (len_nonneg b). lia.
  - apply column_heights_bounds.
Qed.

Lemma get_max_height_ok (w : Z) (b : list (list string)) :
  rect w b -> 1 <= len b ->
  _get_max_height b = Ok (to_float (max_column_height w b)).
Proof.
  intros Hrect Hrows. unfold _get_max_height, max_column_height.
  rewrite (get_column_heights_ok w b Hrect Hrows). cbn [bind].
  pose proof (column_heights_bounds w b) as Hb.
  destruct (column_heights_of w b) as [|h rest]; [reflexivity|].
  inversion Hb; subst. cbn [fold_left]. unfold list_max.
  now replace (Z.max 0 h) with h by lia.
Qed.

Lemma bind_ok_inv {A B} (c : res A) (k : A -> res B) (r : B) :
  bind c k = Ok r -> exists a, c = Ok a /\ k a = Ok r.
Proof. destruct c as [a|e]; [|discriminate]. intros H. now exists a. Qed.

(** The locals of [evaluate_board]: the flag is the binary64 comparison,
    and under it the two well terms are the constant 0. *)
Lemma evaluate_locals_flag (b : list (list string)) (piece_type : option string)
      (l : locals) (mh : float) :
  _get_max_height b = Ok mh ->
  evaluate_locals b piece_type = Ok l ->
  is_dangerous l = PrimFloat.ltb (PrimFloat.mul (to_float (len b)) 0.6%float) mh /\
  (is_dangerous l = true ->
   well_quality_score l = 0%float /\ tetris_ready_score l = 0%float).
Proof.
  intros Hmh Hl. unfold evaluate_locals in Hl. rewrite Hmh in Hl.
  repeat (apply bind_ok_inv in Hl;
          let Heq := fresh "Heq" in
          destruct Hl as [? [Heq Hl]];
          match type of Heq with
          | Ok _ = Ok _ => inversion Heq; subst; clear Heq
          | _ => idtac
          end).
  inversion Hl; subst l; clear Hl. cbn [is_dangerous well_quality_score tetris_ready_score].
  split; [reflexivity|]. intros Hd.
  match goal with H : (if negb _ then _ else _) = Ok _ |- _ =>
    rewrite Hd in H; cbn [negb] in H; inversion H; subst end.
  now split.
Qed.

End Danger.

(** ** The move search leaves the game alone *)

Section Store.
Import Search.

Lemma ext_refl (s : state) : ext s s.
Proof. split; reflexivity. Qed.

Lemma ext_trans (s1 s2 s3 : state) : ext s1 s2 -> ext s2 s3 -> ext s1 s3.
Proof.
  intros [Hg1 Hh1] [Hg2 Hh2]. split; [congruence|]. now transitivity (heap s2).
Qed.

Lemma ext_lookup (s s' : state) (l : nat) (o : obj) :
  ext s s' -> heap s !! l = Some o -> heap s' !! l = Some o.
Proof. intros [_ Hp] Hl. eapply prefix_lookup_Some; eassumption. Qed.

Lemma ext_length (s s' : state) : ext s s' -> (length (heap s) <= length (heap s'))%nat.
Proof. intros [_ Hp]. now apply prefix_length. Qed.

Lemma ext_is_piece (s s' : state) (l : nat) (p : Tetromino.t) :
  ext s s' -> is_piece s l p -> is_piece s' l p.
Proof. intros He Hp. now apply (ext_lookup s s'). Qed.

Lemma ext_is_rows (s s' : state) (rows : list nat) (b : list (list string)) :
  ext s s' -> Forall2 (is_row s) rows b -> Forall2 (is_row s') rows b.
Proof.
  intros He Hr. induction Hr as [|r cells rows b Hrow _ IH]; constructor; [|exact IH].
  now apply (ext_lookup s s').
Qed.

Lemma ext_is_board (s s' : state) (bl : nat) (b : list (list string)) :
  ext s s' -> is_board s bl b -> is_board s' bl b.
Proof.
  intros He [rows [Hb Hr]]. exists rows. split.
  - now apply (ext_lookup s s').
  - now apply (ext_is_rows s s').
Qed.

Lemma ext_scratch (n : nat) (s s' : state) (bl : nat) (b : list (list string)) :
  ext s s' -> scratch n s bl b -> scratch n s' bl b.
Proof.
  intros He [rows [Hb [Hr [Hn Hd]]]]. exists rows. split; [|split; [|split]].
  - now apply (ext_lookup s s').
  - now apply (ext_is_rows s s').
  - exact Hn.
  - exact Hd.
Qed.

Lemma ext_represents (s s' : state) (g : TetrisGame.t) :
  ext s s' -> represents s g -> represents s' g.
Proof.
  intros He [Hb [Hc [Hn Hg]]]. pose proof He as [Hgame _].
  unfold represents. rewrite Hgame.
  split; [now apply (ext_is_board s s')|].
  split; [now apply (ext_is_piece s s')|].
  split; [now apply (ext_is_piece s s')|exact Hg].
Qed.

Lemma scratch_is_board (n : nat) (s : state) (bl : nat) (b : list (list string)) :
  scratch n s bl b -> is_board s bl b.
Proof. intros [rows [Hb [Hr _]]]. now exists rows. Qed.

Lemma ext_alloc (s : state) (o : obj) :
  ext s (mk_state (heap s ++ [o]) (game s)).
Proof. split; [reflexivity|]. now apply prefix_app_r. Qed.

(** A write at an address from the length of [s0] on keeps what [s0]
    holds. *)
Lemma ext_write (s0 s : state) (l : nat) (o : obj) :
  ext s0 s -> (length (heap s0) <= l)%nat ->
  ext s0 (mk_state (<[l := o]> (heap s)) (game s)).
Proof.
  intros [Hg [k Hk]] Hl. split; [exact Hg|]. cbn.
  exists (<[(l - length (heap s0))%nat := o]> k).
  rewrite Hk. now rewrite insert_app_r_alt.
Qed.

Lemma read_piece_spec (s : state) (l : nat) (p : Tetromino.t) :
  is_piece s l p -> read_piece l s = (Ok p, s).
Proof.
  intros Hp. unfold read_piece, bindM, read. unfold is_piece in Hp. now rewrite Hp.
Qed.

Lemma read_row_spec (s : state) (r : nat) (cells : list string) :
  is_row s r cells -> read_row r s = (Ok cells, s).
Proof.
  intros Hr. unfold read_row, bindM, read. unfold is_row in Hr. now rewrite Hr.
Qed.

Lemma read_rows_spec (s : state) (bl : nat) (rows : list nat) :
  heap s !! bl = Some (OBoard rows) -> read_rows bl s = (Ok rows, s).
Proof. intros Hb. unfold read_rows, bindM, read. now rewrite Hb. Qed.

Lemma load_rows_spec (s : state) (rows : list nat) (b : list (list string)) :
  Forall2 (is_row s) rows b ->
  comprehension rows (fun r => cells <~ read_row r ;; ret (Some cells)) s = (Ok b, s).
Proof.
  induction 1 as [|r cells rows b Hr _ IH]; [reflexivity|].
  cbn [comprehension]. unfold bindM at 1. unfold bindM at 1.
  rewrite (read_row_spec s r cells Hr). cbn [ret].
  unfold bindM at 1. now rewrite IH.
Qed.

Lemma load_board_spec (s : state) (bl : nat) (b : list (list string)) :
  is_board s bl b -> load_board bl s = (Ok b, s).
Proof.
  intros [rows [Hb Hr]]. unfold load_board. unfold bindM at 1.
  rewrite (read_rows_spec s bl rows Hb). now apply load_rows_spec.
Qed.

Lemma snapshot_spec (s : state) (g : TetrisGame.t) :
  represents s g -> snapshot s = (Ok g, s).
Proof.
  intros [Hb [Hc [Hn Hg]]]. unfold snapshot. unfold bindM at 1. cbn [get].
  unfold bindM at 1. rewrite (load_board_spec _ _ _ Hb).
  unfold bindM at 1. rewrite (read_piece_spec _ _ _ Hc).
  unfold bindM at 1. rewrite (read_piece_spec _ _ _ Hn).
  cbn [ret]. now rewrite <- Hg.
Qed.

Lemma valid_position_store (s : state) (g : TetrisGame.t) (pl : nat)
      (p : Tetromino.t) (ox oy : Z) :
  represents s g -> board_ok g -> is_piece s pl p ->
  valid_position pl ox oy s = (Ok (legal g p ox oy), s).
Proof.
  intros Hg Hok Hp. unfold valid_position. unfold bindM at 1.
  rewrite (snapshot_spec s g Hg). unfold bindM at 1.
  rewrite (read_piece_spec s pl p Hp). unfold lift.
  now rewrite valid_position_blocked.
Qed.

End Store.

Section TestPieces.
Import Search.

(** The two legality tests share their loops. *)
Lemma cells_loop (check : Z -> Z -> res (option bool)) (p : Tetromino.t)
      (ox oy : Z) (f : Z * Z -> bool) :
  (forall cy cx, In (cy, cx) (cells_at p ox oy) ->
                 check cy cx = Ok (if f (cy, cx) then Some false else None)) ->
  (out <- for_return (enumerate (Tetromino.shape p)) (fun '(r, row) =>
            for_return (enumerate row) (fun '(c, val) =>
              if val =? 0 then Ok None
              else check (Tetromino.y p + r + oy) (Tetromino.x p + c + ox))) ;;
   match out with
   | Some b => Ok b
   | None => Ok true
   end) = Ok (negb (existsb f (cells_at p ox oy))).
Proof.
  intros Hcell. rewrite cells_at_unfold in Hcell |- *.
  rewrite (for_return_flat _ _
    (fun '(r, row) =>
       flat_map (fun '(c, val) =>
           if val =? 0 then []
           else [(Tetromino.y p + r + oy, Tetromino.x p + c + ox)])
         (enumerate row))
    f).
  - cbn [bind]. now destruct (existsb _ _).
  - intros [r row] Hr. apply for_return_flat. intros [c val] Hc.
    destruct (val =? 0) eqn:Hval; [reflexivity|].
    rewrite Hcell.
    + cbn [existsb]. now rewrite orb_false_r.
    + apply in_flat_map. exists (r, row). split; [assumption|].
      apply in_flat_map. exists (c, val). split; [assumption|].
      rewrite Hval. now left.
Qed.

Lemma check_cell_on_blocked (w : Z) (b : list (list string)) (cy cx : Z) :
  rect w b -> 1 <= len b ->
  TetrisAI.check_cell_on b cy cx
  = Ok (if blocked (on_board w b) (cy, cx) then Some false else None).
Proof.
  intros Hrect Hrows. unfold TetrisAI.check_cell_on, blocked.
  cbn [TetrisGame.width TetrisGame.height TetrisGame.board on_board].
  destruct (Z.ltb_spec cx 0) as [Hx0|Hx0]; [reflexivity|]. cbn [orb].
  destruct (first_row_width w b Hrect Hrows) as [row0 [-> Hw]]. cbn [bind]. rewrite Hw.
  destruct ((cx >=? w) || (cy >=? len b)) eqn:Hout; [reflexivity|].
  apply orb_false_iff in Hout. destruct Hout as [Hx1 Hy1].
  destruct (Z.geb_spec cy 0) as [Hy0|Hy0].
  - destruct (Z.leb_spec 0 cy) as [_|?]; [|lia]. cbn [andb].
    destruct (cell_at_rect w b cy cx Hrect) as [row [cell [Hrow [Hcell Hget]]]]; [lia|lia|].
    rewrite Hget. cbn [bind]. unfold occupied. rewrite Hrow, Hcell.
    now destruct (str_ne cell " ").
  - destruct (Z.leb_spec 0 cy) as [?|_]; [lia|]. reflexivity.
Qed.

Lemma is_valid_on_board_legal (w : Z) (b : list (list string)) (p : Tetromino.t)
      (ox oy : Z) :
  rect w b -> 1 <= len b ->
  TetrisAI._is_valid_on_board p b ox oy = Ok (legal (on_board w b) p ox oy).
Proof.
  intros Hrect Hrows. unfold TetrisAI._is_valid_on_board, legal.
  apply cells_loop. intros cy cx _. now apply check_cell_on_blocked.
Qed.

Lemma is_valid_on_board_store (s : state) (pl bl : nat) (p : Tetromino.t)
      (w : Z) (b : list (list string)) (ox oy : Z) :
  is_piece s pl p -> is_board s bl b -> rect w b -> 1 <= len b ->
  _is_valid_on_board pl bl ox oy s = (Ok (legal (on_board w b) p ox oy), s).
Proof.
  intros Hp Hb Hrect Hrows. unfold _is_valid_on_board. unfold bindM at 1.
  rewrite (read_piece_spec s pl p Hp). unfold bindM at 1.
  rewrite (load_board_spec s bl b Hb). unfold lift.
  now rewrite (is_valid_on_board_legal w).
Qed.

Lemma SHAPES_cells :
  Forall (fun entry => Forall (fun sh => has_cell sh = true) (snd entry)) SHAPES.
Proof. repeat constructor. Qed.

(** A piece of the catalog that can move down by one row is above the
    last row. *)
Lemma legal_down_above_floor (g : TetrisGame.t) (p : Tetromino.t) :
  catalog_piece p -> legal g p 0 1 = true ->
  Tetromino.y p + 1 < TetrisGame.height g.
Proof.
  intros [Hget [_ Hsh]] Hlegal. apply dict_get_In in Hget.
  pose proof SHAPES_cells as Hall. rewrite List.Forall_forall in Hall.
  specialize (Hall _ Hget). cbn [snd] in Hall. rewrite List.Forall_forall in Hall.
  assert (Hcell : has_cell (Tetromino.shape p) = true).
  { apply Hall. apply list_elem_of_In. eapply list_elem_of_lookup_2. exact Hsh. }
  unfold has_cell in Hcell. apply existsb_exists in Hcell.
  destruct Hcell as [[r row] [Hr Hcell]]. apply existsb_exists in Hcell.
  destruct Hcell as [[c val] [Hc Hval]].
  assert (Hin : In (Tetromino.y p + r + 1, Tetromino.x p + c + 0) (cells_at p 0 1)).
  { rewrite cells_at_unfold. apply in_flat_map. exists (r, row). split; [assumption|].
    apply in_flat_map. exists (c, val). split; [assumption|].
    destruct (val =? 0); [discriminate|]. now left. }
  unfold legal in Hlegal. apply negb_true_iff in Hlegal.
  assert (Hnb : blocked g (Tetromino.y p + r + 1, Tetromino.x p + c + 0) = false).
  { destruct (blocked g _) eqn:Hb; [|reflexivity].
    assert (Hex : existsb (blocked g) (cells_at p 0 1) = true)
      by (apply existsb_exists; eexists; split; eassumption).
    congruence. }
  unfold blocked in Hnb. apply orb_false_iff in Hnb. destruct Hnb as [Hnb _].
  apply orb_false_iff in Hnb. destruct Hnb as [_ Hy].
  apply enumerate_from_bounds in Hr. lia.
Qed.

Lemma update_piece_spec (s : state) (l : nat) (p : Tetromino.t)
      (f : Tetromino.t -> Tetromino.t) :
  is_piece s l p ->
  update_piece l f s = (Ok tt, mk_state (<[l := OPiece (f p)]> (heap s)) (game s)).
Proof.
  intros Hp. unfold update_piece. unfold bindM. now rewrite (read_piece_spec s l p Hp).
Qed.

Lemma is_piece_write (s : state) (l : nat) (p q : Tetromino.t) :
  is_piece s l p -> is_piece (mk_state (<[l := OPiece q]> (heap s)) (game s)) l q.
Proof.
  intros Hp. unfold is_piece in *. cbn. apply list_lookup_insert_eq.
  eapply lookup_lt_Some. exact Hp.
Qed.

(** The piece that [new_test_piece] builds. *)
Lemma new_test_piece_spec (s : state) (shape_type : string) (shs : list grid)
      (rotation : Z) :
  dict_get SHAPES shape_type = Ok shs -> 0 <= rotation < len shs ->
  exists p,
    new_test_piece shape_type rotation s
      = (Ok (length (heap s)), mk_state (heap s ++ [OPiece p]) (game s)) /\
    catalog_piece p /\ Tetromino.type p = shape_type /\
    Tetromino.rotation p = rotation /\ Tetromino.y p = 0.
Proof.
  intros Hget Hrot.
  assert (Hin : In shape_type (dict_keys SHAPES)).
  { apply dict_get_In in Hget. apply in_map_iff. now exists (shape_type, shs). }
  assert (Hinit : exists col, Tetromino.init shape_type
                  = Ok (Tetromino.mk shape_type shs 0
                          (nth 0 shs []) col 0 0)).
  { cbn in Hin.
    repeat (destruct Hin as [<-|Hin];
            [cbn in Hget; inversion Hget; subst shs; eexists; reflexivity|]).
    contradiction. }
  destruct Hinit as [col Hinit].
  destruct (getitem_in_range shs rotation Hrot) as [sh [Hsh Hgetsh]].
  exists (Tetromino.mk shape_type shs rotation sh col 0 0).
  split; [|split; [|split; [|split]; reflexivity]].
  - unfold new_test_piece. unfold bindM at 1. unfold lift at 1. rewrite Hinit.
    unfold bindM at 1. unfold alloc at 1.
    set (s1 := mk_state (heap s ++ [OPiece _]) (game s)).
    assert (H1 : is_piece s1 (length (heap s))
                   (Tetromino.mk shape_type shs 0 (nth 0 shs []) col 0 0))
      by (unfold is_piece, s1; cbn; now rewrite list_lookup_middle).
    unfold bindM at 1. rewrite (update_piece_spec _ _ _ _ H1).
    pose proof (is_piece_write _ _ _
      (Tetromino.set_rotation rotation
         (Tetromino.mk shape_type shs 0 (nth 0 shs []) col 0 0)) H1) as H2.
    unfold bindM at 1. rewrite (read_piece_spec _ _ _ H2).
    cbn [Tetromino.shapes Tetromino.set_rotation]. unfold bindM at 1. unfold lift at 1.
    rewrite Hgetsh. unfold bindM at 1. rewrite (update_piece_spec _ _ _ _ H2).
    pose proof (is_piece_write _ _ _
      (Tetromino.set_shape sh (Tetromino.set_rotation rotation
         (Tetromino.mk shape_type shs 0 (nth 0 shs []) col 0 0))) H2) as H3.
    unfold bindM at 1. rewrite (update_piece_spec _ _ _ _ H3).
    cbn [ret heap game]. f_equal. unfold s1. cbn [heap game]. f_equal.
    rewrite !list_insert_insert_eq.
    rewrite insert_app_r_alt by lia. rewrite Nat.sub_diag. reflexivity.
  - split; [exact Hget|]. split; [exact Hrot|exact Hsh].
Qed.

Lemma set_y_same (p : Tetromino.t) : Tetromino.set_y (Tetromino.y p) p = p.
Proof. now destruct p. Qed.

Lemma set_y_twice (y1 y2 : Z) (p : Tetromino.t) :
  Tetromino.set_y y2 (Tetromino.set_y y1 p) = Tetromino.set_y y2 p.
Proof. now destruct p. Qed.

(** The [while] loop that drops a test piece ends within [fuel]
    iterations when [fuel] is at least the height of the grid less the
    row of the piece, and at least 1; it changes the row of the piece
    only, and the piece cannot move down from the row it ends in. *)
Lemma drop_spec (G : TetrisGame.t) (K : state -> Prop) (valid : M state bool)
      (pl : nat) :
  (forall s q, K s -> is_piece s pl q -> valid s = (Ok (legal G q 0 1), s)) ->
  (forall s q q', K s -> is_piece s pl q ->
                  K (mk_state (<[pl := OPiece q']> (heap s)) (game s))) ->
  forall fuel s p,
    K s -> is_piece s pl p -> catalog_piece p ->
    (1 <= fuel)%nat -> TetrisGame.height G - Tetromino.y p <= Z.of_nat fuel ->
    exists s' y',
      drop fuel valid pl s = (Ok tt, s') /\ K s' /\
      is_piece s' pl (Tetromino.set_y y' p) /\
      legal G (Tetromino.set_y y' p) 0 1 = false.
Proof.
  intros Hvalid HK. induction fuel as [|fuel IH]; intros s p Hs Hp Hcat H1 Hfuel; [lia|].
  cbn [drop]. unfold bindM at 1. rewrite (Hvalid s p Hs Hp).
  destruct (legal G p 0 1) eqn:Hlegal.
  - pose proof (legal_down_above_floor G p Hcat Hlegal) as Hy.
    unfold bindM at 1. rewrite (update_piece_spec s pl p _ Hp).
    set (q := Tetromino.set_y (Tetromino.y p + 1) p).
    destruct (IH (mk_state (<[pl := OPiece q]> (heap s)) (game s)) q)
      as [s' [y' [Hrun [HK' [Hq' Hrest]]]]].
    + now apply (HK s p).
    + now apply (is_piece_write s pl p).
    + exact Hcat.
    + lia.
    + unfold q. cbn. lia.
    + unfold q in Hq', Hrest. rewrite set_y_twice in Hq', Hrest.
      exists s', y'. split; [exact Hrun|]. split; [exact HK'|]. now split.
  - exists s, (Tetromino.y p). rewrite set_y_same. now repeat split.
Qed.

End TestPieces.

Section TestBoards.
Import Search.

Lemma for_each_inv {S A} (I : S -> Prop) (l : list A) (body : A -> M S unit) (s : S) :
  I s ->
  (forall a s, In a l -> I s -> exists s', body a s = (Ok tt, s') /\ I s') ->
  exists s', for_each l body s = (Ok tt, s') /\ I s'.
Proof.
  revert s. induction l as [|a l IH]; intros s Hs Hbody.
  - exists s. now split.
  - cbn [for_each]. unfold bindM.
    destruct (Hbody a s (or_introl eq_refl) Hs) as [s1 [-> H1]].
    apply IH; [exact H1|]. intros a' s' Ha' Hs'. apply Hbody; [now right|exact Hs'].
Qed.

Lemma for_accM_inv {S A B} (I : S -> B -> Prop) (l : list A) (body : B -> A -> M S B)
      (acc : B) (s : S) :
  I s acc ->
  (forall a acc s, In a l -> I s acc ->
                   exists acc' s', body acc a s = (Ok acc', s') /\ I s' acc') ->
  exists acc' s', for_accM l acc body s = (Ok acc', s') /\ I s' acc'.
Proof.
  revert acc s. induction l as [|a l IH]; intros acc s Hs Hbody.
  - exists acc, s. now split.
  - cbn [for_accM]. unfold bindM.
    destruct (Hbody a acc s (or_introl eq_refl) Hs) as [acc1 [s1 [-> H1]]].
    apply IH; [exact H1|]. intros a' acc' s' Ha' Hs'. apply Hbody; [now right|exact Hs'].
Qed.

Lemma is_rows_app (s : state) (b : list (list string)) :
  Forall2 (is_row (mk_state (heap s ++ map ORow b) (game s)))
          (seq (length (heap s)) (length b)) b.
Proof.
  apply Forall2_same_length_lookup_2; [now rewrite length_seq|].
  intros i r cells Hr Hc. apply lookup_seq in Hr. destruct Hr as [-> Hi].
  unfold is_row. cbn. rewrite lookup_app_r by lia.
  replace (length (heap s) + i - length (heap s))%nat with i by lia.
  rewrite list_lookup_fmap, Hc. reflexivity.
Qed.

(** The comprehension of [copy_board] puts a copy of every row at the
    end of the store. *)
Lemma copy_rows_spec (b : list (list string)) (rows : list nat) (s : state) :
  Forall2 (is_row s) rows b ->
  comprehension rows (fun r =>
      cells <~ read_row r ;; l <~ alloc (ORow cells) ;; ret (Some l)) s
  = (Ok (seq (length (heap s)) (length b)),
     mk_state (heap s ++ map ORow b) (game s)).
Proof.
  revert rows s. induction b as [|cells b IH]; intros rows s Hrows.
  - inversion Hrows; subst. cbn. rewrite app_nil_r. now destruct s.
  - inversion Hrows as [|r cells' rows' b' Hr Hrest]; subst.
    cbn [comprehension]. unfold bindM at 1. unfold bindM at 1.
    rewrite (read_row_spec s r cells Hr). unfold bindM at 1. unfold alloc at 1.
    cbn [ret].
    set (s1 := mk_state (heap s ++ [ORow cells]) (game s)).
    assert (Hrest1 : Forall2 (is_row s1) rows' b)
      by (apply (ext_is_rows s s1); [apply ext_alloc|exact Hrest]).
    unfold bindM at 1. rewrite (IH rows' s1 Hrest1).
    unfold s1. cbn [heap game length seq map ret].
    rewrite length_app. cbn [length]. rewrite Nat.add_1_r.
    now rewrite <- app_assoc.
Qed.

Lemma copy_board_spec (s : state) (bl : nat) (b : list (list string)) :
  is_board s bl b ->
  exists bl' s',
    copy_board bl s = (Ok bl', s') /\ ext s s' /\
    scratch (length (heap s)) s' bl' b.
Proof.
  intros [rows [Hb Hrows]]. unfold copy_board.
  unfold bindM at 1. rewrite (read_rows_spec s bl rows Hb).
  unfold bindM at 1. rewrite (copy_rows_spec b rows s Hrows).
  unfold alloc. cbn [heap game].
  eexists. eexists. split; [reflexivity|]. split.
  - split; [reflexivity|]. cbn. rewrite <- app_assoc. now apply prefix_app_r.
  - exists (seq (length (heap s)) (length b)). cbn [heap].
    split; [|split; [|split]].
    + rewrite list_lookup_middle; [reflexivity|]. reflexivity.
    + set (s1 := mk_state (heap s ++ map ORow b) (game s)).
      apply (ext_is_rows s1); [|apply is_rows_app].
      split; [reflexivity|]. cbn. now apply prefix_app_r.
    + apply List.Forall_forall. intros r Hr. apply in_seq in Hr. lia.
    + apply NoDup_ListNoDup, seq_NoDup.
Qed.

End TestBoards.

Section PlaceOnTestBoard.
Import Search.

Lemma pres_refl (n : nat) (s : state) : pres n s s.
Proof. repeat split. Qed.

Lemma pres_trans (n : nat) (s1 s2 s3 : state) :
  pres n s1 s2 -> pres n s2 s3 -> pres n s1 s3.
Proof.
  intros [Hg1 [Hl1 Hh1]] [Hg2 [Hl2 Hh2]]. split; [congruence|]. split; [congruence|].
  intros l Hl. rewrite Hh2 by assumption. now apply Hh1.
Qed.

(** A store that keeps the addresses below [n] keeps what a shorter store
    holds. *)
Lemma pres_ext (s0 s s' : state) (n : nat) :
  ext s0 s -> (length (heap s0) <= n)%nat -> pres n s s' -> ext s0 s'.
Proof.
  intros [Hg Hp] Hn [Hg' [Hlen Hsame]]. split; [congruence|].
  pose proof (prefix_length _ _ Hp) as Hle.
  exists (skipn (length (heap s0)) (heap s')).
  rewrite <- (take_drop (length (heap s0)) (heap s')) at 1. f_equal.
  apply list_eq. intros i. destruct (Nat.lt_ge_cases i (length (heap s0))) as [Hi|Hi].
  - rewrite lookup_take_lt by assumption. rewrite Hsame by lia.
    destruct (lookup_lt_is_Some_2 (heap s0) i Hi) as [o Ho]. rewrite Ho.
    eapply prefix_lookup_Some; eassumption.
  - rewrite lookup_take_ge by assumption. symmetry. now apply lookup_ge_None_2.
Qed.

Lemma pres_lookup (n : nat) (s s' : state) (l : nat) (o : obj) :
  pres n s s' -> (l < n)%nat -> heap s !! l = Some o -> heap s' !! l = Some o.
Proof. intros [_ [_ Hsame]] Hl Ho. now rewrite Hsame. Qed.

Lemma rows_lookup (s : state) (rows : list nat) (b : list (list string)) (y : Z) :
  Forall2 (is_row s) rows b -> 0 <= y < len b ->
  exists r row,
    rows !! Z.to_nat y = Some r /\ b !! Z.to_nat y = Some row /\
    is_row s r row /\ getitem rows y = Ok r.
Proof.
  intros Hrows Hy. pose proof (Forall2_length _ _ _ Hrows) as Hlen.
  destruct (getitem_in_range rows y) as [r [Hr Hget]]; [unfold len in *; lia|].
  destruct (lookup_lt_is_Some_2 b (Z.to_nat y)) as [row Hrow]; [unfold len in Hy; lia|].
  exists r, row. repeat split; try assumption.
  eapply Forall2_lookup_lr; eassumption.
Qed.

Lemma board_len_spec (s : state) (bl : nat) (b : list (list string)) :
  is_board s bl b -> board_len bl s = (Ok (len b), s).
Proof.
  intros [rows [Hb Hrows]]. unfold board_len, bindM.
  rewrite (read_rows_spec s bl rows Hb). cbn [ret].
  unfold len. now rewrite (Forall2_length _ _ _ Hrows).
Qed.

Lemma board_width_spec (s : state) (bl : nat) (w : Z) (b : list (list string)) :
  is_board s bl b -> rect w b -> 1 <= len b -> board_width bl s = (Ok w, s).
Proof.
  intros [rows [Hb Hrows]] Hrect Hlen. unfold board_width. unfold bindM at 1.
  rewrite (read_rows_spec s bl rows Hb).
  destruct (rows_lookup s rows b 0 Hrows) as [r0 [row0 [_ [Hrow0 [Hr0 Hget]]]]]; [lia|].
  unfold bindM at 1. unfold lift. rewrite Hget. unfold bindM at 1.
  rewrite (read_row_spec s r0 row0 Hr0). cbn [ret].
  now rewrite (rect_lookup w b _ _ Hrect Hrow0).
Qed.

(** [board[y][x] = v] on a test board writes one row object of that
    board: the grid changes as [paint] says and nothing below the rows of
    the board changes. *)
Lemma set_cell_store (n : nat) (s : state) (bl : nat) (w : Z)
      (b : list (list string)) (y x : Z) (v : string) :
  scratch n s bl b -> rect w b ->
  ((0 <=? y) && (y <? len b) && (0 <=? x) && (x <? w)) = true ->
  exists s',
    set_cell bl y x v s = (Ok tt, s') /\ pres n s s' /\
    scratch n s' bl (paint w (len b) v b (y, x)).
Proof.
  intros [rows [Hb [Hrows [Hn Hd]]]] Hrect Hin. unfold paint. rewrite Hin.
  apply andb_true_iff in Hin. destruct Hin as [Hin Hx1].
  apply andb_true_iff in Hin. destruct Hin as [Hin Hx0].
  apply andb_true_iff in Hin. destruct Hin as [Hy0 Hy1].
  apply Z.leb_le in Hy0, Hx0. apply Z.ltb_lt in Hy1, Hx1.
  destruct (rows_lookup s rows b y Hrows) as [r [row [Hr [Hrow [Hisrow Hget]]]]]; [lia|].
  pose proof (rect_lookup w b _ _ Hrect Hrow) as Hw.
  rewrite Hrow.
  assert (Hrn : (n <= r)%nat).
  { rewrite List.Forall_forall in Hn. apply Hn.
    apply list_elem_of_In. eapply list_elem_of_lookup_2. exact Hr. }
  assert (Hne : r <> bl).
  { intros ->. unfold is_row in Hisrow. congruence. }
  pose proof (lookup_lt_Some _ _ _ Hisrow) as Hrlt.
  exists (mk_state (<[r := ORow (<[Z.to_nat x := v]> row)]> (heap s)) (game s)).
  split; [|split].
  - unfold set_cell. unfold bindM at 1. rewrite (read_rows_spec s bl rows Hb).
    unfold bindM at 1. unfold lift at 1. rewrite Hget.
    unfold bindM at 1. rewrite (read_row_spec s r row Hisrow).
    unfold bindM at 1. unfold lift, setitem.
    rewrite (index_of_nonneg row x) by lia. reflexivity.
  - split; [reflexivity|]. split; [cbn; apply length_insert|].
    intros l Hl. cbn. apply list_lookup_insert_ne. lia.
  - exists rows. cbn [heap]. split; [|split; [|split; assumption]].
    + rewrite list_lookup_insert_ne by assumption. exact Hb.
    + apply Forall2_same_length_lookup_2.
      * rewrite length_insert. eapply Forall2_length. exact Hrows.
      * intros i ri ci Hri Hci. unfold is_row. cbn [heap].
        destruct (Nat.eq_dec i (Z.to_nat y)) as [->|Hi].
        -- rewrite Hr in Hri. inversion Hri; subst ri.
           rewrite list_lookup_insert_eq in Hci
             by (eapply lookup_lt_Some; exact Hrow).
           inversion Hci; subst ci. now apply list_lookup_insert_eq.
        -- rewrite list_lookup_insert_ne in Hci by congruence.
           assert (Hrne : r <> ri).
           { intros <-. apply Hi. eapply NoDup_lookup; eassumption. }
           rewrite list_lookup_insert_ne by assumption.
           eapply (Forall2_lookup_lr _ _ _ _ _ _ Hrows); eassumption.
Qed.

Lemma for_each_fold {S A B} (R : S -> B -> Prop) (f : B -> A -> B)
      (l : list A) (body : A -> M S unit) :
  (forall a s b, In a l -> R s b -> exists s', body a s = (Ok tt, s') /\ R s' (f b a)) ->
  forall s b, R s b ->
    exists s', for_each l body s = (Ok tt, s') /\ R s' (fold_left f l b).
Proof.
  induction l as [|a l IH]; intros Hbody s b Hs.
  - exists s. now split.
  - cbn [for_each fold_left]. unfold bindM.
    destruct (Hbody a s b (or_introl eq_refl) Hs) as [s1 [-> H1]].
    apply IH; [|exact H1]. intros a' s' b' Ha'. apply Hbody. now right.
Qed.

Lemma for_each_fold_flat {S A B C} (R : S -> C -> Prop) (g : C -> B -> C)
      (k : A -> list B) (l : list A) (body : A -> M S unit) :
  (forall a s c, In a l -> R s c ->
                 exists s', body a s = (Ok tt, s') /\ R s' (fold_left g (k a) c)) ->
  forall s c, R s c ->
    exists s', for_each l body s = (Ok tt, s') /\ R s' (fold_left g (flat_map k l) c).
Proof.
  induction l as [|a l IH]; intros Hbody s c Hs.
  - exists s. now split.
  - cbn [for_each flat_map]. rewrite fold_left_app. unfold bindM.
    destruct (Hbody a s c (or_introl eq_refl) Hs) as [s1 [-> H1]].
    apply IH; [|exact H1]. intros a' s' c' Ha'. apply Hbody. now right.
Qed.

(** The loops that write a test piece into a test board raise nothing,
    write the cells of the piece that lie on the board, and change nothing
    below the rows of the board. *)
Lemma place_on_spec (n : nat) (s : state) (pl bl : nat) (p : Tetromino.t) (w : Z)
      (b : list (list string)) :
  is_piece s pl p -> (pl < n)%nat -> scratch n s bl b -> rect w b ->
  exists s',
    place_on pl bl s = (Ok tt, s') /\ pres n s s' /\
    scratch n s' bl
      (fold_left (paint w (len b) (Tetromino.color p)) (Tetromino.get_cells p) b).
Proof.
  intros Hp Hpl Hscr Hrect.
  set (h := len b). set (col := Tetromino.color p).
  set (R := fun (s' : state) (b' : list (list string)) =>
              pres n s s' /\ scratch n s' bl b' /\ rect w b' /\ len b' = h).
  assert (Hpiece : forall s' b', R s' b' -> is_piece s' pl p).
  { intros s' b' [Hpres _]. now apply (pres_lookup n s s'). }
  unfold place_on. unfold bindM at 1. rewrite (read_piece_spec s pl p Hp).
  unfold Tetromino.get_cells, Tetromino.cells_of.
  match goal with
  | |- context [flat_map ?k (enumerate (Tetromino.shape p))] =>
      match goal with
      | |- exists s', for_each ?l ?body s = _ /\ _ =>
          destruct (for_each_fold_flat R (paint w h col) k l body) with (s := s) (c := b)
            as [s' [Hrun [Hpres [Hscr' _]]]]
      end
  end.
  - intros [r row] s1 b1 _ H1.
    apply (for_each_fold_flat R (paint w h col)); [|exact H1].
    intros [c val] s2 b2 _ H2. destruct (val =? 0); [exists s2; split; [reflexivity|exact H2]|].
    pose proof (Hpiece s2 b2 H2) as Hp2. destruct H2 as [Hpres2 [Hscr2 [Hrect2 Hlen2]]].
    pose proof (scratch_is_board _ _ _ _ Hscr2) as Hb2.
    unfold bindM at 1. rewrite (read_piece_spec s2 pl p Hp2). cbv zeta.
    unfold bindM at 1. rewrite (read_piece_spec s2 pl p Hp2).
    cbn [fold_left]. unfold paint at 1.
    set (y := Tetromino.y p + r). set (x := Tetromino.x p + c).
    destruct (Z.leb_spec 0 y) as [Hy0|Hy0]; cbn [andb].
    + unfold bindM at 1. rewrite (board_len_spec s2 bl b2 Hb2). rewrite Hlen2.
      destruct (Z.ltb_spec y h) as [Hy1|Hy1]; cbn [andb]; [|exists s2; split; [reflexivity|exact (conj Hpres2 (conj Hscr2 (conj Hrect2 Hlen2)))]].
      destruct (Z.leb_spec 0 x) as [Hx0|Hx0]; cbn [andb].
      * unfold bindM at 1.
        rewrite (board_width_spec s2 bl w b2 Hb2 Hrect2) by lia.
        destruct (Z.ltb_spec x w) as [Hx1|Hx1]; cbn [andb]; [|exists s2; split; [reflexivity|exact (conj Hpres2 (conj Hscr2 (conj Hrect2 Hlen2)))]].
        unfold bindM at 1. rewrite (read_piece_spec s2 pl p Hp2).
        destruct (set_cell_store n s2 bl w b2 y x col Hscr2 Hrect2)
          as [s3 [Hset [Hpres3 Hscr3]]].
        { rewrite Hlen2.
          destruct (Z.leb_spec 0 y), (Z.ltb_spec y h), (Z.leb_spec 0 x),
                   (Z.ltb_spec x w); try lia; reflexivity. }
        exists s3. split; [exact Hset|].
        assert (Hgoal : paint w h col b2 (y, x) = paint w (len b2) col b2 (y, x))
          by now rewrite Hlen2.
        unfold paint at 1 in Hgoal.
        destruct (Z.leb_spec 0 y), (Z.ltb_spec y h), (Z.leb_spec 0 x),
                 (Z.ltb_spec x w); try lia. cbn [andb] in Hgoal.
        rewrite Hgoal.
        destruct (paint_ok w (len b2) col b2 (y, x) eq_refl Hrect2) as [Hl3 Hr3].
        split; [now apply (pres_trans n s s2 s3)|]. split; [exact Hscr3|].
        split; [exact Hr3|]. now rewrite Hl3.
      * unfold bindM at 1. cbn [ret]. cbn [andb].
        exists s2; split; [reflexivity|exact (conj Hpres2 (conj Hscr2 (conj Hrect2 Hlen2)))].
    + unfold bindM at 1. cbn [ret].
      exists s2; split; [reflexivity|exact (conj Hpres2 (conj Hscr2 (conj Hrect2 Hlen2)))].
  - split; [apply pres_refl|]. split; [exact Hscr|]. split; [exact Hrect|reflexivity].
  - exists s'. split; [exact Hrun|]. split; [exact Hpres|exact Hscr'].
Qed.

End PlaceOnTestBoard.

Section ClearTestBoard.
Import Search.

(** The comprehension of [_clear_lines_from_board] puts a copy of every
    row that is not full at the end of the store. *)
Lemma kept_rows_spec (b : list (list string)) (rows : list nat) (s : state) :
  Forall2 (is_row s) rows b ->
  comprehension rows (fun r =>
      cells <~ read_row r ;;
      if negb (forallb (fun cell => str_ne cell " ") cells) then
        cells' <~ read_row r ;;
        l <~ alloc (ORow cells') ;;
        ret (Some l)
      else ret None) s
  = (Ok (seq (length (heap s)) (length (kept_rows b))),
     mk_state (heap s ++ map ORow (kept_rows b)) (game s)).
Proof.
  revert rows s. induction b as [|cells b IH]; intros rows s Hrows.
  - inversion Hrows; subst. cbn. rewrite app_nil_r. now destruct s.
  - inversion Hrows as [|r cells' rows' b' Hr Hrest]; subst.
    cbn [comprehension]. unfold bindM at 1. unfold bindM at 1.
    rewrite (read_row_spec s r cells Hr).
    unfold kept_rows. cbn [List.filter]. fold (kept_rows b).
    change (forallb (fun cell => str_ne cell " ") cells) with (TetrisGame.row_full cells).
    destruct (TetrisGame.row_full cells); cbn [negb].
    + cbn [ret]. unfold bindM at 1. rewrite (IH rows' s Hrest). reflexivity.
    + unfold bindM at 1. rewrite (read_row_spec s r cells Hr).
      unfold bindM at 1. unfold alloc at 1. cbn [ret].
      set (s1 := mk_state (heap s ++ [ORow cells]) (game s)).
      assert (Hrest1 : Forall2 (is_row s1) rows' b)
        by (apply (ext_is_rows s s1); [apply ext_alloc|exact Hrest]).
      unfold bindM at 1. rewrite (IH rows' s1 Hrest1).
      unfold s1. cbn [heap game length seq map ret].
      rewrite length_app. cbn [length]. rewrite Nat.add_1_r.
      now rewrite <- app_assoc.
Qed.

Lemma fold_cons_repeat {A B} (e : A) (l : list B) (acc : list A) :
  fold_left (fun (acc : list A) (_ : B) => e :: acc) l acc = repeat e (length l) ++ acc.
Proof.
  revert acc. induction l as [|x l IH]; intros acc; [reflexivity|].
  cbn [fold_left length]. rewrite IH. now rewrite repeat_snoc_app.
Qed.

(** [_clear_lines_from_board] raises nothing on a grid of rows of equal
    length, builds its result from new objects only, and the result is the
    grid that [clear_lines] leaves in the game: the rows that are not full,
    in their order, under as many empty rows as there were full rows. *)
Lemma clear_lines_from_board_spec (s : state) (bl : nat) (w : Z)
      (b : list (list string)) :
  is_board s bl b -> rect w b ->
  exists nb s',
    _clear_lines_from_board bl s = (Ok nb, s') /\ ext s s' /\
    is_board s' nb (cleared_board w b).
Proof.
  intros Hboard Hrect. pose proof Hboard as [rows [Hb Hrows]].
  unfold _clear_lines_from_board.
  unfold bindM at 1. rewrite (read_rows_spec s bl rows Hb).
  unfold bindM at 1. rewrite (kept_rows_spec b rows s Hrows).
  unfold bindM at 1. unfold alloc at 1. cbn [heap game].
  set (s1 := mk_state (heap s ++ map ORow (kept_rows b)) (game s)).
  set (nb := length (heap s ++ map ORow (kept_rows b))).
  set (s2 := mk_state ((heap s ++ map ORow (kept_rows b))
                         ++ [OBoard (seq (length (heap s)) (length (kept_rows b)))])
                      (game s)).
  assert (H01 : ext s s1) by (split; [reflexivity|now apply prefix_app_r]).
  assert (H12 : ext s1 s2) by apply (ext_alloc s1).
  assert (H02 : ext s s2) by now apply (ext_trans s s1 s2).
  assert (Hnb : (length (heap s) <= nb)%nat) by (unfold nb; rewrite length_app; lia).
  assert (Hnew : is_board s2 nb (kept_rows b)).
  { exists (seq (length (heap s)) (length (kept_rows b))). split.
    - unfold s2, nb. cbn [heap]. now rewrite list_lookup_middle.
    - apply (ext_is_rows s1 s2 _ _ H12). apply is_rows_app. }
  unfold bindM at 1.
  rewrite (board_len_spec s2 bl b (ext_is_board s s2 bl b H02 Hboard)).
  cbv zeta.
  set (R := fun (s' : state) (bv : list (list string)) =>
              ext s s' /\ is_board s' nb bv).
  match goal with
  | |- context [for_each ?l ?body] =>
      destruct (for_each_fold R (fun bv _ => TetrisGame.empty_row w :: bv) l body)
        with (s := s2) (b := kept_rows b) as [s3 [Hrun [H03 Hres]]]
  end.
  - intros a s' bv Ha [He [rs0 [Hrs0 Hrows0]]]. apply in_range in Ha.
    pose proof (lookup_lt_Some _ _ _ Hrs0) as Hlt0.
    assert (Hbv : is_board s' nb bv) by (exists rs0; now split).
    assert (Hlen : 1 <= len b).
    { pose proof (len_nonneg (seq (length (heap s)) (length (kept_rows b)))). lia. }
    unfold bindM at 1.
    rewrite (board_width_spec s' bl w b (ext_is_board s s' bl b He Hboard) Hrect Hlen).
    unfold bindM at 1. unfold alloc at 1.
    set (s4 := mk_state (heap s' ++ [ORow (TetrisGame.empty_row w)]) (game s')).
    assert (H4 : ext s' s4) by apply (ext_alloc s').
    destruct (ext_is_board s' s4 nb bv H4 Hbv) as [rs [Hrs Hrows4]].
    unfold bindM at 1. rewrite (read_rows_spec s4 nb rs Hrs).
    unfold write, modify.
    eexists. split; [reflexivity|]. split.
    + apply ext_write; [|exact Hnb]. now apply (ext_trans s s' s4).
    + exists (length (heap s') :: rs).
      pose proof (lookup_lt_Some _ _ _ Hrs) as Hlt.
      cbn [heap]. split; [now apply list_lookup_insert_eq|].
      constructor.
      * unfold is_row. cbn [heap].
        rewrite list_lookup_insert_ne by lia.
        unfold s4. cbn [heap]. now rewrite list_lookup_middle.
      * apply Forall2_same_length_lookup_2; [eapply Forall2_length; exact Hrows4|].
        intros i r c Hr Hc. unfold is_row. cbn [heap].
        pose proof (Forall2_lookup_lr _ _ _ _ _ _ Hrows4 Hr Hc) as Hrow.
        rewrite list_lookup_insert_ne; [exact Hrow|].
        intros <-. unfold is_row in Hrow. congruence.
  - split; [exact H02|exact Hnew].
  - unfold bindM at 1. rewrite Hrun. cbn [ret].
    exists nb, s3. split; [reflexivity|]. split; [exact H03|].
    rewrite fold_cons_repeat in Hres. unfold cleared_board.
    replace (length (full_rows b))
      with (length (range (len b - len (seq (length (heap s)) (length (kept_rows b))))));
      [exact Hres|].
    unfold range, len. rewrite length_map, !length_seq.
    pose proof (filter_split_length TetrisGame.row_full b) as Hsplit.
    fold (full_rows b) in Hsplit. fold (kept_rows b) in Hsplit. lia.
Qed.

Lemma returns_evaluate_board (w : Z) (b : list (list string))
      (piece_type : option string) :
  rect w b -> 1 <= len b -> 2 <= w -> returns (TetrisAI.evaluate_board b piece_type).
Proof.
  intros Hrect Hlen Hw. unfold TetrisAI.evaluate_board.
  destruct (returns_evaluate_locals w b Hrect Hlen piece_type Hw) as [l ->].
  cbn [bind]. destruct (TetrisAI.is_dangerous l); eexists; reflexivity.
Qed.

(** [evaluate_board] on a board of the store reads the board and changes
    nothing. *)
Lemma evaluate_board_store (s : state) (bl : nat) (w : Z) (b : list (list string))
      (piece_type : string) :
  is_board s bl b -> rect w b -> 2 <= w -> 1 <= len b ->
  exists v, evaluate_board bl piece_type s = (Ok v, s).
Proof.
  intros Hb Hrect Hw Hlen. unfold evaluate_board. unfold bindM at 1.
  rewrite (load_board_spec s bl b Hb). unfold lift.
  destruct (returns_evaluate_board w b (Some piece_type) Hrect Hlen Hw) as [v ->].
  now exists v.
Qed.

End ClearTestBoard.

Section SearchLoops.
Import Search.

Variable g : TetrisGame.t.
Hypothesis Hok : board_ok g.
Hypothesis Hwidth : 2 <= TetrisGame.width g.
Hypothesis Hheight : 1 <= TetrisGame.height g.
Hypothesis Hcur : catalog_piece (TetrisGame.current_piece g).
Hypothesis Hnext : catalog_piece (TetrisGame.next_piece g).

Variable fuel : nat.
Hypothesis Hfuel : TetrisGame.height g <= Z.of_nat fuel.

Lemma fold_paint_ok (w h : Z) (v : string) (cells : list (Z * Z))
      (b : list (list string)) :
  len b = h -> rect w b ->
  len (fold_left (paint w h v) cells b) = h /\
  rect w (fold_left (paint w h v) cells b).
Proof.
  revert b. induction cells as [|c cells IH]; intros b Hh Hw; [now split|].
  cbn [fold_left]. destruct (paint_ok w h v b c Hh Hw) as [Hh' Hw']. now apply IH.
Qed.

Lemma set_x_moved_to (x x0 y0 : Z) (q : Tetromino.t) :
  Tetromino.set_x x (moved_to x0 y0 q) = moved_to x y0 q.
Proof. now destruct q. Qed.

Lemma set_y_moved_to (y x0 y0 : Z) (q : Tetromino.t) :
  Tetromino.set_y y (moved_to x0 y0 q) = moved_to x0 y q.
Proof. now destruct q. Qed.

Lemma catalog_moved_to (x y : Z) (q : Tetromino.t) :
  catalog_piece q -> catalog_piece (moved_to x y q).
Proof. intros H. exact H. Qed.

(** The part of a candidate that the two searches share: it raises
    nothing, writes to the test piece and to new objects only, and when it
    yields a test board the test piece rests at a legal row of the board
    of the game. *)
Lemma try_place_spec (sr s : state) (tp : nat) (q0 : Tetromino.t) (x0 y0 x : Z) :
  represents sr g -> ext sr s -> (length (heap sr) <= tp)%nat ->
  is_piece s tp (moved_to x0 y0 q0) -> catalog_piece q0 ->
  exists r s' y',
    try_place fuel tp x s = (Ok r, s') /\ ext sr s' /\
    is_piece s' tp (moved_to x y' q0) /\
    match r with
    | Some nb =>
        (exists b', is_board s' nb b' /\ rect (TetrisGame.width g) b' /\
                    len b' = TetrisGame.height g) /\
        legal g (moved_to x y' q0) 0 0 = true /\
        legal g (moved_to x y' q0) 0 1 = false
    | None => True
    end.
Proof.
  intros Hrep He Htp Hp Hcat. destruct Hok as [Hlen Hrect].
  assert (Hwrite : forall s q q', ext sr s -> is_piece s tp q ->
            ext sr (mk_state (<[tp := OPiece q']> (heap s)) (game s))).
  { intros s1 q q' He1 _. now apply ext_write. }
  unfold try_place. unfold bindM at 1. rewrite (update_piece_spec s tp _ _ Hp).
  rewrite set_x_moved_to.
  set (s1 := mk_state (<[tp := OPiece (moved_to x y0 q0)]> (heap s)) (game s)).
  assert (He1 : ext sr s1) by now apply (Hwrite s (moved_to x0 y0 q0)).
  assert (Hp1 : is_piece s1 tp (moved_to x y0 q0)) by now apply (is_piece_write s tp _ _ Hp).
  unfold bindM at 1.
  rewrite (valid_position_store s1 g tp _ 0 0 (ext_represents sr s1 g He1 Hrep) Hok Hp1).
  destruct (legal g (moved_to x y0 q0) 0 0) eqn:Hl0; cbn [negb];
    [|exists None, s1, y0; split; [reflexivity|]; split; [exact He1|]; split; [exact Hp1|exact I]].
  unfold bindM at 1. rewrite (update_piece_spec s1 tp _ _ Hp1). rewrite set_y_moved_to.
  set (s2 := mk_state (<[tp := OPiece (moved_to x 0 q0)]> (heap s1)) (game s1)).
  assert (He2 : ext sr s2) by now apply (Hwrite s1 (moved_to x y0 q0)).
  assert (Hp2 : is_piece s2 tp (moved_to x 0 q0)) by now apply (is_piece_write s1 tp _ _ Hp1).
  destruct (drop_spec g (fun s => ext sr s) (valid_position tp 0 1) tp) with
    (fuel := fuel) (s := s2) (p := moved_to x 0 q0)
    as [s3 [y' [Hdrop [He3 [Hp3 Hrest]]]]].
  - intros s' q He' Hq.
    now apply (valid_position_store s' g tp q 0 1 (ext_represents sr s' g He' Hrep)).
  - exact Hwrite.
  - exact He2.
  - exact Hp2.
  - now apply catalog_moved_to.
  - lia.
  - cbn. lia.
  - rewrite set_y_moved_to in Hp3, Hrest.
    unfold bindM at 1. rewrite Hdrop. unfold bindM at 1.
    rewrite (valid_position_store s3 g tp _ 0 0 (ext_represents sr s3 g He3 Hrep) Hok Hp3).
    destruct (legal g (moved_to x y' q0) 0 0) eqn:Hl3; cbn [negb];
      [|exists None, s3, y'; split; [reflexivity|]; split; [exact He3|]; split; [exact Hp3|exact I]].
    unfold bindM at 1. cbn [get].
    destruct (ext_represents sr s3 g He3 Hrep) as [Hb3 _].
    destruct (copy_board_spec s3 _ _ Hb3) as [bl [s4 [Hcopy [He4 Hscr4]]]].
    unfold bindM at 1. rewrite Hcopy.
    pose proof (lookup_lt_Some _ _ _ Hp3) as Htp3.
    destruct (place_on_spec (length (heap s3)) s4 tp bl (moved_to x y' q0)
                (TetrisGame.width g) (TetrisGame.board g)
                (ext_is_piece s3 s4 tp _ He4 Hp3) Htp3 Hscr4 Hrect)
      as [s5 [Hplace [Hpres5 Hscr5]]].
    unfold bindM at 1. rewrite Hplace.
    destruct (fold_paint_ok (TetrisGame.width g) (len (TetrisGame.board g))
                (Tetromino.color (moved_to x y' q0))
                (Tetromino.get_cells (moved_to x y' q0)) (TetrisGame.board g)
                eq_refl Hrect) as [Hlen5 Hrect5].
    destruct (clear_lines_from_board_spec s5 bl (TetrisGame.width g) _
                (scratch_is_board _ _ _ _ Hscr5) Hrect5) as [nb [s6 [Hclear [He6 Hb6]]]].
    unfold bindM at 1. rewrite Hclear. cbn [ret].
    assert (He5 : ext sr s5).
    { apply (pres_ext sr s4 s5 (length (heap s3))); [|  |exact Hpres5].
      - apply (ext_trans sr s3 s4); assumption.
      - now apply ext_length. }
    exists (Some nb), s6, y'. split; [reflexivity|].
    split; [now apply (ext_trans sr s5 s6)|]. split.
    + apply (ext_is_piece s5 s6 tp _ He6).
      apply (pres_lookup (length (heap s3)) s4 s5 tp _ Hpres5 Htp3).
      now apply (ext_is_piece s3 s4).
    + split; [|now split]. eexists. split; [exact Hb6|]. split.
      * now apply cleared_board_rows.
      * unfold len in *. rewrite cleared_board_length. rewrite Hlen5. exact Hlen.
Qed.


Lemma moved_to_same (q : Tetromino.t) : moved_to (Tetromino.x q) (Tetromino.y q) q = q.
Proof. now destruct q. Qed.

(** One placement of the next piece on a test board: it raises nothing
    and writes to its test piece and to new objects only. *)
Lemma try_next_spec (sr s : state) (np tp2 nb : nat) (pn q0 : Tetromino.t)
      (b1 : list (list string)) (x0 y0 x2 : Z) (best : float) :
  ext sr s -> (length (heap sr) <= tp2)%nat ->
  is_piece s tp2 (moved_to x0 y0 q0) -> catalog_piece q0 ->
  is_board sr nb b1 -> rect (TetrisGame.width g) b1 -> len b1 = TetrisGame.height g ->
  is_piece sr np pn ->
  exists v s' y',
    try_next fuel np tp2 nb best x2 s = (Ok v, s') /\ ext sr s' /\
    is_piece s' tp2 (moved_to x2 y' q0).
Proof.
  intros He Htp Hp Hcat Hb1 Hrect1 Hlen1 Hnp.
  set (G := on_board (TetrisGame.width g) b1).
  assert (Hrows1 : 1 <= len b1) by lia.
  assert (Hwrite : forall s q q', ext sr s -> is_piece s tp2 q ->
            ext sr (mk_state (<[tp2 := OPiece q']> (heap s)) (game s))).
  { intros s1 q q' He1 _. now apply ext_write. }
  assert (Hvalid : forall s q oy, ext sr s -> is_piece s tp2 q ->
            _is_valid_on_board tp2 nb 0 oy s = (Ok (legal G q 0 oy), s)).
  { intros s1 q oy He1 Hq.
    apply (is_valid_on_board_store s1 tp2 nb q (TetrisGame.width g) b1 0 oy Hq);
      [now apply (ext_is_board sr s1)|exact Hrect1|exact Hrows1]. }
  unfold try_next. unfold bindM at 1. rewrite (update_piece_spec s tp2 _ _ Hp).
  rewrite set_x_moved_to.
  set (s1 := mk_state (<[tp2 := OPiece (moved_to x2 y0 q0)]> (heap s)) (game s)).
  assert (He1 : ext sr s1) by now apply (Hwrite s (moved_to x0 y0 q0)).
  assert (Hp1 : is_piece s1 tp2 (moved_to x2 y0 q0))
    by now apply (is_piece_write s tp2 _ _ Hp).
  unfold bindM at 1. rewrite (Hvalid s1 _ 0 He1 Hp1).
  destruct (legal G (moved_to x2 y0 q0) 0 0) eqn:Hl0; cbn [negb];
    [|exists best, s1, y0; split; [reflexivity|]; split; [exact He1|exact Hp1]].
  unfold bindM at 1. rewrite (update_piece_spec s1 tp2 _ _ Hp1). rewrite set_y_moved_to.
  set (s2 := mk_state (<[tp2 := OPiece (moved_to x2 0 q0)]> (heap s1)) (game s1)).
  assert (He2 : ext sr s2) by now apply (Hwrite s1 (moved_to x2 y0 q0)).
  assert (Hp2 : is_piece s2 tp2 (moved_to x2 0 q0))
    by now apply (is_piece_write s1 tp2 _ _ Hp1).
  destruct (drop_spec G (fun s => ext sr s) (_is_valid_on_board tp2 nb 0 1) tp2) with
    (fuel := fuel) (s := s2) (p := moved_to x2 0 q0)
    as [s3 [y' [Hdrop [He3 [Hp3 Hrest]]]]].
  - intros s' q He' Hq. now apply Hvalid.
  - exact Hwrite.
  - exact He2.
  - exact Hp2.
  - now apply catalog_moved_to.
  - lia.
  - cbn. lia.
  - rewrite set_y_moved_to in Hp3, Hrest.
    unfold bindM at 1. rewrite Hdrop. unfold bindM at 1.
    rewrite (Hvalid s3 _ 0 He3 Hp3).
    destruct (legal G (moved_to x2 y' q0) 0 0) eqn:Hl3; cbn [negb];
      [|exists best, s3, y'; split; [reflexivity|]; split; [exact He3|exact Hp3]].
    destruct (copy_board_spec s3 nb b1 (ext_is_board sr s3 nb b1 He3 Hb1))
      as [bl [s4 [Hcopy [He4 Hscr4]]]].
    unfold bindM at 1. rewrite Hcopy.
    pose proof (lookup_lt_Some _ _ _ Hp3) as Htp3.
    destruct (place_on_spec (length (heap s3)) s4 tp2 bl (moved_to x2 y' q0)
                (TetrisGame.width g) b1
                (ext_is_piece s3 s4 tp2 _ He4 Hp3) Htp3 Hscr4 Hrect1)
      as [s5 [Hplace [Hpres5 Hscr5]]].
    unfold bindM at 1. rewrite Hplace.
    destruct (fold_paint_ok (TetrisGame.width g) (len b1)
                (Tetromino.color (moved_to x2 y' q0))
                (Tetromino.get_cells (moved_to x2 y' q0)) b1
                eq_refl Hrect1) as [Hlen5 Hrect5].
    destruct (clear_lines_from_board_spec s5 bl (TetrisGame.width g) _
                (scratch_is_board _ _ _ _ Hscr5) Hrect5) as [nb2 [s6 [Hclear [He6 Hb6]]]].
    unfold bindM at 1. rewrite Hclear.
    assert (He5 : ext sr s5).
    { apply (pres_ext sr s4 s5 (length (heap s3))); [|  |exact Hpres5].
      - apply (ext_trans sr s3 s4); assumption.
      - now apply ext_length. }
    assert (He06 : ext sr s6) by now apply (ext_trans sr s5 s6).
    unfold bindM at 1. rewrite (read_piece_spec s6 np pn (ext_is_piece sr s6 np pn He06 Hnp)).
    destruct (evaluate_board_store s6 nb2 (TetrisGame.width g) _ (Tetromino.type pn) Hb6)
      as [v Hv].
    + now apply cleared_board_rows.
    + exact Hwidth.
    + unfold len in *. rewrite cleared_board_length. rewrite Hlen5. lia.
    + unfold bindM at 1. rewrite Hv. cbn [ret].
      exists (fmax best v), s6, y'. split; [reflexivity|]. split; [exact He06|].
      apply (ext_is_piece s5 s6 tp2 _ He6).
      apply (pres_lookup (length (heap s3)) s4 s5 tp2 _ Hpres5 Htp3).
      now apply (ext_is_piece s3 s4).
Qed.

(** The two loops over the placements of the next piece raise nothing
    and write to new objects only. *)
Lemma best_next_spec (s : state) (np nb : nat) (pn : Tetromino.t)
      (b1 : list (list string)) :
  is_board s nb b1 -> rect (TetrisGame.width g) b1 -> len b1 = TetrisGame.height g ->
  is_piece s np pn -> catalog_piece pn ->
  exists v s', best_next fuel np nb s = (Ok v, s') /\ ext s s'.
Proof.
  intros Hb1 Hrect1 Hlen1 Hnp [Hget [Hrot Hsh]].
  unfold best_next. unfold bindM at 1. rewrite (read_piece_spec s np pn Hnp). cbv zeta.
  apply (for_accM_inv (fun s' (_ : float) => ext s s')); [apply ext_refl|].
  intros rotation2 acc s1 Hr He1. apply in_range in Hr.
  unfold bindM at 1. rewrite (read_piece_spec s1 np pn (ext_is_piece s s1 np pn He1 Hnp)).
  destruct (new_test_piece_spec s1 (Tetromino.type pn) (Tetromino.shapes pn) rotation2
              Hget Hr) as [p [Hnew [Hcat _]]].
  unfold bindM at 1. rewrite Hnew.
  set (s2 := mk_state (heap s1 ++ [OPiece p]) (game s1)).
  assert (He12 : ext s1 s2) by apply ext_alloc.
  assert (He2 : ext s s2) by now apply (ext_trans s s1 s2).
  unfold bindM at 1.
  rewrite (board_width_spec s2 nb (TetrisGame.width g) b1
             (ext_is_board s s2 nb b1 He2 Hb1) Hrect1) by lia.
  destruct (for_accM_inv
              (fun s' (_ : float) =>
                 ext s s' /\ exists x0 y0, is_piece s' (length (heap s1)) (moved_to x0 y0 p))
              (range2 (-2) (TetrisGame.width g + 2))
              (try_next fuel np (length (heap s1)) nb) acc s2)
    as [acc' [s3 [Hrun [He3 _]]]].
  - split; [exact He2|]. exists (Tetromino.x p), (Tetromino.y p).
    rewrite moved_to_same. unfold is_piece, s2. cbn [heap].
    now rewrite list_lookup_middle.
  - intros x2 acc1 s' _ [He' [x0 [y0 Hp']]].
    destruct (try_next_spec s s' np (length (heap s1)) nb pn p b1 x0 y0 x2 acc1)
      as [v [s'' [y' [Htry [He'' Hp'']]]]]; try assumption.
    + now apply ext_length.
    + exists v, s''. split; [exact Htry|]. split; [exact He''|]. now exists x2, y'.
  - exists acc', s3. now split.
Qed.


Lemma represents_width (s : state) : represents s g -> width (game s) = TetrisGame.width g.
Proof. intros [_ [_ [_ Hg]]]. now rewrite Hg. Qed.

(** A candidate the search accepts is a resting move. *)
Lemma resting_candidate (q0 : Tetromino.t) (rotation x y' : Z) :
  catalog_piece q0 ->
  Tetromino.type q0 = Tetromino.type (TetrisGame.current_piece g) ->
  Tetromino.rotation q0 = rotation ->
  0 <= rotation < len (Tetromino.shapes (TetrisGame.current_piece g)) ->
  -2 <= x < TetrisGame.width g + 2 ->
  legal g (moved_to x y' q0) 0 0 = true ->
  legal g (moved_to x y' q0) 0 1 = false ->
  resting_move g (Some (rotation, x)).
Proof.
  intros Hcat Hty Hrot Hr Hx Hl0 Hl1. split; [exact Hr|]. split; [exact Hx|].
  exists (moved_to x y' q0). split; [now apply catalog_moved_to|].
  split; [exact Hty|]. split; [exact Hrot|]. split; [reflexivity|]. now split.
Qed.

(** The body of the column loop of the two-piece search. *)
Lemma try_current_spec (sr s : state) (tp : nat) (q0 : Tetromino.t)
      (x0 y0 rotation x : Z) (best : float * option (Z * Z)) :
  represents sr g -> ext sr s -> (length (heap sr) <= tp)%nat ->
  is_piece s tp (moved_to x0 y0 q0) -> catalog_piece q0 ->
  Tetromino.type q0 = Tetromino.type (TetrisGame.current_piece g) ->
  Tetromino.rotation q0 = rotation ->
  0 <= rotation < len (Tetromino.shapes (TetrisGame.current_piece g)) ->
  -2 <= x < TetrisGame.width g + 2 ->
  resting_move g (snd best) ->
  exists best' s' y',
    try_current fuel (current_piece (game sr)) (next_piece (game sr)) tp rotation best x s
      = (Ok best', s') /\
    ext sr s' /\ is_piece s' tp (moved_to x y' q0) /\ resting_move g (snd best').
Proof.
  intros Hrep He Htp Hp Hcat Hty Hrot Hr Hx Hbest.
  destruct (try_place_spec sr s tp q0 x0 y0 x Hrep He Htp Hp Hcat)
    as [r [s1 [y' [Hplace [He1 [Hp1 Hr1]]]]]].
  unfold try_current. unfold bindM at 1. rewrite Hplace.
  destruct r as [nb|];
    [|exists best, s1, y'; split; [reflexivity|]; split; [exact He1|];
      split; [exact Hp1|exact Hbest]].
  destruct Hr1 as [[b1 [Hb1 [Hrect1 Hlen1]]] [Hl0 Hl1]].
  destruct (ext_represents sr s1 g He1 Hrep) as [_ [Hc1 [Hn1 _]]].
  destruct He1 as [Hgame1 Hpre1]. rewrite Hgame1 in Hc1, Hn1.
  unfold bindM at 1. rewrite (read_piece_spec s1 _ _ Hc1).
  destruct (evaluate_board_store s1 nb (TetrisGame.width g) b1
              (Tetromino.type (TetrisGame.current_piece g)) Hb1 Hrect1 Hwidth)
    as [v Hv]; [lia|].
  unfold bindM at 1. rewrite Hv.
  destruct (best_next_spec s1 (next_piece (game sr)) nb (TetrisGame.next_piece g) b1
              Hb1 Hrect1 Hlen1 Hn1 Hnext) as [v2 [s2 [Hnextrun He12]]].
  unfold bindM at 1. rewrite Hnextrun. cbv zeta.
  assert (He2 : ext sr s2) by (apply (ext_trans sr s1 s2); [now split|exact He12]).
  assert (Hp2 : is_piece s2 tp (moved_to x y' q0)) by now apply (ext_is_piece s1 s2).
  match goal with
  | |- context [if PrimFloat.ltb ?a ?c then _ else _] => destruct (PrimFloat.ltb a c)
  end.
  - eexists. exists s2, y'. split; [reflexivity|]. split; [exact He2|].
    split; [exact Hp2|]. cbn [snd]. now apply (resting_candidate q0 rotation x y').
  - exists best, s2, y'. split; [reflexivity|]. split; [exact He2|].
    split; [exact Hp2|exact Hbest].
Qed.

(** The body of the column loop of the search without lookahead. *)
Lemma try_simple_spec (sr s : state) (tp : nat) (q0 : Tetromino.t)
      (x0 y0 rotation x : Z) (best : float * option (Z * Z)) :
  represents sr g -> ext sr s -> (length (heap sr) <= tp)%nat ->
  is_piece s tp (moved_to x0 y0 q0) -> catalog_piece q0 ->
  Tetromino.type q0 = Tetromino.type (TetrisGame.current_piece g) ->
  Tetromino.rotation q0 = rotation ->
  0 <= rotation < len (Tetromino.shapes (TetrisGame.current_piece g)) ->
  -2 <= x < TetrisGame.width g + 2 ->
  resting_move g (snd best) ->
  exists best' s' y',
    try_simple fuel (current_piece (game sr)) tp rotation best x s = (Ok best', s') /\
    ext sr s' /\ is_piece s' tp (moved_to x y' q0) /\ resting_move g (snd best').
Proof.
  intros Hrep He Htp Hp Hcat Hty Hrot Hr Hx Hbest.
  destruct (try_place_spec sr s tp q0 x0 y0 x Hrep He Htp Hp Hcat)
    as [r [s1 [y' [Hplace [He1 [Hp1 Hr1]]]]]].
  unfold try_simple. unfold bindM at 1. rewrite Hplace.
  destruct r as [nb|];
    [|exists best, s1, y'; split; [reflexivity|]; split; [exact He1|];
      split; [exact Hp1|exact Hbest]].
  destruct Hr1 as [[b1 [Hb1 [Hrect1 Hlen1]]] [Hl0 Hl1]].
  destruct (ext_represents sr s1 g He1 Hrep) as [_ [Hc1 _]].
  pose proof He1 as [Hgame1 _]. rewrite Hgame1 in Hc1.
  unfold bindM at 1. rewrite (read_piece_spec s1 _ _ Hc1).
  destruct (evaluate_board_store s1 nb (TetrisGame.width g) b1
              (Tetromino.type (TetrisGame.current_piece g)) Hb1 Hrect1 Hwidth)
    as [v Hv]; [lia|].
  unfold bindM at 1. rewrite Hv.
  destruct (PrimFloat.ltb (fst best) v).
  - eexists. exists s1, y'. split; [reflexivity|]. split; [exact He1|].
    split; [exact Hp1|]. cbn [snd]. now apply (resting_candidate q0 rotation x y').
  - exists best, s1, y'. split; [reflexivity|]. split; [exact He1|].
    split; [exact Hp1|exact Hbest].
Qed.

(** The rotation loop of either search, given the body of its column
    loop. *)
Lemma rotation_loop_spec (s : state)
      (body : nat -> Z -> float * option (Z * Z) -> Z -> M state (float * option (Z * Z))) :
  represents s g ->
  (forall s' tp q0 x0 y0 rotation x best,
     ext s s' -> (length (heap s) <= tp)%nat ->
     is_piece s' tp (moved_to x0 y0 q0) -> catalog_piece q0 ->
     Tetromino.type q0 = Tetromino.type (TetrisGame.current_piece g) ->
     Tetromino.rotation q0 = rotation ->
     0 <= rotation < len (Tetromino.shapes (TetrisGame.current_piece g)) ->
     -2 <= x < TetrisGame.width g + 2 ->
     resting_move g (snd best) ->
     exists best' s'' y',
       body tp rotation best x s' = (Ok best', s'') /\
       ext s s'' /\ is_piece s'' tp (moved_to x y' q0) /\ resting_move g (snd best')) ->
  exists best s',
    for_accM (range (len (Tetromino.shapes (TetrisGame.current_piece g))))
      (PrimFloat.neg_infinity, None)
      (fun best rotation =>
         cp' <~ read_piece (current_piece (game s)) ;;
         test_piece <~ new_test_piece (Tetromino.type cp') rotation ;;
         s' <~ get ;;
         for_accM (range2 (-2) (width (game s') + 2)) best (body test_piece rotation)) s
    = (Ok best, s') /\ ext s s' /\ resting_move g (snd best).
Proof.
  intros Hrep Hbody. pose proof Hrep as [_ [Hc _]]. pose proof Hcur as [Hget _].
  apply (for_accM_inv (fun s' best => ext s s' /\ resting_move g (snd best)));
    [split; [apply ext_refl|exact I]|].
  intros rotation best s1 Hr [He1 Hbest]. apply in_range in Hr.
  unfold bindM at 1.
  rewrite (read_piece_spec s1 _ _ (ext_is_piece s s1 _ _ He1 Hc)).
  destruct (new_test_piece_spec s1 _ _ rotation Hget Hr)
    as [p [Hnew [Hcat [Hty [Hrot _]]]]].
  unfold bindM at 1. rewrite Hnew.
  set (s2 := mk_state (heap s1 ++ [OPiece p]) (game s1)).
  assert (He2 : ext s s2) by (apply (ext_trans s s1 s2); [exact He1|apply ext_alloc]).
  unfold bindM at 1. cbn [get].
  rewrite (represents_width s2 (ext_represents s s2 g He2 Hrep)).
  destruct (for_accM_inv
              (fun s' best =>
                 (ext s s' /\ exists x0 y0, is_piece s' (length (heap s1)) (moved_to x0 y0 p))
                 /\ resting_move g (snd best))
              (range2 (-2) (TetrisGame.width g + 2))
              (body (length (heap s1)) rotation) best s2)
    as [best' [s3 [Hrun [[He3 _] Hbest']]]].
  - split; [|exact Hbest]. split; [exact He2|].
    exists (Tetromino.x p), (Tetromino.y p).
    rewrite moved_to_same. unfold is_piece, s2. cbn [heap].
    now rewrite list_lookup_middle.
  - intros x best1 s' Hx [[He' [x0 [y0 Hp']]] Hbest1]. apply in_range2 in Hx.
    destruct (Hbody s' (length (heap s1)) p x0 y0 rotation x best1)
      as [best2 [s'' [y' [Htry [He'' [Hp'' Hbest2]]]]]]; try assumption.
    + now apply ext_length.
    + exists best2, s''. split; [exact Htry|]. split; [|exact Hbest2].
      split; [exact He''|]. now exists x, y'.
  - exists best', s3. split; [exact Hrun|]. now split.
Qed.

(** [get_best_move] returns; it changes no object of the game and
    allocates its test pieces and test boards after them; and the move it
    returns, if any, is a resting move. *)
Lemma get_best_move_spec (s : state) (use_lookahead : bool) :
  represents s g ->
  exists mv s',
    get_best_move fuel use_lookahead s = (Ok mv, s') /\ ext s s' /\ resting_move g mv.
Proof.
  intros Hrep. pose proof Hrep as [_ [Hc _]].
  unfold get_best_move. unfold bindM at 1. cbn [get]. cbv zeta.
  destruct use_lookahead.
  - unfold _get_best_move_with_2piece_lookahead. unfold bindM at 1. cbn [get]. cbv zeta.
    unfold bindM at 1. rewrite (read_piece_spec s _ _ Hc).
    destruct (rotation_loop_spec s
                (try_current fuel (current_piece (game s)) (next_piece (game s))) Hrep)
      as [best [s' [Hrun [He Hbest]]]].
    + intros s' tp q0 x0 y0 rotation x best He' Htp Hp Hcat Hty Hrot Hr Hx Hbest.
      now apply (try_current_spec s s' tp q0 x0 y0 rotation x best).
    + unfold bindM at 1. rewrite Hrun. cbn [ret]. exists (snd best), s'. now split.
  - unfold _get_best_move_simple. unfold bindM at 1. rewrite (read_piece_spec s _ _ Hc).
    destruct (rotation_loop_spec s (try_simple fuel (current_piece (game s))) Hrep)
      as [best [s' [Hrun [He Hbest]]]].
    + intros s' tp q0 x0 y0 rotation x best He' Htp Hp Hcat Hty Hrot Hr Hx Hbest.
      now apply (try_simple_spec s s' tp q0 x0 y0 rotation x best).
    + unfold bindM at 1. rewrite Hrun. cbn [ret]. exists (snd best), s'. now split.
Qed.

End SearchLoops.

(** The store built from a game holds that game. *)
Lemma store_of_represents (g : TetrisGame.t) : represents (store_of g) g.
Proof.
  unfold represents, store_of. cbn [Search.game Search.heap Search.board
    Search.current_piece Search.next_piece Search.width Search.height Search.score
    Search.level Search.lines_cleared Search.game_over Search.paused Search.fall_speed
    Search.last_fall_time].
  rewrite length_map.
  split; [|split; [|split]].
  - exists (seq 0 (length (TetrisGame.board g))). split.
    + cbn [Search.heap]. rewrite lookup_app_r by (rewrite length_map; lia).
      now rewrite length_map, Nat.sub_diag.
    + apply Forall2_same_length_lookup_2; [now rewrite length_seq|].
      intros i r cells Hr Hc. apply lookup_seq in Hr. destruct Hr as [-> Hi].
      unfold is_row. cbn [Search.heap]. rewrite lookup_app_l by (rewrite length_map; lia).
      rewrite list_lookup_fmap. cbn. now rewrite Hc.
  - unfold is_piece. cbn [Search.heap].
    rewrite lookup_app_r by (rewrite length_map; lia). rewrite length_map.
    now replace (S (length (TetrisGame.board g)) - length (TetrisGame.board g))%nat
      with 1%nat by lia.
  - unfold is_piece. cbn [Search.heap].
    rewrite lookup_app_r by (rewrite length_map; lia). rewrite length_map.
    now replace (S (S (length (TetrisGame.board g))) - length (TetrisGame.board g))%nat
      with 2%nat by lia.
  - now destruct g.
Qed.

(** ** Pieces *)

Section Pieces.

Lemma piece_ok_len (p : Tetromino.t) : piece_ok p -> 0 < len (Tetromino.shapes p).
Proof. intros [Hr _]. lia. Qed.

Lemma turned_index (d : Z) (p : Tetromino.t) :
  piece_ok p ->
  0 <= (Tetromino.rotation p + d) mod len (Tetromino.shapes p)
    < len (Tetromino.shapes p).
Proof. intros Hp. apply Z.mod_pos_bound. now apply piece_ok_len. Qed.

Lemma nth_getitem {A} (l : list A) (i : Z) (d : A) :
  0 <= i < len l -> getitem l i = Ok (nth (Z.to_nat i) l d).
Proof.
  intros Hi. destruct (getitem_in_range l i Hi) as [a [Ha ->]]. f_equal.
  symmetry. now apply nth_lookup_Some.
Qed.

(** Both rotation methods turn the piece by one state. *)
Lemma rotate_by_run (d : Z) (p : Tetromino.t) :
  piece_ok p ->
  (p0 <~ get ;;
   r <~ lift (Tetromino.mod_len (Tetromino.rotation p0 + d) (Tetromino.shapes p0)) ;;
   modify (Tetromino.set_rotation r) ;;;
   sh <~ lift (getitem (Tetromino.shapes p0) r) ;;
   modify (Tetromino.set_shape sh)) p = (Ok tt, turned d p).
Proof.
  intros Hp. pose proof (piece_ok_len p Hp) as Hn.
  pose proof (turned_index d p Hp) as Hi.
  unfold bindM at 1. cbn [get]. unfold bindM at 1. unfold lift at 1.
  unfold Tetromino.mod_len.
  destruct (Z.eqb_spec (len (Tetromino.shapes p)) 0) as [?|_]; [lia|].
  unfold bindM at 1. unfold modify at 1. unfold bindM at 1. unfold lift.
  rewrite (nth_getitem _ _ (Tetromino.shape p) Hi). reflexivity.
Qed.

Lemma rotate_cw_turned (p : Tetromino.t) :
  piece_ok p -> Tetromino.rotate_cw p = (Ok tt, turned 1 p).
Proof. intros Hp. exact (rotate_by_run 1 p Hp). Qed.

Lemma rotate_ccw_turned (p : Tetromino.t) :
  piece_ok p -> Tetromino.rotate_ccw p = (Ok tt, turned (-1) p).
Proof. intros Hp. exact (rotate_by_run (-1) p Hp). Qed.

Lemma piece_ok_turned (d : Z) (p : Tetromino.t) : piece_ok p -> piece_ok (turned d p).
Proof.
  intros Hp. pose proof (turned_index d p Hp) as Hi. split; [exact Hi|].
  cbn. destruct (lookup_lt_is_Some_2 (Tetromino.shapes p)
                  (Z.to_nat ((Tetromino.rotation p + d) mod len (Tetromino.shapes p))))
    as [sh Hsh]; [unfold len in *; lia|].
  now rewrite (nth_lookup_Some _ _ _ _ Hsh).
Qed.

Lemma turned_turned (d1 d2 : Z) (p : Tetromino.t) :
  piece_ok p -> turned d2 (turned d1 p) = turned (d1 + d2) p.
Proof.
  intros Hp. pose proof (piece_ok_len p Hp) as Hn.
  destruct p as [ty shs r sh col px py]. cbn in Hn.
  unfold turned, Tetromino.set_shape, Tetromino.set_rotation. cbn.
  rewrite Zplus_mod_idemp_l, Z.add_assoc.
  f_equal. apply nth_indep.
  pose proof (Z.mod_pos_bound (r + d1 + d2) (len shs) Hn) as Hi.
  unfold len in *. lia.
Qed.

Lemma turned_full (k : Z) (p : Tetromino.t) :
  piece_ok p -> turned (k * len (Tetromino.shapes p)) p = p.
Proof.
  intros [Hr Hsh]. unfold turned.
  rewrite Z_mod_plus_full, Z.mod_small by lia.
  rewrite (nth_lookup_Some _ _ _ _ Hsh). now destruct p.
Qed.

Lemma calls_rotate_cw (k : nat) (p : Tetromino.t) :
  piece_ok p -> calls k Tetromino.rotate_cw p = (Ok tt, turned (Z.of_nat k) p).
Proof.
  revert p. induction k as [|k IH]; intros p Hp.
  - pose proof (turned_full 0 p Hp) as H0. rewrite Z.mul_0_l in H0.
    cbn [calls]. change (Z.of_nat 0) with 0. now rewrite H0.
  - cbn [calls]. unfold bindM. rewrite (rotate_cw_turned p Hp).
    rewrite (IH _ (piece_ok_turned 1 p Hp)). rewrite turned_turned by assumption.
    do 2 f_equal. lia.
Qed.

(** The cells of a rotation state anchored at [(py, px)] are those of
    the state anchored at the origin, moved. *)
Lemma cells_of_moved (sh : grid) (py px : Z) :
  Tetromino.cells_of sh py px
  = map (fun '(r, c) => (py + r, px + c)) (Tetromino.cells_of sh 0 0).
Proof.
  unfold Tetromino.cells_of. rewrite map_flat_map_comm.
  apply flat_map_ext. intros [r row]. rewrite map_flat_map_comm.
  apply flat_map_ext. intros [c val]. now destruct (val =? 0).
Qed.

Lemma SHAPES_four_cells :
  Forall (fun entry => Forall four_cells (snd entry)) SHAPES.
Proof.
  unfold SHAPES.
  repeat (apply List.Forall_cons;
          [cbn [snd];
           repeat (apply List.Forall_cons;
                   [unfold four_cells;
                    match goal with
                    | |- context [Tetromino.cells_of ?sh 0 0] =>
                        let v := eval vm_compute in (Tetromino.cells_of sh 0 0) in
                        change (Tetromino.cells_of sh 0 0) with v
                    end;
                    split; [reflexivity|]; split;
                    [apply NoDup_ListNoDup;
                     repeat (apply List.NoDup_cons; [cbn; intuition discriminate|]);
                     apply List.NoDup_nil
                    |repeat (apply List.Forall_cons; [lia|]); apply List.Forall_nil]
                   |]);
           apply List.Forall_nil
          |]);
  apply List.Forall_nil.
Qed.

Lemma catalog_four_cells (p : Tetromino.t) :
  catalog_piece p -> four_cells (Tetromino.shape p).
Proof.
  intros [Hget [_ Hsh]]. apply dict_get_In in Hget.
  pose proof SHAPES_four_cells as Hall. rewrite List.Forall_forall in Hall.
  specialize (Hall _ Hget). cbn [snd] in Hall. rewrite List.Forall_forall in Hall.
  apply Hall. apply list_elem_of_In. eapply list_elem_of_lookup_2. exact Hsh.
Qed.

End Pieces.

(** ** Sessions *)

Section Sessions.
Import TetrisGame.

Lemma spawn_piece_form (w : Z) (shape_type : string) :
  In shape_type (dict_keys SHAPES) ->
  exists shs row0 rest col,
    spawn_piece w shape_type
      = Ok (Tetromino.mk shape_type shs 0 (row0 :: rest) col ((w - len row0) / 2) (-2)) /\
    spawn_shape (row0 :: rest).
Proof.
  intros Hin. cbn in Hin.
  repeat (destruct Hin as [<-|Hin];
          [do 4 eexists; split; [reflexivity|];
           split; [unfold len; cbn; lia|];
           match goal with
           | |- context [Tetromino.cells_of ?sh 0 0] =>
               let v := eval vm_compute in (Tetromino.cells_of sh 0 0) in
               change (Tetromino.cells_of sh 0 0) with v
           end;
           unfold len; cbn [length Z.of_nat Pos.of_succ_nat Pos.succ];
           repeat (apply List.Forall_cons; [lia|]); apply List.Forall_nil|]).
  contradiction.
Qed.

(** A position all of whose cells are above the grid and between the
    walls is legal, whatever the grid holds. *)
Lemma legal_above (g : t) (p : Tetromino.t) (ox oy : Z) :
  0 <= height g ->
  Forall (fun '(cy, cx) => cy < 0 /\ 0 <= cx < width g) (cells_at p ox oy) ->
  legal g p ox oy = true.
Proof.
  intros Hh Hcells. unfold legal. apply negb_true_iff.
  induction Hcells as [|[cy cx] cells [Hy Hx] _ IH]; [reflexivity|].
  cbn [existsb]. rewrite IH, orb_false_r. unfold blocked.
  destruct (Z.ltb_spec cx 0); [lia|].
  destruct (Z.geb_spec cx (width g)); [lia|].
  destruct (Z.geb_spec cy (height g)); [lia|].
  destruct (Z.leb_spec 0 cy); [lia|]. reflexivity.
Qed.

(** A piece as it is spawned is legal where it stands on every grid of
    at least four columns: it lies above the grid. *)
Lemma spawn_legal (g : t) (p : Tetromino.t) :
  4 <= width g -> 0 <= height g -> at_spawn (width g) p -> legal g p 0 0 = true.
Proof.
  intros Hw Hh [ty [Hin Hsp]].
  destruct (spawn_piece_form (width g) ty Hin) as [shs [row0 [rest [col [Hform Hshape]]]]].
  rewrite Hform in Hsp. inversion Hsp; subst p. clear Hsp.
  apply legal_above; [exact Hh|].
  unfold cells_at, Tetromino.get_cells. cbn [Tetromino.shape Tetromino.x Tetromino.y].
  rewrite cells_of_moved. destruct Hshape as [Hrow Hcells].
  pose proof (len_nonneg row0) as Hrow0.
  pose proof (Z.div_mod (width g - len row0) 2 ltac:(lia)) as Hdm.
  pose proof (Z.mod_pos_bound (width g - len row0) 2 ltac:(lia)) as Hmb.
  apply List.Forall_forall. intros [cy cx] Hc.
  apply in_map_iff in Hc. destruct Hc as [[r1 c1] [Heq Hc]].
  apply in_map_iff in Hc. destruct Hc as [[r0 c0] [Heq0 Hc]].
  rewrite List.Forall_forall in Hcells. specialize (Hcells _ Hc). cbn in Hcells.
  inversion Heq0; subst r1 c1. inversion Heq; subst cy cx. lia.
Qed.

Lemma legal_shifted (g : t) (p : Tetromino.t) (dx dy ox oy : Z) :
  legal g (shifted dx dy p) ox oy = legal g p (ox + dx) (oy + dy).
Proof.
  unfold legal. f_equal. f_equal. rewrite !cells_at_unfold.
  cbn [shifted Tetromino.shape Tetromino.x Tetromino.y Tetromino.set_x Tetromino.set_y].
  apply flat_map_ext. intros [r row]. apply flat_map_ext. intros [c val].
  destruct (val =? 0); [reflexivity|]. do 2 f_equal; lia.
Qed.

Lemma keeps_ret (I : t -> Prop) {A} (a : A) : keeps I (ret a).
Proof. intros g Hg. exact Hg. Qed.

Lemma keeps_lift (I : t -> Prop) {A} (c : res A) : keeps I (lift c).
Proof. intros g Hg. exact Hg. Qed.

Lemma keeps_get (I : t -> Prop) : keeps I (@get t).
Proof. intros g Hg. exact Hg. Qed.

Lemma keeps_bind (I : t -> Prop) {A B} (c : M t A) (k : A -> M t B) :
  keeps I c -> (forall a, keeps I (k a)) -> keeps I (bindM c k).
Proof.
  intros Hc Hk g Hg. unfold bindM. specialize (Hc g Hg).
  destruct (c g) as [[a|e] g']; cbn [snd] in *; [now apply Hk|assumption].
Qed.

Lemma session_set_current_piece (g : t) (q : Tetromino.t) :
  session_inv g -> catalog_piece q -> legal g q 0 0 = true ->
  session_inv (set_current_piece q g).
Proof.
  intros [Hinv [_ Hrest]] Hcat Hlegal.
  split; [now apply inv_set_current_piece|].
  split; [now rewrite legal_set_current_piece|exact Hrest].
Qed.

Lemma session_board_ok (g : t) : session_inv g -> board_ok g.
Proof. intros [[Hok _] _]. exact Hok. Qed.

Lemma session_catalog (g : t) : session_inv g -> catalog_piece (current_piece g).
Proof. intros [[_ [_ [_ [Hcur _]]]] _]. exact Hcur. Qed.

Lemma session_legal (g : t) : session_inv g -> legal g (current_piece g) 0 0 = true.
Proof. intros [_ [Hl _]]. exact Hl. Qed.

Lemma session_shift (g : t) (dx dy : Z) :
  session_inv g -> legal g (current_piece g) dx dy = true ->
  session_inv (set_current_piece (shifted dx dy (current_piece g)) g).
Proof.
  intros Hg Hl. apply session_set_current_piece; [exact Hg| |].
  - apply catalog_shifted. now apply session_catalog.
  - now rewrite legal_shifted.
Qed.

Lemma keeps_move_left : keeps session_inv move_left.
Proof.
  intros g Hg. rewrite move_left_run by now apply session_board_ok. cbn [snd].
  destruct (legal _ _ _ _) eqn:Hl; [|assumption]. now apply session_shift.
Qed.

Lemma keeps_move_right : keeps session_inv move_right.
Proof.
  intros g Hg. rewrite move_right_run by now apply session_board_ok. cbn [snd].
  destruct (legal _ _ _ _) eqn:Hl; [|assumption]. now apply session_shift.
Qed.

Lemma keeps_move_down : keeps session_inv move_down.
Proof.
  intros g Hg. rewrite move_down_run by now apply session_board_ok.
  destruct (legal _ _ _ _) eqn:Hl; cbn [snd]; [|assumption]. now apply session_shift.
Qed.

Lemma keeps_rotate : keeps session_inv rotate.
Proof.
  intros g Hg. pose proof (session_catalog g Hg) as Hcat.
  rewrite rotate_run by (now apply session_board_ok || apply Hcat). cbn [snd]. cbv zeta.
  destruct (legal g (rotated (current_piece g)) 0 0) eqn:Hl.
  - apply session_set_current_piece; [exact Hg|now apply catalog_rotated|exact Hl].
  - destruct (List.find _ _) as [[dx dy]|] eqn:Hfind; [|assumption].
    apply find_some in Hfind. destruct Hfind as [_ Hkick].
    apply session_set_current_piece; [exact Hg| |].
    + apply catalog_shifted. now apply catalog_rotated.
    + now rewrite legal_shifted.
Qed.

Lemma line_points_nonneg (n : Z) : 0 <= line_points n.
Proof.
  unfold line_points.
  destruct (n =? 1); [lia|]. destruct (n =? 2); [lia|].
  destruct (n =? 3); [lia|]. destruct (n =? 4); lia.
Qed.

Lemma cleared_game_score (g : t) :
  level g = lines_cleared g / 10 + 1 -> 0 <= lines_cleared g -> 0 <= score g ->
  level (cleared_game g) = lines_cleared (cleared_game g) / 10 + 1 /\
  0 <= lines_cleared (cleared_game g) /\ 0 <= score (cleared_game g).
Proof.
  intros Hlevel Hlines Hscore. unfold cleared_game. cbv zeta.
  pose proof (len_nonneg (full_rows (board g))) as Hn.
  destruct (len (full_rows (board g)) =? 0); [now repeat split|].
  unfold scored. cbn. split; [reflexivity|]. split; [lia|].
  pose proof (line_points_nonneg (len (full_rows (board g)))) as Hp.
  pose proof (Z.div_pos (lines_cleared g) 10 Hlines ltac:(lia)) as Hd.
  rewrite Hlevel. nia.
Qed.

Lemma session_locked (g : t) (nxt : Tetromino.t) (now : float) (shape_type : string) :
  session_inv g -> In shape_type (dict_keys SHAPES) ->
  spawn_piece (width g) shape_type = Ok nxt -> catalog_piece nxt ->
  session_inv (locked_game nxt now g).
Proof.
  intros [Hinv [_ [Hspawn [Hover [Hlevel [Hlines Hscore]]]]]] Hin Hsp Hcat.
  pose proof (locked_game_inv g nxt now Hinv Hcat) as Hinv'.
  set (gp := set_board (placed_board g) g).
  destruct (cleared_game_frame gp) as [Ew [Eh [_ [_ [_ [Eo _]]]]]].
  assert (Hw : width (locked_game nxt now g) = width g) by exact Ew.
  split; [exact Hinv'|]. split; [|split; [|split]].
  - apply spawn_legal.
    + destruct Hinv' as [_ [[Hw4 _] _]]. exact Hw4.
    + destruct Hinv' as [_ [[_ Hh4] _]]. lia.
    + rewrite Hw. exact Hspawn.
  - rewrite Hw. now exists shape_type.
  - change (game_over (locked_game nxt now g)) with (game_over (cleared_game gp)).
    rewrite Eo. exact Hover.
  - exact (cleared_game_score gp Hlevel Hlines Hscore).
Qed.

(** [lock_piece] in a session: the promoted piece is legal where it
    stands, so the game-over flag stays as it is. *)
Lemma lock_piece_session (g : t) (shape_type : string) (now : float) :
  session_inv g -> In shape_type (dict_keys SHAPES) ->
  exists nxt,
    spawn_piece (width g) shape_type = Ok nxt /\
    lock_piece shape_type now g = (Ok tt, locked_game nxt now g) /\
    session_inv (locked_game nxt now g).
Proof.
  intros Hg Hin. pose proof Hg as [Hinv _]. pose proof Hinv as [Hok _].
  destruct (lock_piece_run g shape_type now Hok (placed_full_rows g Hinv) Hin)
    as [nxt [Hsp [Hcat [_ [_ Hrun]]]]].
  pose proof (session_locked g nxt now shape_type Hg Hin Hsp Hcat) as Hs.
  pose proof (session_legal _ Hs) as Hl.
  change (current_piece (locked_game nxt now g)) with (next_piece g) in Hl.
  rewrite Hl in Hrun. now exists nxt.
Qed.

Lemma keeps_lock_piece (shape_type : string) (now : float) :
  In shape_type (dict_keys SHAPES) -> keeps session_inv (lock_piece shape_type now).
Proof.
  intros Hin g Hg.
  destruct (lock_piece_session g shape_type now Hg Hin) as [nxt [_ [-> Hs]]]. exact Hs.
Qed.

Lemma keeps_drop_loop (fuel : nat) : keeps session_inv (drop_loop fuel).
Proof.
  induction fuel as [|fuel IH]; cbn [drop_loop]; [apply keeps_lift|].
  apply keeps_bind; [apply keeps_move_down|].
  intros [|]; [assumption|apply keeps_ret].
Qed.

Lemma keeps_hard_drop (fuel : nat) (shape_type : string) (now : float) :
  In shape_type (dict_keys SHAPES) -> keeps session_inv (hard_drop fuel shape_type now).
Proof.
  intros Hin. unfold hard_drop. apply keeps_bind; [apply keeps_drop_loop|].
  intros _. now apply keeps_lock_piece.
Qed.

Lemma keeps_update (current_time : float) (shape_type : string) (lock_time : float) :
  In shape_type (dict_keys SHAPES) ->
  keeps session_inv (update current_time shape_type lock_time).
Proof.
  intros Hin. unfold update. apply keeps_bind; [apply keeps_get|].
  intros g. destruct (game_over g || paused g); [apply keeps_ret|].
  destruct (PrimFloat.leb _ _); [|apply keeps_ret].
  apply keeps_bind; [apply keeps_move_down|].
  intros moved. apply keeps_bind.
  - destruct moved; cbn [negb]; [apply keeps_ret|now apply keeps_lock_piece].
  - intros _ g' Hg'. exact Hg'.
Qed.

Lemma keeps_rotate_loop (fuel : nat) (rotation : Z) :
  keeps session_inv (TetrisAI.rotate_loop fuel rotation).
Proof.
  induction fuel as [|fuel IH]; cbn [TetrisAI.rotate_loop]; [apply keeps_lift|].
  apply keeps_bind; [apply keeps_get|].
  intros g. destruct (negb _); [|apply keeps_ret].
  apply keeps_bind; [apply keeps_rotate|]. intros _. exact IH.
Qed.

Lemma slide_step (g : t) (dx : Z) :
  on_current_piece (modify (fun p => Tetromino.set_x (Tetromino.x p + dx) p)) g
  = (Ok tt, set_current_piece (shifted dx 0 (current_piece g)) g).
Proof.
  cbv [on_current_piece modify]. rewrite set_x_shifted. reflexivity.
Qed.

Lemma keeps_slide_loop (fuel : nat) (dx target_x : Z) :
  keeps session_inv (TetrisAI.slide_loop fuel dx target_x).
Proof.
  induction fuel as [|fuel IH]; cbn [TetrisAI.slide_loop]; [apply keeps_lift|].
  intros g Hg. unfold bindM at 1. cbn [get]. cbv zeta.
  destruct (if dx >? 0 then _ else _); [|exact Hg].
  unfold bindM at 1. rewrite current_valid_run by now apply session_board_ok.
  destruct (legal g (current_piece g) dx 0) eqn:Hl; [|exact Hg].
  unfold bindM at 1. rewrite slide_step. apply IH. now apply session_shift.
Qed.

Lemma keeps_execute_move (fuel : nat) (move : option (Z * Z)) :
  keeps session_inv (TetrisAI.execute_move fuel move).
Proof.
  destruct move as [[rotation target_x]|]; cbn [TetrisAI.execute_move];
    [|apply keeps_ret].
  apply keeps_bind; [apply keeps_rotate_loop|]. intros _.
  apply keeps_bind; [apply keeps_slide_loop|]. intros _.
  apply keeps_bind; [apply keeps_slide_loop|]. intros _.
  apply keeps_bind; [intros g Hg; exact Hg|]. intros _ g Hg. exact Hg.
Qed.

Lemma keeps_run (c : command) : command_ok c -> keeps session_inv (run c).
Proof.
  destruct c; cbn [command_ok run]; intros Hc.
  - apply keeps_move_left.
  - apply keeps_move_right.
  - apply keeps_bind; [apply keeps_move_down|]. intros _. apply keeps_ret.
  - apply keeps_rotate.
  - now apply keeps_hard_drop.
  - now apply keeps_lock_piece.
  - now apply keeps_update.
  - intros g Hg. exact Hg.
  - intros g Hg. exact Hg.
  - intros g Hg. exact Hg.
  - apply keeps_execute_move.
Qed.

Lemma init_session (w h : Z) (choice1 choice2 : string) (now : float) (g : t) :
  In choice1 (dict_keys SHAPES) -> In choice2 (dict_keys SHAPES) ->
  init w h choice1 choice2 now = Ok g -> session_inv g.
Proof.
  intros H1 H2 Hg. pose proof (init_inv w h choice1 choice2 now g H1 H2 Hg) as Hinv.
  unfold init in Hg.
  destruct ((w <? 4) || (h <? 4)); [discriminate|].
  destruct (spawn_piece w choice1) as [cur|] eqn:Hc; [|discriminate].
  destruct (spawn_piece w choice2) as [nxt|] eqn:Hn; [|discriminate].
  cbn [bind] in Hg. inversion Hg; subst g. clear Hg.
  pose proof Hinv as [_ [[Hw Hh] _]]. cbn in Hw, Hh.
  split; [exact Hinv|]. split; [|split; [|split; [|split; [|split]]]].
  - apply spawn_legal; cbn; [lia|lia|]. now exists choice1.
  - cbn. now exists choice2.
  - reflexivity.
  - reflexivity.
  - cbn. lia.
  - cbn. lia.
Qed.

(** Every game of a session satisfies the session invariant. *)
Lemma reachable_session (g : t) : reachable g -> session_inv g.
Proof.
  induction 1 as [w h c1 c2 now g H1 H2 Hg|g c _ IH Hc].
  - exact (init_session w h c1 c2 now g H1 H2 Hg).
  - now apply keeps_run.
Qed.

End Sessions.

(** ** The loops that move the current piece *)

Section PieceLoops.
Import TetrisGame.

Lemma shifted_shifted (dx1 dy1 dx2 dy2 : Z) (p : Tetromino.t) :
  shifted dx2 dy2 (shifted dx1 dy1 p) = shifted (dx1 + dx2) (dy1 + dy2) p.
Proof.
  destruct p. unfold shifted, Tetromino.set_x, Tetromino.set_y. cbn. f_equal; lia.
Qed.

Lemma shifted_zero (p : Tetromino.t) : shifted 0 0 p = p.
Proof.
  destruct p. unfold shifted, Tetromino.set_x, Tetromino.set_y. cbn. f_equal; lia.
Qed.

(** The loop of [hard_drop] ends when it may run for as many iterations
    as there are rows from the piece to the floor; it moves the piece
    straight down, through legal positions, to the first row from which
    it cannot move down. *)
Lemma drop_loop_run (fuel : nat) (g : t) :
  board_ok g -> catalog_piece (current_piece g) ->
  (1 <= fuel)%nat -> height g - Tetromino.y (current_piece g) <= Z.of_nat fuel ->
  exists k,
    0 <= k /\
    drop_loop fuel g = (Ok tt, set_current_piece (shifted 0 k (current_piece g)) g) /\
    legal g (current_piece g) 0 (k + 1) = false /\
    (forall j, 1 <= j <= k -> legal g (current_piece g) 0 j = true).
Proof.
  revert g. induction fuel as [|fuel IH]; intros g Hok Hcat H1 Hfuel; [lia|].
  cbn [drop_loop]. unfold bindM. rewrite move_down_run by exact Hok.
  destruct (legal g (current_piece g) 0 1) eqn:Hl.
  - pose proof (legal_down_above_floor g _ Hcat Hl) as Hy.
    set (g1 := set_current_piece (shifted 0 1 (current_piece g)) g).
    destruct (IH g1) as [k [Hk [Hrun [Hstop Hpath]]]].
    + exact Hok.
    + apply catalog_shifted. exact Hcat.
    + lia.
    + cbn. lia.
    + exists (k + 1). split; [lia|]. split; [|split].
      * rewrite Hrun. unfold g1. cbn [current_piece set_current_piece].
        rewrite shifted_shifted. replace (1 + k) with (k + 1) by lia. reflexivity.
      * unfold g1 in Hstop. cbn [current_piece set_current_piece] in Hstop.
        rewrite legal_set_current_piece, legal_shifted in Hstop.
        rewrite <- Hstop. f_equal; lia.
      * intros j Hj. destruct (Z.eq_dec j 1) as [->|Hne]; [exact Hl|].
        specialize (Hpath (j - 1) ltac:(lia)).
        unfold g1 in Hpath. cbn [current_piece set_current_piece] in Hpath.
        rewrite legal_set_current_piece, legal_shifted in Hpath.
        rewrite <- Hpath. f_equal; lia.
  - exists 0. split; [lia|]. split; [|split].
    + now rewrite shifted_zero, set_current_piece_same.
    + exact Hl.
    + intros j Hj. lia.
Qed.

(** A sliding loop of [execute_move] ends when it may run for more
    iterations than there are columns from the piece to the target; it
    moves the piece column by column towards the target, through legal
    positions, and stops at the target or where the next column is not
    legal. *)
Lemma slide_loop_run (dx : Z) (fuel : nat) (target_x : Z) (g : t) :
  dx = 1 \/ dx = -1 -> board_ok g ->
  Z.max 0 (dx * (target_x - Tetromino.x (current_piece g))) < Z.of_nat fuel ->
  exists k,
    0 <= k <= Z.max 0 (dx * (target_x - Tetromino.x (current_piece g))) /\
    TetrisAI.slide_loop fuel dx target_x g
      = (Ok tt, set_current_piece (shifted (dx * k) 0 (current_piece g)) g) /\
    (k < dx * (target_x - Tetromino.x (current_piece g)) ->
     legal g (current_piece g) (dx * (k + 1)) 0 = false) /\
    (forall j, 1 <= j <= k -> legal g (current_piece g) (dx * j) 0 = true).
Proof.
  intros Hdx. revert g. induction fuel as [|fuel IH]; intros g Hok Hfuel; [lia|].
  cbn [TetrisAI.slide_loop]. unfold bindM at 1. cbn [get]. cbv zeta.
  set (px := Tetromino.x (current_piece g)) in *.
  assert (Hstay : exists k : Z,
            0 <= k <= Z.max 0 (dx * (target_x - px)) /\
            (Ok tt, g) = (Ok tt, set_current_piece (shifted (dx * k) 0 (current_piece g)) g) /\
            (dx * (target_x - px) <= 0 \/ legal g (current_piece g) dx 0 = false ->
             k < dx * (target_x - px) ->
             legal g (current_piece g) (dx * (k + 1)) 0 = false) /\
            (forall j, 1 <= j <= k -> legal g (current_piece g) (dx * j) 0 = true)).
  { exists 0. split; [lia|]. split; [|split].
    - rewrite Z.mul_0_r. now rewrite shifted_zero, set_current_piece_same.
    - intros [Hle|Hl] Hlt; [lia|]. now rewrite Z.add_0_l, Z.mul_1_r.
    - intros j Hj. lia. }
  destruct (if dx >? 0 then px <? target_x else px >? target_x) eqn:Hcond.
  - assert (Hpos : 0 < dx * (target_x - px)).
    { destruct Hdx as [-> | ->]; cbn in Hcond; lia. }
    unfold bindM at 1. rewrite current_valid_run by exact Hok.
    destruct (legal g (current_piece g) dx 0) eqn:Hl.
    + unfold bindM at 1. rewrite slide_step.
      set (g1 := set_current_piece (shifted dx 0 (current_piece g)) g).
      assert (Hx1 : Tetromino.x (current_piece g1) = px + dx) by reflexivity.
      destruct (IH g1) as [k [Hk [Hrun [Hstop Hpath]]]].
      * exact Hok.
      * rewrite Hx1. destruct Hdx as [-> | ->]; lia.
      * rewrite Hx1 in Hk, Hstop. exists (k + 1). split; [|split; [|split]].
        -- destruct Hdx as [-> | ->]; lia.
        -- rewrite Hrun. unfold g1. cbn [current_piece set_current_piece].
           rewrite shifted_shifted.
           replace (dx + dx * k) with (dx * (k + 1)) by lia. reflexivity.
        -- intros Hlt. unfold g1 in Hstop. cbn [current_piece set_current_piece] in Hstop.
           rewrite legal_set_current_piece, legal_shifted in Hstop.
           rewrite <- Hstop; [f_equal; lia|].
           destruct Hdx as [-> | ->]; lia.
        -- intros j Hj. destruct (Z.eq_dec j 1) as [->|Hne];
             [now rewrite Z.mul_1_r|].
           specialize (Hpath (j - 1) ltac:(lia)).
           unfold g1 in Hpath. cbn [current_piece set_current_piece] in Hpath.
           rewrite legal_set_current_piece, legal_shifted in Hpath.
           rewrite <- Hpath. f_equal; lia.
    + destruct Hstay as [k [Hk [Heq [Hstop Hpath]]]]. exists k.
      split; [exact Hk|]. split; [exact Heq|]. split; [|exact Hpath].
      apply Hstop. now right.
  - assert (Hneg : dx * (target_x - px) <= 0).
    { destruct Hdx as [-> | ->]; cbn in Hcond; lia. }
    destruct Hstay as [k [Hk [Heq [Hstop Hpath]]]]. exists k.
    split; [exact Hk|]. split; [exact Heq|]. split; [|exact Hpath].
    apply Hstop. now left.
Qed.

End PieceLoops.

(** ** The layout *)

Section Layout.




End Layout.

(** ** The grid after a piece is placed, cell by cell *)

Section PlacedCells.
Import TetrisGame.

Lemma cell_insert (b : list (list string)) (row : list string) (v : string)
      (cy cx r c : Z) :
  0 <= cy -> 0 <= cx -> b !! Z.to_nat cy = Some row -> cx < len row ->
  cell (<[Z.to_nat cy := <[Z.to_nat cx := v]> row]> b) r c
  = if (r =? cy) && (c =? cx) then Some v else cell b r c.
Proof.
  intros Hcy Hcx Hrow Hlen. unfold cell.
  destruct (Z.leb_spec 0 r) as [Hr|Hr]; cbn [andb];
    [|destruct (Z.eqb_spec r cy); [lia|reflexivity]].
  destruct (Z.leb_spec 0 c) as [Hc|Hc]; cbn [andb];
    [|destruct (Z.eqb_spec c cx); [lia|now rewrite andb_false_r]].
  pose proof (lookup_lt_Some _ _ _ Hrow) as Hlt.
  destruct (Z.eqb_spec r cy) as [->|Hne]; cbn [andb].
  - rewrite list_lookup_insert_eq by exact Hlt. rewrite Hrow.
    destruct (Z.eqb_spec c cx) as [->|Hnc].
    + apply list_lookup_insert_eq. unfold len in Hlen. lia.
    + apply list_lookup_insert_ne. lia.
  - rewrite list_lookup_insert_ne by lia. reflexivity.
Qed.

Lemma paint_cell (w h : Z) (v : string) (b : list (list string)) (cy cx r c : Z) :
  len b = h -> rect w b ->
  cell (paint w h v b (cy, cx)) r c
  = if (0 <=? cy) && (cy <? h) && (0 <=? cx) && (cx <? w) && ((r =? cy) && (c =? cx))
    then Some v else cell b r c.
Proof.
  intros Hh Hrect. unfold paint.
  destruct ((0 <=? cy) && (cy <? h) && (0 <=? cx) && (cx <? w)) eqn:Hin;
    cbn [andb]; [|reflexivity].
  apply andb_true_iff in Hin. destruct Hin as [Hin Hx1].
  apply andb_true_iff in Hin. destruct Hin as [Hin Hx0].
  apply andb_true_iff in Hin. destruct Hin as [Hy0 Hy1].
  apply Z.leb_le in Hy0, Hx0. apply Z.ltb_lt in Hy1, Hx1.
  destruct (lookup_lt_is_Some_2 b (Z.to_nat cy)) as [row Hrow]; [unfold len in Hh; lia|].
  rewrite Hrow. apply cell_insert; try assumption.
  rewrite (rect_lookup w b _ _ Hrect Hrow). exact Hx1.
Qed.

(** The cells of a grid after the cells of a list are painted. *)
Lemma fold_paint_cell (w h : Z) (v : string) (cells : list (Z * Z))
      (b : list (list string)) (r c : Z) :
  len b = h -> rect w b -> 0 <= r < h -> 0 <= c < w ->
  cell (fold_left (paint w h v) cells b) r c
  = if hits cells r c then Some v else cell b r c.
Proof.
  intros Hh Hrect Hr Hc. revert b Hh Hrect.
  induction cells as [|[cy cx] cells IH]; intros b Hh Hrect; [reflexivity|].
  cbn [fold_left]. destruct (paint_ok w h v b (cy, cx) Hh Hrect) as [Hh' Hrect'].
  rewrite (IH _ Hh' Hrect'). rewrite (paint_cell w h v b cy cx r c Hh Hrect).
  unfold hits. cbn [existsb]. fold (hits cells r c).
  destruct (hits cells r c); [now rewrite orb_true_r|]. rewrite orb_false_r.
  destruct (Z.eqb_spec r cy) as [->|?]; [|now rewrite andb_false_r].
  destruct (Z.eqb_spec c cx) as [->|?]; [|now rewrite andb_false_r].
  destruct (Z.leb_spec 0 cy), (Z.ltb_spec cy h), (Z.leb_spec 0 cx), (Z.ltb_spec cx w);
    try lia. reflexivity.
Qed.

End PlacedCells.

(** ** The evaluator and the grids of the search *)

Section EvaluatorFacts.
Import TetrisAI.




(** The legality of a position depends on the dimensions and the grid
    only. *)
Lemma legal_ext (g g' : TetrisGame.t) (p : Tetromino.t) (ox oy : Z) :
  TetrisGame.width g' = TetrisGame.width g ->
  TetrisGame.height g' = TetrisGame.height g ->
  TetrisGame.board g' = TetrisGame.board g ->
  legal g' p ox oy = legal g p ox oy.
Proof.
  intros Hw Hh Hb. unfold legal. f_equal.
  induction (cells_at p ox oy) as [|[cy cx] cells IH]; [reflexivity|].
  cbn [existsb]. rewrite IH. f_equal. unfold blocked. now rewrite Hw, Hh, Hb.
Qed.

End EvaluatorFacts.

(** ** New pieces and new games *)

Section NewGames.
Import TetrisGame.

(** The cells of a piece as it is spawned lie above the grid, between
    the walls. *)
Lemma spawn_cells (w : Z) (p : Tetromino.t) :
  4 <= w -> at_spawn w p ->
  Forall (fun '(cy, cx) => cy < 0 /\ 0 <= cx < w) (Tetromino.get_cells p).
Proof.
  intros Hw [ty [Hin Hsp]].
  destruct (spawn_piece_form w ty Hin) as [shs [row0 [rest [col [Hform Hshape]]]]].
  rewrite Hform in Hsp. inversion Hsp; subst p. clear Hsp.
  unfold Tetromino.get_cells. cbn [Tetromino.shape Tetromino.x Tetromino.y].
  rewrite cells_of_moved. destruct Hshape as [Hrow Hcells].
  pose proof (len_nonneg row0) as Hrow0.
  pose proof (Z.div_mod (w - len row0) 2 ltac:(lia)) as Hdm.
  pose proof (Z.mod_pos_bound (w - len row0) 2 ltac:(lia)) as Hmb.
  apply List.Forall_forall. intros [cy cx] Hc.
  apply in_map_iff in Hc. destruct Hc as [[r0 c0] [Heq Hc]].
  rewrite List.Forall_forall in Hcells. specialize (Hcells _ Hc). cbn in Hcells.
  inversion Heq; subst cy cx. lia.
Qed.

Lemma init_unknown (shape_type : string) :
  ~ In shape_type (dict_keys SHAPES) -> Tetromino.init shape_type = Raise ValueError.
Proof.
  intros Hnot. unfold Tetromino.init.
  destruct (existsb (String.eqb shape_type) (dict_keys SHAPES)) eqn:Hex; [|reflexivity].
  apply existsb_exists in Hex. destruct Hex as [k [Hk Heq]].
  apply String.eqb_eq in Heq. subst k. contradiction.
Qed.

Lemma empty_board (w h : Z) :
  map (fun _ : Z => empty_row w) (range h) = repeat (empty_row w) (Z.to_nat h).
Proof.
  unfold range. rewrite map_map. generalize (Z.to_nat h), 0%nat.
  intros n. induction n as [|n IHn]; intros s; [reflexivity|].
  cbn [seq map repeat]. now rewrite IHn.
Qed.

End NewGames.

Section Landing.
Import TetrisGame.

(** A legal piece of the catalog is above the floor. *)
Lemma legal_above_floor (g : t) (p : Tetromino.t) :
  catalog_piece p -> legal g p 0 0 = true -> Tetromino.y p < height g.
Proof.
  intros Hcat Hl.
  pose proof (legal_down_above_floor g (shifted 0 (-1) p)
                (catalog_shifted p 0 (-1) Hcat)) as H.
  rewrite legal_shifted in H. specialize (H Hl). cbn in H. lia.
Qed.

Lemma rotate_loop_done (fuel : nat) (rotation : Z) (g : t) :
  (1 <= fuel)%nat -> Tetromino.rotation (current_piece g) = rotation ->
  TetrisAI.rotate_loop fuel rotation g = (Ok tt, g).
Proof.
  intros Hfuel Hrot. destruct fuel as [|fuel]; [lia|].
  cbn [TetrisAI.rotate_loop]. unfold bindM. cbn [get].
  now rewrite Hrot, Z.eqb_refl.
Qed.

End Landing.

(** ** What the steering methods leave alone *)

Section Steering.
Import TetrisGame.

Variable g0 : t.

Lemma piece_only_refl : piece_only g0 g0.
Proof. repeat split. Qed.

Lemma piece_only_set (g : t) (p : Tetromino.t) :
  piece_only g0 g -> same_kind (current_piece g) p ->
  piece_only g0 (set_current_piece p g).
Proof.
  intros [Hw [Hh [Hb [Hs [Hl [Hn [Ho [Hp [Hx [Ht [Hss Hc]]]]]]]]]]] [Ht' [Hss' Hc']].
  repeat split; try assumption; cbn; congruence.
Qed.

Lemma keeps_piece_modify (f : Tetromino.t -> Tetromino.t) :
  (forall p, same_kind p (f p)) ->
  keeps (piece_only g0) (on_current_piece (modify f)).
Proof.
  intros Hf g Hg. cbv [on_current_piece modify]. cbn [snd].
  apply piece_only_set; [exact Hg|apply Hf].
Qed.

Lemma rotate_cw_same_kind (p : Tetromino.t) :
  same_kind p (snd (Tetromino.rotate_cw p)).
Proof.
  unfold Tetromino.rotate_cw, Tetromino.mod_len. cbv [bindM get lift modify].
  destruct (len (Tetromino.shapes p) =? 0); [repeat split|].
  destruct (getitem _ _); repeat split.
Qed.

Lemma keeps_piece_rotate_cw :
  keeps (piece_only g0) (on_current_piece Tetromino.rotate_cw).
Proof.
  intros g Hg. unfold on_current_piece.
  pose proof (rotate_cw_same_kind (current_piece g)) as Hk.
  destruct (Tetromino.rotate_cw (current_piece g)) as [r p]. cbn [snd] in *.
  now apply piece_only_set.
Qed.

Lemma keeps_piece_current_valid (dx dy : Z) :
  keeps (piece_only g0) (current_valid dx dy).
Proof.
  unfold current_valid. apply keeps_bind; [apply keeps_get|].
  intros g. apply keeps_lift.
Qed.

Lemma keeps_piece_move_left : keeps (piece_only g0) move_left.
Proof.
  unfold move_left. apply keeps_bind; [apply keeps_piece_current_valid|].
  intros [|]; [|apply keeps_ret]. apply keeps_piece_modify. intros p. repeat split.
Qed.

Lemma keeps_piece_move_right : keeps (piece_only g0) move_right.
Proof.
  unfold move_right. apply keeps_bind; [apply keeps_piece_current_valid|].
  intros [|]; [|apply keeps_ret]. apply keeps_piece_modify. intros p. repeat split.
Qed.

Lemma keeps_piece_move_down : keeps (piece_only g0) move_down.
Proof.
  unfold move_down. apply keeps_bind; [apply keeps_piece_current_valid|].
  intros [|]; [|apply keeps_ret].
  apply keeps_bind; [|intros _; apply keeps_ret].
  apply keeps_piece_modify. intros p. repeat split.
Qed.

Lemma keeps_piece_move_by (dx dy : Z) : keeps (piece_only g0) (move_by dx dy).
Proof.
  unfold move_by. apply keeps_bind; [|intros _];
    apply keeps_piece_modify; intros p; repeat split.
Qed.

Lemma keeps_piece_try_kicks (offsets : list (Z * Z)) :
  keeps (piece_only g0) (try_kicks offsets).
Proof.
  induction offsets as [|[dx dy] rest IH]; cbn [try_kicks]; [apply keeps_ret|].
  apply keeps_bind; [apply keeps_piece_current_valid|].
  intros [|]; [|exact IH].
  apply keeps_bind; [apply keeps_piece_move_by|]. intros _. apply keeps_ret.
Qed.

Lemma keeps_piece_rotate : keeps (piece_only g0) rotate.
Proof.
  unfold rotate. apply keeps_bind; [apply keeps_get|]. intros g. cbv zeta.
  apply keeps_bind; [apply keeps_piece_rotate_cw|]. intros _.
  apply keeps_bind; [apply keeps_piece_current_valid|].
  intros [|]; cbn [negb]; [apply keeps_ret|].
  apply keeps_bind; [apply keeps_piece_try_kicks|].
  intros [|]; [apply keeps_ret|].
  apply keeps_bind; [apply keeps_piece_modify; intros p; repeat split|]. intros _.
  apply keeps_bind; [apply keeps_get|]. intros g'.
  apply keeps_bind; [apply keeps_lift|]. intros sh.
  apply keeps_piece_modify. intros p. repeat split.
Qed.

Lemma keeps_piece_rotate_loop (fuel : nat) (rotation : Z) :
  keeps (piece_only g0) (TetrisAI.rotate_loop fuel rotation).
Proof.
  induction fuel as [|fuel IH]; cbn [TetrisAI.rotate_loop]; [apply keeps_lift|].
  apply keeps_bind; [apply keeps_get|].
  intros g. destruct (negb _); [|apply keeps_ret].
  apply keeps_bind; [apply keeps_piece_rotate|]. intros _. exact IH.
Qed.

Lemma keeps_piece_slide_loop (fuel : nat) (dx target_x : Z) :
  keeps (piece_only g0) (TetrisAI.slide_loop fuel dx target_x).
Proof.
  induction fuel as [|fuel IH]; cbn [TetrisAI.slide_loop]; [apply keeps_lift|].
  apply keeps_bind; [apply keeps_get|].
  intros g. cbv zeta. destruct (if dx >? 0 then _ else _); [|apply keeps_ret].
  apply keeps_bind; [apply keeps_piece_current_valid|].
  intros [|]; [|apply keeps_ret].
  apply keeps_bind; [|intros _; exact IH].
  apply keeps_piece_modify. intros p. repeat split.
Qed.

Lemma keeps_piece_execute_move (fuel : nat) (move : option (Z * Z)) :
  keeps (piece_only g0) (TetrisAI.execute_move fuel move).
Proof.
  destruct move as [[rotation target_x]|]; cbn [TetrisAI.execute_move];
    [|apply keeps_ret].
  apply keeps_bind; [apply keeps_piece_rotate_loop|]. intros _.
  apply keeps_bind; [apply keeps_piece_slide_loop|]. intros _.
  apply keeps_bind; [apply keeps_piece_slide_loop|]. intros _.
  apply keeps_bind; [intros g Hg; exact Hg|]. intros _ g Hg. exact Hg.
Qed.

End Steering.

(** ** The score *)

Section Score.
Import TetrisGame.

Lemma keeps_piece_drop_loop (g0 : t) (fuel : nat) :
  keeps (piece_only g0) (drop_loop fuel).
Proof.
  induction fuel as [|fuel IH]; cbn [drop_loop]; [apply keeps_lift|].
  apply keeps_bind; [apply keeps_piece_move_down|].
  intros [|]; [assumption|apply keeps_ret].
Qed.

(** Locking a piece does not lower the score, the line count or the
    level. *)
Lemma locked_game_grows (g : t) (nxt : Tetromino.t) (now : float) :
  level g = lines_cleared g / 10 + 1 -> 0 <= lines_cleared g ->
  score g <= score (locked_game nxt now g) /\
  lines_cleared g <= lines_cleared (locked_game nxt now g) /\
  level g <= level (locked_game nxt now g).
Proof.
  intros Hlevel Hlines. unfold locked_game. cbv zeta.
  set (gp := set_board (placed_board g) g).
  cbn [score lines_cleared level set_last_fall_time set_next_piece set_current_piece].
  unfold cleared_game. cbv zeta.
  pose proof (len_nonneg (full_rows (placed_board g))) as Hn.
  change (board gp) with (placed_board g).
  destruct (len (full_rows (placed_board g)) =? 0); [cbn; lia|].
  unfold scored. cbn.
  pose proof (line_points_nonneg (len (full_rows (placed_board g)))) as Hp.
  pose proof (Z.div_pos (lines_cleared g) 10 Hlines ltac:(lia)) as Hd.
  pose proof (Z.div_le_mono (lines_cleared g)
                (lines_cleared g + len (full_rows (placed_board g))) 10
                ltac:(lia) ltac:(lia)) as Hmono.
  split; [rewrite Hlevel; nia|]. split; [lia|]. rewrite Hlevel. lia.
Qed.

Lemma piece_only_score (g g' : t) :
  piece_only g g' ->
  score g' = score g /\ lines_cleared g' = lines_cleared g /\ level g' = level g.
Proof. intros [_ [_ [_ [Hs [Hl [Hn _]]]]]]. now repeat split. Qed.

(** [lock_piece] after a method that steers the piece. *)
Lemma lock_after_steering (g g1 : t) (shape_type : string) (now : float) :
  session_inv g1 -> piece_only g g1 -> In shape_type (dict_keys SHAPES) ->
  score g <= score (snd (lock_piece shape_type now g1)) /\
  lines_cleared g <= lines_cleared (snd (lock_piece shape_type now g1)) /\
  level g <= level (snd (lock_piece shape_type now g1)).
Proof.
  intros Hs Hp Hin.
  destruct (lock_piece_session g1 shape_type now Hs Hin) as [nxt [_ [-> _]]].
  cbn [snd]. destruct (piece_only_score g g1 Hp) as [Es [En El]].
  destruct Hs as [_ [_ [_ [_ [Hlevel [Hlines _]]]]]].
  pose proof (locked_game_grows g1 nxt now Hlevel Hlines). lia.
Qed.

End Score.

(** ** The holes *)

Section Holes.
Import TetrisAI.

Lemma holes_loop (w : Z) (pre suf : list (list string)) (c : nat)
      (holes : Z) (found : bool) :
  rect w (pre ++ suf) -> Z.of_nat c < w ->
  for_acc (map Z.of_nat (seq (length pre) (length suf))) (holes, found)
    (fun '(holes, found_block) row =>
       cell <- cell_at (pre ++ suf) row (Z.of_nat c) ;;
       if str_ne cell " " then Ok (holes, true)
       else if found_block && String.eqb cell " " then Ok (holes + 1, found_block)
       else Ok (holes, found_block))
  = Ok (holes + (if found then len suf - filled_in_column suf c
                 else column_holes_of suf c),
        found || negb (column_height_of suf c =? 0)).
Proof.
  revert pre holes found.
  induction suf as [|row suf IH]; intros pre holes found Hrect Hc.
  - cbn [length seq map for_acc]. unfold column_holes_of, len.
    cbn [column_height_of filled_in_column length Z.of_nat].
    destruct found; cbn; now rewrite Z.add_0_r.
  - cbn [length seq map for_acc].
    assert (Hrow : (pre ++ row :: suf) !! length pre = Some row)
      by now apply list_lookup_middle.
    pose proof (rect_lookup _ _ _ _ Hrect Hrow) as Hlen.
    destruct (lookup_lt_is_Some_2 row c) as [cell Hcell]; [unfold len in Hlen; lia|].
    rewrite (cell_at_nat _ _ _ _ _ Hrow Hcell). cbn [bind].
    specialize (IH (pre ++ [row])). rewrite <- app_assoc in IH. cbn [app] in IH.
    rewrite length_app in IH. cbn [length] in IH.
    replace (length pre + 1)%nat with (S (length pre)) in IH by lia.
    unfold column_holes_of. cbn [column_height_of filled_in_column].
    assert (Hfill : cell_filled row c = str_ne cell " ")
      by (unfold cell_filled; now rewrite Hcell).
    rewrite Hfill.
    pose proof (len_nonneg suf) as Hsuf. rewrite len_cons.
    unfold str_ne in *. destruct (String.eqb cell " ") eqn:Heq; cbn [negb].
    + destruct found; cbn [andb bind orb].
      * rewrite (IH (holes + 1) true Hrect Hc). cbn [orb]. do 2 f_equal. lia.
      * rewrite (IH holes false Hrect Hc). cbn [orb]. unfold column_holes_of.
        do 2 f_equal.
    + cbn [bind]. rewrite (IH holes true Hrect Hc). cbn [orb].
      destruct (Z.eqb_spec (len suf + 1) 0); [lia|]. cbn [negb].
      rewrite orb_true_r. do 2 f_equal. destruct found; lia.
Qed.

Lemma for_acc_sum {A} (l : list A) (f : Z -> A -> res Z) (k : A -> Z) (acc : Z) :
  (forall acc a, In a l -> f acc a = Ok (acc + k a)) ->
  for_acc l acc f = Ok (fold_left Z.add (map k l) acc).
Proof.
  revert acc. induction l as [|a l IH]; intros acc Hf; [reflexivity|].
  cbn [for_acc map fold_left]. rewrite (Hf acc a) by now left. cbn [bind].
  apply IH. intros acc' a' Ha'. apply Hf. now right.
Qed.

(** [_count_holes] counts, column by column, the empty cells below the
    highest occupied cell. *)
Lemma count_holes_ok (w : Z) (b : list (list string)) :
  rect w b -> 1 <= len b ->
  _count_holes b
  = Ok (to_float (fold_left Z.add (map (column_holes_of b) (seq 0 (Z.to_nat w))) 0)).
Proof.
  intros Hrect Hrows. unfold _count_holes.
  destruct (first_row_width w b Hrect Hrows) as [row0 [-> Hw]]. cbn [bind]. rewrite Hw.
  rewrite (for_acc_sum (range w) _ (fun col => column_holes_of b (Z.to_nat col)) 0).
  - cbn [bind]. unfold range. rewrite map_map.
    do 3 f_equal. apply map_ext. intros c. now rewrite Nat2Z.id.
  - intros holes col Hcol. apply in_range in Hcol.
    unfold len at 1. rewrite range_seq.
    pose proof (holes_loop w [] b (Z.to_nat col) holes false Hrect) as Hloop.
    rewrite Z2Nat.id in Hloop by lia. cbn [app length] in Hloop.
    rewrite Hloop by lia. reflexivity.
Qed.

Lemma filled_in_column_bounds (b : list (list string)) (c : nat) :
  0 <= filled_in_column b c <= len b.
Proof.
  induction b as [|row b IH]; cbn [filled_in_column]; [unfold len; cbn; lia|].
  rewrite len_cons. destruct (cell_filled row c); lia.
Qed.

Lemma column_holes_bounds (b : list (list string)) (c : nat) :
  0 <= column_holes_of b c <= column_height_of b c.
Proof.
  unfold column_holes_of.
  induction b as [|row b IH]; cbn [column_height_of filled_in_column]; [lia|].
  pose proof (filled_in_column_bounds b c) as Hf. rewrite len_cons.
  destruct (cell_filled row c); lia.
Qed.

End Holes.

(** ** The readiness term *)

Section Readiness.
Import TetrisAI.

Lemma for_acc_inv {A B} (P : B -> Prop) (l : list A) (body : B -> A -> res B)
      (acc r : B) :
  P acc ->
  (forall acc a r, In a l -> P acc -> body acc a = Ok r -> P r) ->
  for_acc l acc body = Ok r -> P r.
Proof.
  revert acc. induction l as [|a l IH]; intros acc Hacc Hbody Hrun.
  - cbn in Hrun. inversion Hrun. now subst.
  - cbn [for_acc] in Hrun. destruct (body acc a) as [acc'|e] eqn:Hb; [|discriminate].
    cbn [bind] in Hrun. apply (IH acc'); [|intros; eapply Hbody; eauto; now right|exact Hrun].
    apply (Hbody acc a acc'); [now left|exact Hacc|exact Hb].
Qed.

Lemma fmax_cases (a b : float) : fmax a b = a \/ fmax a b = b.
Proof. unfold fmax. destruct (PrimFloat.ltb a b); [now right|now left]. Qed.

Lemma tetris_readiness_values (b : list (list string)) (piece_type : option string)
      (v : float) :
  _evaluate_tetris_readiness b piece_type = Ok v ->
  readiness_value v /\
  (piece_type <> Some "I"%string -> v = 0%float).
Proof.
  unfold _evaluate_tetris_readiness. intros Hrun.
  destruct (match piece_type with Some ty => String.eqb ty "I" | None => false end)
    eqn:Hty; cbn [negb] in Hrun.
  - split.
    + destruct (_get_column_heights b) as [heights|]; [|discriminate].
      cbn [bind] in Hrun. destruct (getitem b 0) as [row0|]; [|discriminate].
      cbn [bind] in Hrun. cbv zeta in Hrun.
      revert Hrun. apply for_acc_inv; [now left|].
      intros acc col r _ Hacc Hbody.
      destruct (getitem heights col) as [col_height|]; [|discriminate].
      cbn [bind] in Hbody.
      destruct (len b - col_height - 4 <? 0); [inversion Hbody; now subst|].
      destruct (for_acc (range 4) 0 _) as [pc|]; [|discriminate].
      cbn [bind] in Hbody.
      destruct (pc =? 4); [inversion Hbody; now right; right; right|].
      destruct (pc =? 3).
      { inversion Hbody. destruct (fmax_cases acc 15%float) as [-> | ->];
          [exact Hacc|now right; right; left]. }
      destruct (pc =? 2).
      { inversion Hbody. destruct (fmax_cases acc 5%float) as [-> | ->];
          [exact Hacc|now right; left]. }
      inversion Hbody. now subst.
    + intros Hne. destruct piece_type as [ty|]; [|discriminate].
      apply String.eqb_eq in Hty. subst ty. contradiction.
  - inversion Hrun. split; [now left|reflexivity].
Qed.

End Readiness.

(** * The claims of the specification *)

Section Claims.
Import TetrisGame.




(** C2.  On a grid of [height] rows of [width] cells, [valid_position]
    returns [False] exactly when some occupied cell of the piece, moved by
    the offset, has a column below 0 or at least [width], a row at least
    [height], or lies on an occupied cell of a row at least 0; and when
    all cells of the moved piece are in rows below 0 the answer depends on
    their columns alone, whatever the grid holds. *)
Theorem valid_position_spec (g : t) (p : Tetromino.t) (ox oy : Z) :
  board_ok g ->
  (exists b,
      valid_position g p ox oy = Ok b /\
      (b = false <->
       exists cy cx,
         In (cy, cx) (cells_at p ox oy) /\
         (cx < 0 \/ width g <= cx \/ height g <= cy \/
          (0 <= cy /\ occupied (board g) cy cx = true)))) /\
  (forall b2,
      (forall cy cx, In (cy, cx) (cells_at p ox oy) -> cy < 0) ->
      valid_position (set_board b2 g) p ox oy =
      Ok (forallb (fun '(_, cx) => (0 <=? cx) && (cx <? width g)) (cells_at p ox oy))).
Proof.
  intros Hok. split.
  - exists (negb (existsb (blocked g) (cells_at p ox oy))).
    split; [now apply valid_position_blocked|].
    rewrite negb_false_iff, existsb_exists. split.
    + intros [[cy cx] [Hin Hb]]. exists cy, cx. split; [assumption|].
      unfold blocked in Hb.
      repeat (apply orb_true_iff in Hb; destruct Hb as [Hb|Hb]).
      * left. lia.
      * right. left. lia.
      * right. right. left. lia.
      * right. right. right. apply andb_true_iff in Hb. destruct Hb. split; [lia|assumption].
    + intros [cy [cx [Hin Hb]]]. exists (cy, cx). split; [assumption|].
      unfold blocked. destruct Hb as [Hb|[Hb|[Hb|[Hb1 Hb2]]]].
      * destruct (Z.ltb_spec cx 0); [reflexivity|lia].
      * destruct (Z.geb_spec cx (width g)); [now rewrite orb_true_r|lia].
      * destruct (Z.geb_spec cy (height g)); [now rewrite !orb_true_r|lia].
      * rewrite Hb2. destruct (Z.leb_spec 0 cy); [now rewrite !orb_true_r|lia].
  - intros b2 Habove.
    destruct Hok as [Hh _]. assert (Hh0 : 0 <= height g)
      by (rewrite <- Hh; apply len_nonneg).
    rewrite (valid_position_by (set_board b2 g) p ox oy
               (fun '(_, cx) => negb ((0 <=? cx) && (cx <? width g)))).
    + f_equal.
      rewrite <- (negb_existsb_negb (fun '(_, cx) => (0 <=? cx) && (cx <? width g))).
      f_equal. clear Habove.
      induction (cells_at p ox oy) as [|[cy cx] l IH]; [reflexivity|].
      cbn [existsb]. now rewrite IH.
    + intros cy cx Hin. specialize (Habove cy cx Hin).
      unfold check_cell. cbn [width height set_board].
      destruct (Z.geb_spec cy (height g)); [lia|].
      destruct (Z.geb_spec cy 0); [lia|].
      rewrite orb_false_r.
      destruct (Z.ltb_spec cx 0), (Z.geb_spec cx (width g)),
               (Z.leb_spec 0 cx), (Z.ltb_spec cx (width g)); try lia; reflexivity.
Qed.

Lemma valid_position_spec_witness :
  exists b,
    valid_position two_full_rows (piece_at "T" 1 3 0) (-1) 1 = Ok b /\
    (b = false <->
     exists cy cx,
       In (cy, cx) (cells_at (piece_at "T" 1 3 0) (-1) 1) /\
       (cx < 0 \/ width two_full_rows <= cx \/ height two_full_rows <= cy \/
        (0 <= cy /\ occupied (board two_full_rows) cy cx = true))).
Proof.
  apply (valid_position_spec two_full_rows (piece_at "T" 1 3 0) (-1) 1).
  split; [reflexivity|]. repeat constructor.
Defined.

End Claims.

Section GameClaims.
Import TetrisGame.



(** C4.  [rotate] moves the current piece to its next rotation state,
    cyclically.  When the piece is legal there it stays in place;
    otherwise the first of the offsets (-1,0), (1,0), (0,-1), (-2,0),
    (2,0), in that order, at which it is legal is added to its position;
    when it is legal at none of them the whole game, and with it the
    rotation index, shape, x and y of the piece, is as before the call. *)
Theorem rotate_spec (g : t) :
  board_ok g -> piece_ok (current_piece g) ->
  Tetromino.rotation (rotated (current_piece g)) =
    (Tetromino.rotation (current_piece g) + 1) mod len (Tetromino.shapes (current_piece g)) /\
  getitem (Tetromino.shapes (current_piece g))
          (Tetromino.rotation (rotated (current_piece g)))
    = Ok (Tetromino.shape (rotated (current_piece g))) /\
  Tetromino.x (rotated (current_piece g)) = Tetromino.x (current_piece g) /\
  Tetromino.y (rotated (current_piece g)) = Tetromino.y (current_piece g) /\
  rotate g =
    (Ok tt,
     if legal g (rotated (current_piece g)) 0 0
     then set_current_piece (rotated (current_piece g)) g
     else match List.find (fun '(dx, dy) => legal g (rotated (current_piece g)) dx dy)
                          [(-1, 0); (1, 0); (0, -1); (-2, 0); (2, 0)] with
          | Some (dx, dy) =>
              set_current_piece (shifted dx dy (rotated (current_piece g))) g
          | None => g
          end).
Proof.
  intros Hok Hp. destruct (rotate_cw_run _ Hp) as [_ [[Hr Hs] [Hshapes _]]].
  split; [reflexivity|]. split.
  - rewrite <- Hshapes. apply getitem_nonneg; [lia|exact Hs].
  - split; [reflexivity|]. split; [reflexivity|]. now apply rotate_run.
Qed.

Lemma rotate_spec_witness :
  rotate kick_game =
    (Ok tt, set_current_piece (shifted 1 0 (rotated (current_piece kick_game))) kick_game)
  /\ rotate stuck_game = (Ok tt, stuck_game).
Proof.
  split.
  - refine (eq_trans (proj2 (proj2 (proj2 (proj2 (rotate_spec kick_game _ _))))) _).
    + split; [reflexivity|]. repeat constructor.
    + split; [vm_compute; split; [discriminate|reflexivity]|reflexivity].
    + vm_compute. reflexivity.
  - refine (eq_trans (proj2 (proj2 (proj2 (proj2 (rotate_spec stuck_game _ _))))) _).
    + exact stuck_game_ok.
    + split; [vm_compute; split; [discriminate|reflexivity]|reflexivity].
    + vm_compute. reflexivity.
Defined.

(** C6, at the failing input.  In [stuck_game], a reachable game, the
    [I] piece lies flat in the bottom row and no rotation of it is legal:
    [rotate] changes nothing, so the rotation loop of [execute_move]
    towards the rotation index 1, a rotation index of the piece, is not
    over after any number of iterations. *)
Theorem execute_move_rotation_loop_stuck :
  reachable stuck_game /\
  0 <= 1 < len (Tetromino.shapes (current_piece stuck_game)) /\
  rotate stuck_game = (Ok tt, stuck_game) /\
  forall fuel target_x,
    TetrisAI.execute_move fuel (Some (1, target_x)) stuck_game
    = (Raise OutOfFuel, stuck_game).
Proof.
  assert (Hrot : rotate stuck_game = (Ok tt, stuck_game)) by (vm_compute; reflexivity).
  split; [|split; [|split]].
  - exact stuck_game_reachable.
  - vm_compute. split; [discriminate|reflexivity].
  - exact Hrot.
  - intros fuel target_x. cbn [TetrisAI.execute_move].
    assert (Hloop : TetrisAI.rotate_loop fuel 1 stuck_game = (Raise OutOfFuel, stuck_game)).
    { induction fuel as [|fuel IH]; [reflexivity|].
      cbn [TetrisAI.rotate_loop]. unfold bindM at 1. cbn [get].
      change (Tetromino.rotation (current_piece stuck_game) =? 1) with false.
      cbn [negb]. unfold bindM at 1. rewrite Hrot. exact IH. }
    unfold bindM at 1. now rewrite Hloop.
Qed.



End GameClaims.

Section EvaluatorClaims.
Import TetrisAI.

(** C8.  On a grid of at least two columns and of 1 to 512 rows the
    evaluator raises nothing; its danger flag holds exactly when the
    maximum column height is strictly greater than 0.6 times the number
    of rows (five times the one greater than three times the other); and
    when it holds, the well-quality and Tetris-readiness terms are 0 and
    the score is the sum of the nine other terms under the panic weights. *)
Theorem evaluate_board_danger (w : Z) (b : list (list string))
        (piece_type : option string) :
  rect w b -> 2 <= w -> 1 <= len b <= 512 ->
  exists l,
    evaluate_locals b piece_type = Ok l /\
    max_height_score l = to_float (max_column_height w b) /\
    (is_dangerous l = true <-> 3 * len b < 5 * max_column_height w b) /\
    (is_dangerous l = true ->
     well_quality_score l = 0%float /\
     tetris_ready_score l = 0%float /\
     evaluate_board b piece_type =
       Ok (-2.0 * height_score l + 1.5 * lines_score l + -10.0 * holes_score l
           + -1.0 * bumpiness_score l + -5.0 * max_height_score l
           + -2.0 * wells_score l + -0.5 * row_transitions_score l
           + -0.3 * col_transitions_score l + -15.0 * pit_score l)%float).
Proof.
  intros Hrect Hw [Hrows Hmax].
  destruct (returns_evaluate_locals w b Hrect Hrows piece_type Hw) as [l Hl].
  pose proof (get_max_height_ok w b Hrect Hrows) as Hmh.
  destruct (evaluate_locals_flag b piece_type l _ Hmh Hl) as [Hflag Hzero].
  pose proof (max_column_height_bounds w b) as Hb.
  rewrite danger_exact in Hflag by lia.
  exists l. split; [exact Hl|]. split; [|split].
  - unfold evaluate_locals in Hl. rewrite Hmh in Hl.
    repeat (apply bind_ok_inv in Hl;
            let Heq := fresh "Heq" in
            destruct Hl as [? [Heq Hl]];
            match type of Heq with
            | Ok _ = Ok _ => inversion Heq; subst; clear Heq
            | _ => idtac
            end).
    inversion Hl; subst l. reflexivity.
  - rewrite Hflag. apply Z.ltb_lt.
  - intros Hd. destruct (Hzero Hd) as [Hwq Htr].
    split; [exact Hwq|]. split; [exact Htr|].
    unfold evaluate_board. rewrite Hl. cbn [bind]. rewrite Hd. reflexivity.
Qed.

Lemma evaluate_board_danger_witness :
  exists l,
    evaluate_locals (TetrisGame.board two_full_rows) (Some "I"%string) = Ok l /\
    max_height_score l = to_float (max_column_height 4 (TetrisGame.board two_full_rows)) /\
    (is_dangerous l = true <->
     3 * len (TetrisGame.board two_full_rows) < 5 * max_column_height 4 (TetrisGame.board two_full_rows)) /\
    (is_dangerous l = true ->
     well_quality_score l = 0%float /\
     tetris_ready_score l = 0%float /\
     evaluate_board (TetrisGame.board two_full_rows) (Some "I"%string) =
       Ok (-2.0 * height_score l + 1.5 * lines_score l + -10.0 * holes_score l
           + -1.0 * bumpiness_score l + -5.0 * max_height_score l
           + -2.0 * wells_score l + -0.5 * row_transitions_score l
           + -0.3 * col_transitions_score l + -15.0 * pit_score l)%float).
Proof.
  apply (evaluate_board_danger 4 (TetrisGame.board two_full_rows) (Some "I"%string)).
  - repeat constructor.
  - lia.
  - vm_compute. split; discriminate.
Defined.

(** C9, at the failing input.  The [is_clean] loop starts at the highest
    occupied cell of the edge column, so it answers [True] only when the
    column is empty.  On [well_board], which is not dangerous, the left
    edge column holds one block and no hole and its neighbour is three
    taller: the well quality is 10, without the factor 1.5. *)
Theorem well_quality_bonus_needs_empty_column :
  (forall w b col,
      rect w b -> 0 <= col < w ->
      is_clean b (column_height_of b (Z.to_nat col)) col
      = Ok (column_height_of b (Z.to_nat col) =? 0)) /\
  column_heights_of 4 well_board = [1; 4; 0; 0] /\
  _count_holes well_board = Ok 0%float /\
  (exists l, evaluate_locals well_board None = Ok l /\
             is_dangerous l = false /\ well_quality_score l = 10%float) /\
  edge_well_score well_board [1; 4; 0; 0] 4 0 = Ok (Some 10%float) /\
  _evaluate_well_quality well_board = Ok 10%float /\
  PrimFloat.eqb 10 (10 * 1.5) = false.
Proof.
  split; [exact is_clean_empty_column|].
  split; [vm_compute; reflexivity|].
  split; [vm_compute; reflexivity|].
  split; [eexists; split; [vm_compute; reflexivity|split; reflexivity]|].
  split; [vm_compute; reflexivity|].
  split; vm_compute; reflexivity.
Qed.

End EvaluatorClaims.

(** * Further properties of the engine and of the player *)

Section PieceProperties.

(** X1.  [rotate_cw] and [rotate_ccw] undo each other: on a piece whose
    rotation index is an index of its states and whose shape is the state
    at that index, each of the two raises nothing, and the other, called
    next, gives the piece back as it was. *)
Theorem rotate_cw_ccw_round_trip (p : Tetromino.t) :
  piece_ok p ->
  (exists q, Tetromino.rotate_cw p = (Ok tt, q) /\ Tetromino.rotate_ccw q = (Ok tt, p)) /\
  (exists q, Tetromino.rotate_ccw p = (Ok tt, q) /\ Tetromino.rotate_cw q = (Ok tt, p)).
Proof.
  intros Hp. pose proof (turned_full 0 p Hp) as H0. rewrite Z.mul_0_l in H0. split.
  - exists (turned 1 p). split; [now apply rotate_cw_turned|].
    rewrite (rotate_ccw_turned _ (piece_ok_turned 1 p Hp)).
    rewrite turned_turned by exact Hp. change (1 + -1) with 0. now rewrite H0.
  - exists (turned (-1) p). split; [now apply rotate_ccw_turned|].
    rewrite (rotate_cw_turned _ (piece_ok_turned (-1) p Hp)).
    rewrite turned_turned by exact Hp. change (-1 + 1) with 0. now rewrite H0.
Qed.

Lemma rotate_cw_ccw_round_trip_witness :
  (exists q, Tetromino.rotate_cw (piece_at "T" 3 4 5) = (Ok tt, q) /\
             Tetromino.rotate_ccw q = (Ok tt, piece_at "T" 3 4 5)) /\
  (exists q, Tetromino.rotate_ccw (piece_at "T" 3 4 5) = (Ok tt, q) /\
             Tetromino.rotate_cw q = (Ok tt, piece_at "T" 3 4 5)).
Proof.
  apply (rotate_cw_ccw_round_trip (piece_at "T" 3 4 5)).
  split; [vm_compute; split; [discriminate|reflexivity]|reflexivity].
Defined.

(** X2.  As many calls of [rotate_cw] as the piece has rotation states
    bring it back to the state it was in: after [k] calls the rotation
    index is the old one plus [k], modulo the number of states. *)
Theorem rotate_cw_full_cycle (p : Tetromino.t) (k : nat) :
  piece_ok p ->
  calls k Tetromino.rotate_cw p = (Ok tt, turned (Z.of_nat k) p) /\
  calls (length (Tetromino.shapes p)) Tetromino.rotate_cw p = (Ok tt, p).
Proof.
  intros Hp. split; [now apply calls_rotate_cw|].
  rewrite (calls_rotate_cw _ p Hp).
  pose proof (turned_full 1 p Hp) as H1. rewrite Z.mul_1_l in H1.
  unfold len in H1. now rewrite H1.
Qed.

Lemma rotate_cw_full_cycle_witness :
  calls 3 Tetromino.rotate_cw (piece_at "L" 2 0 0)
    = (Ok tt, turned (Z.of_nat 3) (piece_at "L" 2 0 0)) /\
  calls (length (Tetromino.shapes (piece_at "L" 2 0 0))) Tetromino.rotate_cw
        (piece_at "L" 2 0 0)
    = (Ok tt, piece_at "L" 2 0 0).
Proof.
  apply (rotate_cw_full_cycle (piece_at "L" 2 0 0) 3).
  split; [vm_compute; split; [discriminate|reflexivity]|reflexivity].
Defined.

(** X3.  [get_cells] of a piece of the catalog returns four cells, all
    different, in the four rows from the row of the piece and the four
    columns from its column. *)
Theorem get_cells_four (p : Tetromino.t) :
  catalog_piece p ->
  length (Tetromino.get_cells p) = 4%nat /\
  NoDup (Tetromino.get_cells p) /\
  Forall (fun '(r, c) => Tetromino.y p <= r < Tetromino.y p + 4 /\
                         Tetromino.x p <= c < Tetromino.x p + 4)
         (Tetromino.get_cells p).
Proof.
  intros Hcat. destruct (catalog_four_cells p Hcat) as [Hlen [Hnd Hbox]].
  unfold Tetromino.get_cells. rewrite cells_of_moved.
  split; [now rewrite length_map|]. split.
  - apply NoDup_fmap_2; [|exact Hnd].
    intros [r1 c1] [r2 c2] Heq. inversion Heq. f_equal; lia.
  - apply List.Forall_forall. intros [r c] Hin. apply in_map_iff in Hin.
    destruct Hin as [[r0 c0] [Heq Hin]]. inversion Heq; subst r c.
    rewrite List.Forall_forall in Hbox. specialize (Hbox _ Hin). cbn in Hbox. lia.
Qed.

Lemma get_cells_four_witness :
  length (Tetromino.get_cells (piece_at "S" 1 4 7)) = 4%nat /\
  NoDup (Tetromino.get_cells (piece_at "S" 1 4 7)) /\
  Forall (fun '(r, c) => Tetromino.y (piece_at "S" 1 4 7) <= r
                           < Tetromino.y (piece_at "S" 1 4 7) + 4 /\
                         Tetromino.x (piece_at "S" 1 4 7) <= c
                           < Tetromino.x (piece_at "S" 1 4 7) + 4)
         (Tetromino.get_cells (piece_at "S" 1 4 7)).
Proof.
  apply (get_cells_four (piece_at "S" 1 4 7)).
  split; [reflexivity|].
  split; [vm_compute; split; [discriminate|reflexivity]|reflexivity].
Defined.

End PieceProperties.

Section GameProperties.
Import TetrisGame.

(** X4.  On a grid of at least four columns [spawn_piece] returns, for a
    kind of the catalog, the piece of that kind in its first rotation
    state, two rows above the grid and centred (the column is half of the
    width less the length of the first row of the shape, rounded down), so
    that all its cells are above the grid and between the walls; a kind
    that is not in the catalog makes it raise [ValueError]. *)
Theorem spawn_piece_spec (w : Z) (shape_type : string) :
  4 <= w ->
  (In shape_type (dict_keys SHAPES) ->
   exists p,
     spawn_piece w shape_type = Ok p /\ catalog_piece p /\
     Tetromino.type p = shape_type /\ Tetromino.rotation p = 0 /\
     Tetromino.y p = -2 /\
     match Tetromino.shape p with
     | row0 :: _ =>
         Tetromino.x p = (w - len row0) / 2 /\
         0 <= Tetromino.x p /\ Tetromino.x p + len row0 <= w
     | [] => False
     end /\
     Forall (fun '(r, c) => r < 0 /\ 0 <= c < w) (Tetromino.get_cells p)) /\
  (~ In shape_type (dict_keys SHAPES) -> spawn_piece w shape_type = Raise ValueError).
Proof.
  intros Hw. split.
  - intros Hin. destruct (spawn_piece_run w shape_type Hin) as [p [Hsp [Hcat Hy]]].
    destruct (spawn_piece_form w shape_type Hin)
      as [shs [row0 [rest [col [Hform [Hrow _]]]]]].
    assert (Hspawn : at_spawn w p) by now exists shape_type.
    rewrite Hform in Hsp. inversion Hsp; subst p. clear Hsp.
    eexists. split; [exact Hform|]. split; [exact Hcat|].
    split; [reflexivity|]. split; [reflexivity|]. split; [reflexivity|].
    split; [|now apply spawn_cells].
    cbn [Tetromino.shape Tetromino.x]. split; [reflexivity|].
    pose proof (len_nonneg row0) as Hrow0.
    pose proof (Z.div_mod (w - len row0) 2 ltac:(lia)) as Hdm.
    pose proof (Z.mod_pos_bound (w - len row0) 2 ltac:(lia)) as Hmb.
    lia.
  - intros Hnot. unfold spawn_piece. now rewrite init_unknown.
Qed.

Lemma spawn_piece_spec_witness :
  (In "T"%string (dict_keys SHAPES) ->
   exists p,
     spawn_piece 10 "T" = Ok p /\ catalog_piece p /\
     Tetromino.type p = "T"%string /\ Tetromino.rotation p = 0 /\
     Tetromino.y p = -2 /\
     match Tetromino.shape p with
     | row0 :: _ =>
         Tetromino.x p = (10 - len row0) / 2 /\
         0 <= Tetromino.x p /\ Tetromino.x p + len row0 <= 10
     | [] => False
     end /\
     Forall (fun '(r, c) => r < 0 /\ 0 <= c < 10) (Tetromino.get_cells p)) /\
  (~ In "T"%string (dict_keys SHAPES) -> spawn_piece 10 "T" = Raise ValueError).
Proof. apply (spawn_piece_spec 10 "T"). lia. Defined.

(** X5.  [TetrisGame(width, height)] raises [ValueError] when the width
    or the height is below 4, and nothing otherwise; the new game has the
    empty grid of [height] rows of [width] cells, score 0, level 1, no
    line cleared, neither flag set, its two pieces are as [spawn_piece]
    returns them, and the current piece is legal where it stands. *)
Theorem new_game_spec (w h : Z) (choice1 choice2 : string) (now : float) :
  In choice1 (dict_keys SHAPES) -> In choice2 (dict_keys SHAPES) ->
  (w < 4 \/ h < 4 -> init w h choice1 choice2 now = Raise ValueError) /\
  (4 <= w -> 4 <= h ->
   exists g,
     init w h choice1 choice2 now = Ok g /\
     width g = w /\ height g = h /\
     board g = repeat (empty_row w) (Z.to_nat h) /\
     score g = 0 /\ level g = 1 /\ lines_cleared g = 0 /\
     game_over g = false /\ paused g = false /\
     spawn_piece w choice1 = Ok (current_piece g) /\
     spawn_piece w choice2 = Ok (next_piece g) /\
     valid_position g (current_piece g) 0 0 = Ok true).
Proof.
  intros H1 H2. split.
  - intros Hbad. unfold init.
    destruct (Z.ltb_spec w 4); [reflexivity|].
    destruct (Z.ltb_spec h 4); [reflexivity|]. lia.
  - intros Hw Hh.
    destruct (spawn_piece_run w choice1 H1) as [cur [Hc _]].
    destruct (spawn_piece_run w choice2 H2) as [nxt [Hn _]].
    assert (Hinit : init w h choice1 choice2 now
                    = Ok (mk w h (map (fun _ => empty_row w) (range h))
                             0 1 0 false false cur nxt 0.8%float now)).
    { unfold init. destruct (Z.ltb_spec w 4); [lia|].
      destruct (Z.ltb_spec h 4); [lia|]. cbn [orb]. now rewrite Hc, Hn. }
    pose proof (init_session w h choice1 choice2 now _ H1 H2 Hinit) as Hs.
    eexists. split; [exact Hinit|]. cbn [width height board score level lines_cleared
      game_over paused current_piece next_piece].
    split; [reflexivity|]. split; [reflexivity|]. split; [apply empty_board|].
    split; [reflexivity|]. split; [reflexivity|]. split; [reflexivity|].
    split; [reflexivity|]. split; [reflexivity|]. split; [exact Hc|].
    split; [exact Hn|].
    rewrite valid_position_blocked by now apply session_board_ok.
    f_equal. exact (session_legal _ Hs).
Qed.

Lemma new_game_spec_witness :
  (10 < 4 \/ 20 < 4 -> init 10 20 "I" "O" 0%float = Raise ValueError) /\
  (4 <= 10 -> 4 <= 20 ->
   exists g,
     init 10 20 "I" "O" 0%float = Ok g /\
     width g = 10 /\ height g = 20 /\
     board g = repeat (empty_row 10) (Z.to_nat 20) /\
     score g = 0 /\ level g = 1 /\ lines_cleared g = 0 /\
     game_over g = false /\ paused g = false /\
     spawn_piece 10 "I" = Ok (current_piece g) /\
     spawn_piece 10 "O" = Ok (next_piece g) /\
     valid_position g (current_piece g) 0 0 = Ok true).
Proof. apply (new_game_spec 10 20 "I" "O" 0%float); cbn; tauto. Defined.

(** X6.  The game-over flag is never set.  In every game of a session
    the flag is [False], because the piece that [lock_piece] promotes is
    as [spawn_piece] left it, two rows above the grid, where
    [valid_position] holds whatever the grid contains. *)
Theorem game_over_never_set (g : t) :
  reachable g ->
  game_over g = false /\ valid_position g (next_piece g) 0 0 = Ok true.
Proof.
  intros Hreach. pose proof (reachable_session g Hreach) as Hs.
  pose proof Hs as [[Hok [[Hw Hh] _]] [_ [Hspawn [Hover _]]]].
  split; [exact Hover|].
  rewrite valid_position_blocked by exact Hok. f_equal.
  apply spawn_legal; [exact Hw|lia|exact Hspawn].
Qed.

Lemma game_over_never_set_witness :
  game_over stuck_game = false /\
  valid_position stuck_game (next_piece stuck_game) 0 0 = Ok true.
Proof. apply (game_over_never_set stuck_game). exact stuck_game_reachable. Defined.

(** X7.  In every game of a session the current piece is legal where it
    stands: no method leaves it across a wall, below the floor or on an
    occupied cell. *)
Theorem current_piece_always_legal (g : t) :
  reachable g -> valid_position g (current_piece g) 0 0 = Ok true.
Proof.
  intros Hreach. pose proof (reachable_session g Hreach) as Hs.
  rewrite valid_position_blocked by now apply session_board_ok.
  f_equal. exact (session_legal g Hs).
Qed.

Lemma current_piece_always_legal_witness :
  valid_position stuck_game (current_piece stuck_game) 0 0 = Ok true.
Proof. apply (current_piece_always_legal stuck_game). exact stuck_game_reachable. Defined.

(** X8.  In every game of a session the level is the number of cleared
    lines divided by ten, rounded down, plus one; the level is at least
    1, and the line count and the score are not negative. *)
Theorem level_follows_lines (g : t) :
  reachable g ->
  level g = lines_cleared g / 10 + 1 /\ 1 <= level g /\
  0 <= lines_cleared g /\ 0 <= score g.
Proof.
  intros Hreach.
  destruct (reachable_session g Hreach) as [_ [_ [_ [_ [Hlevel [Hlines Hscore]]]]]].
  split; [exact Hlevel|]. split; [|now split].
  pose proof (Z.div_pos (lines_cleared g) 10 Hlines ltac:(lia)). lia.
Qed.

Lemma level_follows_lines_witness :
  level stuck_game = lines_cleared stuck_game / 10 + 1 /\ 1 <= level stuck_game /\
  0 <= lines_cleared stuck_game /\ 0 <= score stuck_game.
Proof. apply (level_follows_lines stuck_game). exact stuck_game_reachable. Defined.

(** X9.  In every game of a session the grid has [height] rows of
    [width] cells, at least four of each, no row of the grid is full, and
    both pieces are pieces of the catalog in one of their rotation
    states. *)
Theorem board_always_well_formed (g : t) :
  reachable g ->
  len (board g) = height g /\
  Forall (fun row => len row = width g) (board g) /\
  4 <= width g /\ 4 <= height g /\
  Forall (fun row => row_full row = false) (board g) /\
  catalog_piece (current_piece g) /\ catalog_piece (next_piece g).
Proof.
  intros Hreach.
  destruct (reachable_inv g Hreach) as [[Hlen Hrows] [[Hw Hh] [Hfull [Hcur Hnext]]]].
  repeat split; assumption || apply Hcur || apply Hnext.
Qed.

Lemma board_always_well_formed_witness :
  len (board stuck_game) = height stuck_game /\
  Forall (fun row => len row = width stuck_game) (board stuck_game) /\
  4 <= width stuck_game /\ 4 <= height stuck_game /\
  Forall (fun row => row_full row = false) (board stuck_game) /\
  catalog_piece (current_piece stuck_game) /\ catalog_piece (next_piece stuck_game).
Proof. apply (board_always_well_formed stuck_game). exact stuck_game_reachable. Defined.

(** X10.  No method touches the next piece: in every game of a session
    it is the piece that [spawn_piece] returns for its kind on the width
    of the grid. *)
Theorem next_piece_as_spawned (g : t) :
  reachable g ->
  spawn_piece (width g) (Tetromino.type (next_piece g)) = Ok (next_piece g).
Proof.
  intros Hreach.
  destruct (reachable_session g Hreach) as [_ [_ [[ty [Hin Hsp]] _]]].
  destruct (spawn_piece_form (width g) ty Hin) as [shs [row0 [rest [col [Hform _]]]]].
  rewrite Hform in Hsp. inversion Hsp as [Hp]. cbn [Tetromino.type]. exact Hform.
Qed.

Lemma next_piece_as_spawned_witness :
  spawn_piece (width stuck_game) (Tetromino.type (next_piece stuck_game))
  = Ok (next_piece stuck_game).
Proof. apply (next_piece_as_spawned stuck_game). exact stuck_game_reachable. Defined.

(** X11.  In a game of a session [lock_piece] raises nothing: writing
    the piece fills at most four rows, so the scoring table is read within
    its bounds.  It leaves the game with the piece written, the full rows
    cleared, the next piece promoted and a new next piece, and the
    game-over flag as it was. *)
Theorem lock_piece_in_session (g : t) (shape_type : string) (now : float) :
  reachable g -> In shape_type (dict_keys SHAPES) ->
  len (full_rows (placed_board g)) <= 4 /\
  exists nxt,
    spawn_piece (width g) shape_type = Ok nxt /\
    lock_piece shape_type now g = (Ok tt, locked_game nxt now g) /\
    board (locked_game nxt now g) = cleared_board (width g) (placed_board g) /\
    current_piece (locked_game nxt now g) = next_piece g /\
    next_piece (locked_game nxt now g) = nxt /\
    game_over (locked_game nxt now g) = false.
Proof.
  intros Hreach Hin. pose proof (reachable_session g Hreach) as Hs.
  split; [apply placed_full_rows; apply Hs|].
  destruct (lock_piece_session g shape_type now Hs Hin) as [nxt [Hsp [Hrun Hs']]].
  exists nxt. split; [exact Hsp|]. split; [exact Hrun|].
  split; [|split; [reflexivity|split; [reflexivity|apply Hs']]].
  destruct (cleared_game_frame (set_board (placed_board g) g)) as [_ [_ [Eb _]]].
  exact Eb.
Qed.

Lemma lock_piece_in_session_witness :
  len (full_rows (placed_board stuck_game)) <= 4 /\
  exists nxt,
    spawn_piece (width stuck_game) "T" = Ok nxt /\
    lock_piece "T" 0%float stuck_game = (Ok tt, locked_game nxt 0%float stuck_game) /\
    board (locked_game nxt 0%float stuck_game)
      = cleared_board (width stuck_game) (placed_board stuck_game) /\
    current_piece (locked_game nxt 0%float stuck_game) = next_piece stuck_game /\
    next_piece (locked_game nxt 0%float stuck_game) = nxt /\
    game_over (locked_game nxt 0%float stuck_game) = false.
Proof.
  apply (lock_piece_in_session stuck_game "T" 0%float).
  - exact stuck_game_reachable.
  - cbn. tauto.
Defined.

End GameProperties.

Section MoveProperties.
Import TetrisGame.

(** X12.  [hard_drop] in a game of a session: its loop ends within as
    many iterations as there are rows from the piece to the floor; the
    piece goes straight down through legal positions to the first row
    from which it cannot move down, and is locked there. *)
Theorem hard_drop_lands (g : t) (fuel : nat) (shape_type : string) (now : float) :
  reachable g -> In shape_type (dict_keys SHAPES) ->
  height g - Tetromino.y (current_piece g) <= Z.of_nat fuel ->
  exists k nxt,
    0 <= k /\
    (forall j, 0 <= j <= k -> legal g (current_piece g) 0 j = true) /\
    legal g (current_piece g) 0 (k + 1) = false /\
    spawn_piece (width g) shape_type = Ok nxt /\
    hard_drop fuel shape_type now g
      = (Ok tt, locked_game nxt now
                  (set_current_piece (shifted 0 k (current_piece g)) g)).
Proof.
  intros Hreach Hin Hfuel. pose proof (reachable_session g Hreach) as Hs.
  pose proof (session_board_ok g Hs) as Hok.
  pose proof (session_catalog g Hs) as Hcat.
  pose proof (session_legal g Hs) as Hl0.
  pose proof (legal_above_floor g _ Hcat Hl0) as Hy.
  destruct (drop_loop_run fuel g Hok Hcat ltac:(lia) Hfuel)
    as [k [Hk [Hrun [Hstop Hpath]]]].
  assert (Hall : forall j, 0 <= j <= k -> legal g (current_piece g) 0 j = true).
  { intros j Hj. destruct (Z.eq_dec j 0) as [->|Hne]; [exact Hl0|]. apply Hpath. lia. }
  pose proof (session_shift g 0 k Hs (Hall k ltac:(lia))) as Hs'.
  destruct (lock_piece_session _ shape_type now Hs' Hin) as [nxt [Hsp [Hlock _]]].
  exists k, nxt. split; [exact Hk|]. split; [exact Hall|]. split; [exact Hstop|].
  split; [exact Hsp|]. unfold hard_drop, bindM. now rewrite Hrun.
Qed.

Lemma hard_drop_lands_witness :
  exists k nxt,
    0 <= k /\
    (forall j, 0 <= j <= k -> legal new_game_I (current_piece new_game_I) 0 j = true) /\
    legal new_game_I (current_piece new_game_I) 0 (k + 1) = false /\
    spawn_piece (width new_game_I) "T" = Ok nxt /\
    hard_drop 22 "T" 0%float new_game_I
      = (Ok tt, locked_game nxt 0%float
                  (set_current_piece (shifted 0 k (current_piece new_game_I))
                                     new_game_I)).
Proof.
  apply (hard_drop_lands new_game_I 22 "T" 0%float).
  - exact new_game_I_reachable.
  - cbn. tauto.
  - vm_compute. discriminate.
Defined.

(** X13.  [execute_move] on a piece that is already in the target
    rotation: the three loops end (the sliding loops within as many
    iterations as there are columns from the piece to the target, and one
    more); the piece slides towards the target column through legal
    positions and stops at the target or before the first column that is
    not legal, never beyond the target; then the fall speed is 0.005 and
    the fall timer 0, and nothing else of the game has changed. *)
Theorem execute_move_slides (g : t) (fuel : nat) (rotation target_x : Z) :
  board_ok g -> Tetromino.rotation (current_piece g) = rotation ->
  Z.abs (target_x - Tetromino.x (current_piece g)) < Z.of_nat fuel ->
  exists k,
    0 <= k <= Z.abs (target_x - Tetromino.x (current_piece g)) /\
    (forall j, 1 <= j <= k ->
       legal g (current_piece g)
             (Z.sgn (target_x - Tetromino.x (current_piece g)) * j) 0 = true) /\
    (k < Z.abs (target_x - Tetromino.x (current_piece g)) ->
     legal g (current_piece g)
           (Z.sgn (target_x - Tetromino.x (current_piece g)) * (k + 1)) 0 = false) /\
    TetrisAI.execute_move fuel (Some (rotation, target_x)) g
      = (Ok tt,
         set_last_fall_time 0%float
           (set_fall_speed 0.005%float
              (set_current_piece
                 (shifted (Z.sgn (target_x - Tetromino.x (current_piece g)) * k) 0
                          (current_piece g)) g))).
Proof.
  intros Hok Hrot Hfuel.
  set (px := Tetromino.x (current_piece g)) in *.
  cbn [TetrisAI.execute_move]. unfold bindM at 1.
  rewrite (rotate_loop_done fuel rotation g ltac:(lia) Hrot).
  destruct (slide_loop_run 1 fuel target_x g (or_introl eq_refl) Hok)
    as [k1 [Hk1 [Hrun1 [Hstop1 Hpath1]]]]; [fold px; lia|].
  fold px in Hk1, Hstop1.
  set (g1 := set_current_piece (shifted (1 * k1) 0 (current_piece g)) g) in *.
  assert (Hx1 : Tetromino.x (current_piece g1) = px + 1 * k1) by reflexivity.
  destruct (slide_loop_run (-1) fuel target_x g1 (or_intror eq_refl) Hok)
    as [k2 [Hk2 [Hrun2 [Hstop2 Hpath2]]]]; [rewrite Hx1; lia|].
  rewrite Hx1 in Hk2, Hstop2.
  unfold bindM at 1. rewrite Hrun1. unfold bindM at 1. rewrite Hrun2.
  unfold bindM, modify.
  destruct (Z.lt_trichotomy px target_x) as [Hlt|[Heq|Hgt]].
  - assert (Hk20 : k2 = 0) by lia. subst k2.
    rewrite Z.sgn_pos by lia. rewrite Z.abs_eq by lia.
    exists k1. split; [lia|]. split; [exact Hpath1|]. split; [intros H; apply Hstop1; lia|].
    change (-1 * 0) with 0. now rewrite shifted_zero, set_current_piece_same.
  - assert (Hk10 : k1 = 0) by lia. assert (Hk20 : k2 = 0) by lia. subst k1 k2.
    exists 0. split; [lia|]. split; [intros j Hj; lia|]. split; [lia|].
    unfold g1. change (1 * 0) with 0. change (-1 * 0) with 0. rewrite Z.mul_0_r.
    now rewrite !shifted_zero, !set_current_piece_same.
  - assert (Hk10 : k1 = 0) by lia. subst k1.
    assert (Hg1 : g1 = g).
    { unfold g1. change (1 * 0) with 0. now rewrite shifted_zero, set_current_piece_same. }
    rewrite Hg1 in *. clear Hg1.
    rewrite Z.sgn_neg by lia. rewrite Z.abs_neq by lia.
    exists k2. split; [lia|]. split; [exact Hpath2|].
    split; [intros H; apply Hstop2; lia|]. reflexivity.
Qed.

Lemma execute_move_slides_witness :
  exists k,
    0 <= k <= Z.abs (9 - Tetromino.x (current_piece new_game_I)) /\
    (forall j, 1 <= j <= k ->
       legal new_game_I (current_piece new_game_I)
             (Z.sgn (9 - Tetromino.x (current_piece new_game_I)) * j) 0 = true) /\
    (k < Z.abs (9 - Tetromino.x (current_piece new_game_I)) ->
     legal new_game_I (current_piece new_game_I)
           (Z.sgn (9 - Tetromino.x (current_piece new_game_I)) * (k + 1)) 0 = false) /\
    TetrisAI.execute_move 8 (Some (0, 9)) new_game_I
      = (Ok tt,
         set_last_fall_time 0%float
           (set_fall_speed 0.005%float
              (set_current_piece
                 (shifted (Z.sgn (9 - Tetromino.x (current_piece new_game_I)) * k) 0
                          (current_piece new_game_I)) new_game_I))).
Proof.
  apply (execute_move_slides new_game_I 8 0 9).
  - apply reachable_inv. exact new_game_I_reachable.
  - reflexivity.
  - vm_compute. reflexivity.
Defined.

(** X14.  [place_piece] on a grid of the right dimensions raises
    nothing and changes the grid only: every cell of the grid that is a
    cell of the current piece holds the colour of the piece, and every
    other cell of the grid is as it was. *)
Theorem place_piece_cells (g : t) :
  board_ok g ->
  exists b',
    place_piece g = (Ok tt, set_board b' g) /\
    len b' = height g /\ Forall (fun row => len row = width g) b' /\
    forall r c, 0 <= r < height g -> 0 <= c < width g ->
      cell b' r c
      = if hits (Tetromino.get_cells (current_piece g)) r c
        then Some (Tetromino.color (current_piece g))
        else cell (board g) r c.
Proof.
  intros Hok. exists (placed_board g).
  split; [now apply place_piece_run|].
  destruct (placed_board_ok g Hok) as [Hlen Hrows].
  split; [exact Hlen|]. split; [exact Hrows|].
  intros r c Hr Hc. destruct Hok as [Hh Hw]. unfold placed_board.
  now apply fold_paint_cell.
Qed.

Lemma place_piece_cells_witness :
  exists b',
    place_piece stuck_game = (Ok tt, set_board b' stuck_game) /\
    len b' = height stuck_game /\
    Forall (fun row => len row = width stuck_game) b' /\
    forall r c, 0 <= r < height stuck_game -> 0 <= c < width stuck_game ->
      cell b' r c
      = if hits (Tetromino.get_cells (current_piece stuck_game)) r c
        then Some (Tetromino.color (current_piece stuck_game))
        else cell (board stuck_game) r c.
Proof. apply (place_piece_cells stuck_game). exact stuck_game_ok. Defined.

(** X15.  In a game of a session [move_left] and [move_right] undo each
    other: when the column to the left is legal, [move_left] moves the
    piece there and [move_right], called next, gives the game back as it
    was; and likewise with left and right exchanged.  When the column is
    not legal the method changes nothing. *)
Theorem move_left_right_round_trip (g : t) :
  reachable g ->
  (exists g1,
     move_left g = (Ok tt, g1) /\
     if legal g (current_piece g) (-1) 0
     then Tetromino.x (current_piece g1) = Tetromino.x (current_piece g) - 1 /\
          move_right g1 = (Ok tt, g)
     else g1 = g) /\
  (exists g1,
     move_right g = (Ok tt, g1) /\
     if legal g (current_piece g) 1 0
     then Tetromino.x (current_piece g1) = Tetromino.x (current_piece g) + 1 /\
          move_left g1 = (Ok tt, g)
     else g1 = g).
Proof.
  intros Hreach. pose proof (reachable_session g Hreach) as Hs.
  pose proof (session_board_ok g Hs) as Hok.
  pose proof (session_legal g Hs) as Hl0.
  split.
  - eexists. split; [now apply move_left_run|].
    destruct (legal g (current_piece g) (-1) 0) eqn:Hl; [|reflexivity].
    split; [cbn; lia|].
    rewrite move_right_run by exact Hok.
    cbn [current_piece set_current_piece].
    rewrite legal_set_current_piece, legal_shifted.
    change (1 + -1) with 0. change (0 + 0) with 0. rewrite Hl0.
    rewrite shifted_shifted. change (-1 + 1) with 0. change (0 + 0) with 0.
    rewrite shifted_zero. f_equal. now destruct g.
  - eexists. split; [now apply move_right_run|].
    destruct (legal g (current_piece g) 1 0) eqn:Hl; [|reflexivity].
    split; [cbn; lia|].
    rewrite move_left_run by exact Hok.
    cbn [current_piece set_current_piece].
    rewrite legal_set_current_piece, legal_shifted.
    change (-1 + 1) with 0. change (0 + 0) with 0. rewrite Hl0.
    rewrite shifted_shifted. change (1 + -1) with 0. change (0 + 0) with 0.
    rewrite shifted_zero. f_equal. now destruct g.
Qed.

Lemma move_left_right_round_trip_witness :
  (exists g1,
     move_left new_game_I = (Ok tt, g1) /\
     if legal new_game_I (current_piece new_game_I) (-1) 0
     then Tetromino.x (current_piece g1) = Tetromino.x (current_piece new_game_I) - 1 /\
          move_right g1 = (Ok tt, new_game_I)
     else g1 = new_game_I) /\
  (exists g1,
     move_right new_game_I = (Ok tt, g1) /\
     if legal new_game_I (current_piece new_game_I) 1 0
     then Tetromino.x (current_piece g1) = Tetromino.x (current_piece new_game_I) + 1 /\
          move_left g1 = (Ok tt, new_game_I)
     else g1 = new_game_I).
Proof. apply (move_left_right_round_trip new_game_I). exact new_game_I_reachable. Defined.

(** X16.  [update] in a game of a session that is not paused raises
    nothing.  When less than [fall_speed] has passed since the last fall
    it changes nothing; otherwise the piece moves down one row when that
    is legal and is locked when it is not, and the fall timer is set to
    the time [update] read, also after a lock. *)
Theorem update_step (g : t) (current_time : float) (shape_type : string)
        (lock_time : float) :
  reachable g -> paused g = false -> In shape_type (dict_keys SHAPES) ->
  exists nxt,
    spawn_piece (width g) shape_type = Ok nxt /\
    update current_time shape_type lock_time g
      = (Ok tt,
         if PrimFloat.leb (fall_speed g) (PrimFloat.sub current_time (last_fall_time g))
         then set_last_fall_time current_time
                (if legal g (current_piece g) 0 1
                 then set_current_piece (shifted 0 1 (current_piece g)) g
                 else locked_game nxt lock_time g)
         else g).
Proof.
  intros Hreach Hpaused Hin. pose proof (reachable_session g Hreach) as Hs.
  pose proof (session_board_ok g Hs) as Hok.
  destruct (lock_piece_session g shape_type lock_time Hs Hin) as [nxt [Hsp [Hlock _]]].
  exists nxt. split; [exact Hsp|].
  unfold update. unfold bindM at 1. cbn [get].
  destruct Hs as [_ [_ [_ [Hover _]]]]. rewrite Hover, Hpaused. cbn [orb].
  destruct (PrimFloat.leb _ _); [|reflexivity].
  unfold bindM at 1. rewrite move_down_run by exact Hok.
  destruct (legal g (current_piece g) 0 1); cbn [negb].
  - reflexivity.
  - unfold bindM. rewrite Hlock. reflexivity.
Qed.

Lemma update_step_witness :
  exists nxt,
    spawn_piece (width stuck_game) "T" = Ok nxt /\
    update 1%float "T" 2%float stuck_game
      = (Ok tt,
         if PrimFloat.leb (fall_speed stuck_game)
                          (PrimFloat.sub 1%float (last_fall_time stuck_game))
         then set_last_fall_time 1%float
                (if legal stuck_game (current_piece stuck_game) 0 1
                 then set_current_piece (shifted 0 1 (current_piece stuck_game)) stuck_game
                 else locked_game nxt 2%float stuck_game)
         else stuck_game).
Proof.
  apply (update_step stuck_game 1%float "T" 2%float).
  - exact stuck_game_reachable.
  - reflexivity.
  - cbn. tauto.
Defined.

End MoveProperties.

Section EvaluatorProperties.
Import TetrisAI.

(** X17.  On a grid of rows of equal length, one row at least,
    [_get_column_heights] returns for every column the number of rows
    from its highest occupied cell down to the floor (0 for an empty
    column), each between 0 and the number of rows; [_get_max_height]
    returns the largest of them and [_aggregate_height] their sum. *)
Theorem column_heights_spec (w : Z) (b : list (list string)) :
  rect w b -> 1 <= len b ->
  _get_column_heights b = Ok (column_heights_of w b) /\
  Forall (fun h => 0 <= h <= len b) (column_heights_of w b) /\
  _get_max_height b = Ok (to_float (max_column_height w b)) /\
  _aggregate_height b = Ok (to_float (fold_left Z.add (column_heights_of w b) 0)).
Proof.
  intros Hrect Hrows.
  pose proof (get_column_heights_ok w b Hrect Hrows) as Hh.
  split; [exact Hh|]. split; [apply column_heights_bounds|].
  split; [now apply get_max_height_ok|].
  unfold _aggregate_height. now rewrite Hh.
Qed.

Lemma column_heights_spec_witness :
  _get_column_heights well_board = Ok (column_heights_of 4 well_board) /\
  Forall (fun h => 0 <= h <= len well_board) (column_heights_of 4 well_board) /\
  _get_max_height well_board = Ok (to_float (max_column_height 4 well_board)) /\
  _aggregate_height well_board
    = Ok (to_float (fold_left Z.add (column_heights_of 4 well_board) 0)).
Proof.
  apply (column_heights_spec 4 well_board).
  - repeat constructor.
  - vm_compute. discriminate.
Defined.

(** X18.  [evaluate_board] raises nothing on a grid of rows of equal
    length with at least two columns and one row.  Two columns are
    needed: on the empty grid of one column and two rows it raises
    [IndexError]. *)
Theorem evaluate_board_returns (w : Z) (b : list (list string))
        (piece_type : option string) :
  rect w b -> 2 <= w -> 1 <= len b ->
  (exists v, evaluate_board b piece_type = Ok v) /\
  evaluate_board [[" "%string]; [" "%string]] None = Raise IndexError.
Proof.
  intros Hrect Hw Hrows. split; [|vm_compute; reflexivity].
  exact (returns_evaluate_board w b piece_type Hrect Hrows Hw).
Qed.

Lemma evaluate_board_returns_witness :
  (exists v, evaluate_board well_board (Some "I"%string) = Ok v) /\
  evaluate_board [[" "%string]; [" "%string]] None = Raise IndexError.
Proof.
  apply (evaluate_board_returns 4 well_board (Some "I"%string)).
  - repeat constructor.
  - lia.
  - vm_compute. discriminate.
Defined.


(** X20.  On the grid of a game, of the right dimensions and with one
    row at least, [_is_valid_on_board] answers as [valid_position] of the
    game does, for every piece and every offset. *)
Theorem is_valid_on_board_agrees (g : TetrisGame.t) (p : Tetromino.t) (ox oy : Z) :
  board_ok g -> 1 <= TetrisGame.height g ->
  _is_valid_on_board p (TetrisGame.board g) ox oy = TetrisGame.valid_position g p ox oy.
Proof.
  intros Hok Hh. pose proof Hok as [Hlen Hrect].
  rewrite (is_valid_on_board_legal (TetrisGame.width g) (TetrisGame.board g) p ox oy Hrect)
    by lia.
  rewrite valid_position_blocked by exact Hok. f_equal.
  apply (legal_ext g); [reflexivity|exact Hlen|reflexivity].
Qed.

Lemma is_valid_on_board_agrees_witness :
  _is_valid_on_board (piece_at "T" 1 2 3) (TetrisGame.board kick_game) 1 0
  = TetrisGame.valid_position kick_game (piece_at "T" 1 2 3) 1 0.
Proof.
  apply (is_valid_on_board_agrees kick_game (piece_at "T" 1 2 3) 1 0).
  - split; [reflexivity|repeat constructor].
  - vm_compute. discriminate.
Defined.

(** X21.  On a grid of rows of equal length, one row at least,
    [_count_holes] returns the number of holes: summed over the columns,
    the height of the column less the number of its occupied cells, that
    is, the empty cells below the highest occupied cell of the column. *)
Theorem count_holes_spec (w : Z) (b : list (list string)) :
  rect w b -> 1 <= len b ->
  _count_holes b
  = Ok (to_float (fold_left Z.add (map (column_holes_of b) (seq 0 (Z.to_nat w))) 0)) /\
  forall c, 0 <= column_holes_of b c <= column_height_of b c.
Proof.
  intros Hrect Hrows. split; [now apply count_holes_ok|apply column_holes_bounds].
Qed.

Lemma count_holes_spec_witness :
  _count_holes (TetrisGame.board two_full_rows)
  = Ok (to_float (fold_left Z.add
                    (map (column_holes_of (TetrisGame.board two_full_rows))
                         (seq 0 (Z.to_nat 4))) 0)) /\
  forall c, 0 <= column_holes_of (TetrisGame.board two_full_rows) c
              <= column_height_of (TetrisGame.board two_full_rows) c.
Proof.
  apply (count_holes_spec 4 (TetrisGame.board two_full_rows)).
  - repeat constructor.
  - vm_compute. discriminate.
Defined.

(** X22.  On a grid of rows of equal length, one row at least,
    [_evaluate_tetris_readiness] raises nothing and returns 0, 5, 15 or
    50; it returns 0 whenever the piece type is not ["I"]. *)
Theorem tetris_readiness_range (w : Z) (b : list (list string))
        (piece_type : option string) :
  rect w b -> 1 <= len b ->
  exists v,
    _evaluate_tetris_readiness b piece_type = Ok v /\
    readiness_value v /\
    (piece_type <> Some "I"%string -> v = 0%float).
Proof.
  intros Hrect Hrows.
  destruct (returns_tetris_readiness w b Hrect Hrows piece_type) as [v Hv].
  exists v. split; [exact Hv|]. now apply (tetris_readiness_values b piece_type).
Qed.

Lemma tetris_readiness_range_witness :
  exists v,
    _evaluate_tetris_readiness (TetrisGame.board four_rows_game) (Some "I"%string)
      = Ok v /\
    readiness_value v /\
    (Some "I"%string <> Some "I"%string -> v = 0%float).
Proof.
  apply (tetris_readiness_range 4 (TetrisGame.board four_rows_game) (Some "I"%string)).
  - repeat constructor.
  - vm_compute. discriminate.
Defined.

End EvaluatorProperties.

Section SearchProperties.
Import Search.



(** X24.  [get_best_move], with or without lookahead, on a game whose
    grid has the right dimensions and whose pieces are pieces of the
    catalog: it returns when its dropping loops may run for as many
    iterations as the grid has rows; it raises nothing; every object that
    existed before the call is unchanged after it, the test pieces and
    test boards being new objects; so the game read after the call is the
    game read before it. *)
Theorem get_best_move_leaves_game (s : state) (g : TetrisGame.t) (fuel : nat)
        (use_lookahead : bool) :
  represents s g -> game_inv g -> TetrisGame.height g <= Z.of_nat fuel ->
  exists mv s',
    get_best_move fuel use_lookahead s = (Ok mv, s') /\
    ext s s' /\ snapshot s' = (Ok g, s').
Proof.
  intros Hrep [Hok [[Hw Hh] [_ [Hcur Hnext]]]] Hfuel.
  destruct (get_best_move_spec g Hok ltac:(lia) ltac:(lia) Hcur Hnext fuel Hfuel
              s use_lookahead Hrep) as [mv [s' [Hrun [He _]]]].
  exists mv, s'. split; [exact Hrun|]. split; [exact He|].
  apply snapshot_spec. now apply (ext_represents s s').
Qed.

Lemma get_best_move_leaves_game_witness :
  exists mv s',
    get_best_move 20 true (store_of new_game_I) = (Ok mv, s') /\
    ext (store_of new_game_I) s' /\ snapshot s' = (Ok new_game_I, s').
Proof.
  apply (get_best_move_leaves_game (store_of new_game_I) new_game_I 20 true).
  - apply store_of_represents.
  - apply reachable_inv. exact new_game_I_reachable.
  - vm_compute. discriminate.
Defined.

(** X25.  The move that [get_best_move] returns, if it returns one, is
    a rotation index of the current piece and a column from -2 to the
    width plus 1 such that the piece, in that rotation state and column,
    has a row where it is legal and from which it cannot move down. *)
Theorem get_best_move_resting (s : state) (g : TetrisGame.t) (fuel : nat)
        (use_lookahead : bool) :
  represents s g -> game_inv g -> TetrisGame.height g <= Z.of_nat fuel ->
  exists mv s',
    get_best_move fuel use_lookahead s = (Ok mv, s') /\ resting_move g mv.
Proof.
  intros Hrep [Hok [[Hw Hh] [_ [Hcur Hnext]]]] Hfuel.
  destruct (get_best_move_spec g Hok ltac:(lia) ltac:(lia) Hcur Hnext fuel Hfuel
              s use_lookahead Hrep) as [mv [s' [Hrun [_ Hmv]]]].
  now exists mv, s'.
Qed.

Lemma get_best_move_resting_witness :
  exists mv s',
    get_best_move 20 false (store_of new_game_I) = (Ok mv, s') /\
    resting_move new_game_I mv.
Proof.
  apply (get_best_move_resting (store_of new_game_I) new_game_I 20 false).
  - apply store_of_represents.
  - apply reachable_inv. exact new_game_I_reachable.
  - vm_compute. discriminate.
Defined.

(** X26.  The loops over the columns test a candidate at the row where
    the test piece was left by the candidate before it, not at row 0: when
    the piece is not legal at that row the candidate is skipped, the row
    is not reset and no test board is built, whether or not the piece
    would be legal at row 0.  On [uneven_game] the [O] piece left at row 8
    by column 0 is not legal at row 8 of column 1, where it is legal at
    row 0. *)
Theorem search_tests_candidate_at_stale_row (g : TetrisGame.t) (sr s : state)
        (fuel tp : nat) (q0 : Tetromino.t) (x0 y0 x : Z) :
  represents sr g -> board_ok g -> ext sr s -> (length (heap sr) <= tp)%nat ->
  is_piece s tp (moved_to x0 y0 q0) ->
  legal g (moved_to x y0 q0) 0 0 = false ->
  (exists s', try_place fuel tp x s = (Ok None, s') /\
              is_piece s' tp (moved_to x y0 q0)) /\
  legal uneven_game (moved_to 1 8 (piece_at "O" 0 0 0)) 0 0 = false /\
  legal uneven_game (moved_to 1 0 (piece_at "O" 0 0 0)) 0 0 = true.
Proof.
  intros Hrep Hok He Htp Hp Hl. split; [|split; vm_compute; reflexivity].
  unfold try_place. unfold bindM at 1. rewrite (update_piece_spec s tp _ _ Hp).
  rewrite set_x_moved_to.
  set (s1 := mk_state (<[tp := OPiece (moved_to x y0 q0)]> (heap s)) (game s)).
  assert (He1 : ext sr s1) by now apply ext_write.
  assert (Hp1 : is_piece s1 tp (moved_to x y0 q0))
    by now apply (is_piece_write s tp _ _ Hp).
  unfold bindM at 1.
  rewrite (valid_position_store s1 g tp _ 0 0 (ext_represents sr s1 g He1 Hrep) Hok Hp1).
  rewrite Hl. cbn [negb]. exists s1. now split.
Qed.

Lemma search_tests_candidate_at_stale_row_witness :
  (exists s',
     try_place 12 15 1
       (mk_state (heap (store_of uneven_game)
                    ++ [OPiece (moved_to 0 8 (piece_at "O" 0 0 0))])
                 (game (store_of uneven_game)))
     = (Ok None, s') /\
     is_piece s' 15 (moved_to 1 8 (piece_at "O" 0 0 0))) /\
  legal uneven_game (moved_to 1 8 (piece_at "O" 0 0 0)) 0 0 = false /\
  legal uneven_game (moved_to 1 0 (piece_at "O" 0 0 0)) 0 0 = true.
Proof.
  apply (search_tests_candidate_at_stale_row uneven_game (store_of uneven_game)
           (mk_state (heap (store_of uneven_game)
                        ++ [OPiece (moved_to 0 8 (piece_at "O" 0 0 0))])
                     (game (store_of uneven_game)))
           12 15 (piece_at "O" 0 0 0) 0 8 1).
  - apply store_of_represents.
  - split; [reflexivity|repeat constructor].
  - apply ext_alloc.
  - vm_compute. lia.
  - reflexivity.
  - vm_compute. reflexivity.
Defined.

End SearchProperties.

Section LayoutProperties.


End LayoutProperties.

Section SteeringProperties.
Import TetrisGame.

(** X28.  The methods that steer the current piece ([move_left],
    [move_right], [move_down], [rotate] and [execute_move]) change nothing
    of the game but the rotation state and the position of the current
    piece, the fall speed and the fall timer, however they end, also when
    a loop of [execute_move] is stopped before its end: the grid, the
    dimensions, the score, the level, the line count, the two flags, the
    next piece and the kind of the current piece are as before. *)
Theorem steering_changes_piece_only (c : command) (g : t) :
  piece_command c -> piece_only g (snd (run c g)).
Proof.
  intros Hc. destruct c; cbn [piece_command] in Hc; try contradiction; cbn [run].
  - apply keeps_piece_move_left, piece_only_refl.
  - apply keeps_piece_move_right, piece_only_refl.
  - apply (keeps_bind (piece_only g));
      [apply keeps_piece_move_down|intros _; apply keeps_ret|apply piece_only_refl].
  - apply keeps_piece_rotate, piece_only_refl.
  - apply keeps_piece_execute_move, piece_only_refl.
Qed.

Lemma steering_changes_piece_only_witness :
  piece_only stuck_game (snd (run (ExecuteMove 5 (Some (1, 3))) stuck_game)).
Proof. apply (steering_changes_piece_only (ExecuteMove 5 (Some (1, 3))) stuck_game). exact I. Defined.

End SteeringProperties.

Section ScoreProperties.
Import TetrisGame.

(** X29.  No operation of a session lowers the score, the number of
    cleared lines or the level. *)
Theorem score_never_decreases (g : t) (c : command) :
  reachable g -> command_ok c ->
  score g <= score (snd (run c g)) /\
  lines_cleared g <= lines_cleared (snd (run c g)) /\
  level g <= level (snd (run c g)).
Proof.
  intros Hreach Hc. pose proof (reachable_session g Hreach) as Hs.
  set (P := fun g' : t =>
              score g <= score g' /\ lines_cleared g <= lines_cleared g' /\
              level g <= level g').
  change (P (snd (run c g))).
  assert (Hsame : forall g', piece_only g g' -> P g').
  { intros g' Hp. destruct (piece_only_score g g' Hp) as [Es [En El]].
    unfold P. lia. }
  assert (Hlock : forall g1 shape_type now,
            session_inv g1 -> piece_only g g1 -> In shape_type (dict_keys SHAPES) ->
            P (snd (lock_piece shape_type now g1))).
  { intros g1 ty now Hs1 Hp1 Hin. exact (lock_after_steering g g1 ty now Hs1 Hp1 Hin). }
  destruct c; cbn [command_ok] in Hc; cbn [run].
  - apply Hsame, keeps_piece_move_left, piece_only_refl.
  - apply Hsame, keeps_piece_move_right, piece_only_refl.
  - apply Hsame. apply (keeps_bind (piece_only g));
      [apply keeps_piece_move_down|intros _; apply keeps_ret|apply piece_only_refl].
  - apply Hsame, keeps_piece_rotate, piece_only_refl.
  - unfold hard_drop, bindM.
    pose proof (keeps_drop_loop fuel g Hs) as Hs1.
    pose proof (keeps_piece_drop_loop g fuel g (piece_only_refl g)) as Hp1.
    destruct (drop_loop fuel g) as [[[]|e] g1]; cbn [snd] in *.
    + now apply Hlock.
    + now apply Hsame.
  - apply Hlock; [exact Hs|apply piece_only_refl|exact Hc].
  - unfold update. unfold bindM at 1. cbn [get].
    destruct (game_over g || paused g); [apply Hsame, piece_only_refl|].
    destruct (PrimFloat.leb _ _); [|apply Hsame, piece_only_refl].
    unfold bindM at 1.
    pose proof (keeps_move_down g Hs) as Hs1.
    pose proof (keeps_piece_move_down g g (piece_only_refl g)) as Hp1.
    destruct (move_down g) as [[moved|e] g1]; cbn [snd] in *; [|now apply Hsame].
    destruct moved; cbn [negb].
    + now apply Hsame.
    + unfold bindM at 1.
      pose proof (Hlock g1 shape_type lock_time Hs1 Hp1 Hc) as Hl.
      destruct (lock_piece shape_type lock_time g1) as [[[]|e] g2]; cbn [snd] in *;
        exact Hl.
  - unfold P. cbn. lia.
  - unfold P. cbn. lia.
  - unfold P. cbn. lia.
  - apply Hsame, keeps_piece_execute_move, piece_only_refl.
Qed.

Lemma score_never_decreases_witness :
  score stuck_game <= score (snd (run (HardDrop 3 "T" 0%float) stuck_game)) /\
  lines_cleared stuck_game
    <= lines_cleared (snd (run (HardDrop 3 "T" 0%float) stuck_game)) /\
  level stuck_game <= level (snd (run (HardDrop 3 "T" 0%float) stuck_game)).
Proof.
  apply (score_never_decreases stuck_game (HardDrop 3 "T" 0%float)).
  - exact stuck_game_reachable.
  - cbn. tauto.
Defined.

End ScoreProperties.
